(** * zerops-mcp: the API client's retry engine, redirect hook and process poller

    A shallow embedding of [internal/api/retry.go] and of the parts of
    [internal/api/client.go] that the executor and the poller are made of
    ([NewClient]'s [CheckRedirect], [doRequest], [GetProcess],
    [WaitForProcess]), followed by the properties established about them.
    The other operations of the client, [internal/utils/mask.go] and what
    the tools package makes of the client's results
    ([internal/tools/common.go], [internal/tools/validators.go]) come
    after the scenarios, their properties at the end.

    Conventions.
    - Go's [int], [int64] and [time.Duration] (nanoseconds) are [Z].
    - [float64] is IEEE 754 binary64: every operation returns its exact
      result rounded to the nearest double, ties to even; the conversion
      [time.Duration(f)] truncates toward zero.
    - A Go [error] is a value with an [Error()] text; [nil] is [None].
    - Everything the code reads from outside (the network, the clock, the
      random source, [encoding/json]) comes from an environment [Env];
      everything it changes is in the [World] that is threaded through.
    - The [World] also keeps counters and a trace of events.  The code
      does not read them; the properties are stated over them. *)

From Stdlib Require Import ZArith QArith Qround Qminmax Qpower Qabs Lia Lqa Bool Ascii
  DecimalString.
From stdpp Require Import base option list gmap strings.
From Equations Require Import Equations.
From Equations.Prop Require Import Logic.

Local Open Scope Z_scope.

(* ===================================================================== *)
(** * Strings *)

(** [strings.Contains(s, substr)]. *)
Fixpoint Contains (s substr : string) : bool :=
  String.prefix substr s ||
  match s with
  | EmptyString => false
  | String _ s' => Contains s' substr
  end.

(** [fmt.Sprintf("%d", n)]. *)
Definition itoa (n : Z) : string := NilZero.string_of_int (Z.to_int n).

(* ===================================================================== *)
(** * Errors *)

(** The error values that occur: plain texts ([errors.New], [fmt.Errorf]
    without [%w]), texts that wrap another error ([fmt.Errorf] with [%w]),
    and the two sentinels of package [context]. *)
Inductive error : Type :=
| errorString (s : string)
| wrapError (msg : string) (inner : error)
| Canceled
| DeadlineExceeded.

Definition Error (e : error) : string :=
  match e with
  | errorString s => s
  | wrapError msg _ => msg
  | Canceled => "context canceled"
  | DeadlineExceeded => "context deadline exceeded"
  end.

(** [fmt.Errorf(prefix + "%w", err)]. *)
Definition Errorf_w (prefix : string) (err : error) : error :=
  wrapError (prefix +:+ Error err) err.

(** [errors.Unwrap]. *)
Definition Unwrap (e : error) : option error :=
  match e with
  | wrapError _ inner => Some inner
  | _ => None
  end.

(* ===================================================================== *)
(** * float64

    The [float64] of Go is the binary64 format of IEEE 754.  A finite
    value is known by the rational number it stands for (the sign of a
    zero is not kept: nothing below depends on it); the other values are
    the two infinities and NaN.  The arithmetic of the language rounds
    the exact result of each operation to the nearest double, ties to
    even, and so do the operations here; each operation is rounded on
    its own, as the compiler has it on amd64 (the language lets an
    implementation fuse a product with a sum). *)

Inductive float64 : Type :=
| Finite (q : Q)
| PosInf
| NegInf
| NaN.

Definition pow2 (e : Z) : Q := Qpower 2 e.

(** For [x > 0], the [e] with [2^e <= x < 2^(e+1)]. *)
Definition ilog2 (x : Q) : Z :=
  let e := Z.log2 (Qnum x) - Z.log2 (Z.pos (Qden x)) in
  if Qle_bool (pow2 e) x then e else e - 1.

(** The integer nearest to [t], the even one of two that are equally
    near. *)
Definition roundNearestEven (t : Q) : Z :=
  let f := Qfloor t in
  match Qcompare (t - inject_Z f) (1 # 2) with
  | Lt => f
  | Gt => f + 1
  | Eq => if Z.even f then f else f + 1
  end.

(** The exponent of the smallest normal double. *)
Definition emin : Z := -1022.

(** A positive [x] rounded to the nearest multiple of the distance
    between the doubles around it: 52 binary places below its leading
    one, and no finer than the subnormals. *)
Definition roundPos (x : Q) : Q :=
  let u := pow2 (Z.max (ilog2 x) emin - 52) in
  inject_Z (roundNearestEven (x / u)) * u.

(** Rounding to nearest, ties to even, is symmetric: a negative [x] is
    rounded as its magnitude. *)
Definition roundQ (x : Q) : Q :=
  match Qcompare x 0 with
  | Eq => 0
  | Gt => Qred (roundPos x)
  | Lt => Qred (- roundPos (- x))
  end.

(** The double nearest to [x]; a result of [2^1024] or beyond is an
    infinity.  This is also what a constant of the source text stands
    for: [0.1] is [round64 (1 # 10)]. *)
Definition round64 (x : Q) : float64 :=
  let y := roundQ x in
  if Qle_bool (pow2 1024) y then PosInf
  else if Qle_bool y (- pow2 1024) then NegInf
  else Finite y.

(** A number written where a [float64] is expected stands for the
    double nearest to it. *)
Coercion round64 : Q >-> float64.
Bind Scope Q_scope with float64.

(** [float64(n)] for an integer [n]. *)
Definition floatOfInt (n : Z) : float64 := round64 (inject_Z n).

(** [a * b]. *)
Definition fmul (a b : float64) : float64 :=
  match a, b with
  | NaN, _ | _, NaN => NaN
  | Finite x, Finite y => round64 (x * y)
  | Finite x, PosInf | PosInf, Finite x =>
      if Qeq_bool x 0 then NaN else if Qle_bool 0 x then PosInf else NegInf
  | Finite x, NegInf | NegInf, Finite x =>
      if Qeq_bool x 0 then NaN else if Qle_bool 0 x then NegInf else PosInf
  | PosInf, PosInf | NegInf, NegInf => PosInf
  | PosInf, NegInf | NegInf, PosInf => NegInf
  end.

(** [a + b]. *)
Definition fadd (a b : float64) : float64 :=
  match a, b with
  | NaN, _ | _, NaN => NaN
  | Finite x, Finite y => round64 (x + y)
  | PosInf, NegInf | NegInf, PosInf => NaN
  | PosInf, _ | _, PosInf => PosInf
  | NegInf, _ | _, NegInf => NegInf
  end.

(** [a - b]. *)
Definition fsub (a b : float64) : float64 :=
  match a, b with
  | NaN, _ | _, NaN => NaN
  | Finite x, Finite y => round64 (x - y)
  | PosInf, PosInf | NegInf, NegInf => NaN
  | PosInf, _ | _, NegInf => PosInf
  | NegInf, _ | _, PosInf => NegInf
  end.

(** [a > b]; a comparison with NaN is false. *)
Definition fgt (a b : float64) : bool :=
  match a, b with
  | NaN, _ | _, NaN => false
  | Finite x, Finite y => negb (Qle_bool x y)
  | PosInf, PosInf | NegInf, NegInf => false
  | PosInf, _ | _, NegInf => true
  | NegInf, _ | _, PosInf => false
  end.

(* ===================================================================== *)
(** * retry.go: configuration *)

Record RetryConfig : Type := {
  MaxRetries : Z;
  BaseDelay : Z;
  MaxDelay : Z;
  Multiplier : float64;
  JitterFactor : float64
}.

Definition Millisecond : Z := 1000000.
Definition Second : Z := 1000 * Millisecond.

Definition DefaultRetryConfig : RetryConfig := {|
  MaxRetries := 3;
  BaseDelay := 100 * Millisecond;
  MaxDelay := 5 * Second;
  Multiplier := 2;
  JitterFactor := 1 # 10
|}.

(* ===================================================================== *)
(** * retry.go: isRetryableError *)

Definition networkErrors : list string :=
  [ "connection refused"; "connection reset"; "i/o timeout";
    "temporary failure"; "no such host"; "network is unreachable" ].

Definition retryableStatuses : list string :=
  [ "429"; "502"; "503"; "504" ].

(** [for _, p := range patterns { if strings.Contains(errStr, p) { return true } }] *)
Fixpoint containsAny (errStr : string) (patterns : list string) : bool :=
  match patterns with
  | [] => false
  | pattern :: rest =>
      if Contains errStr pattern then true else containsAny errStr rest
  end.

Definition isRetryableError (err : option error) : bool :=
  match err with
  | None => false
  | Some e =>
      let errStr := Error e in
      if containsAny errStr networkErrors then true
      else if containsAny errStr retryableStatuses then true
      else false
  end.

(* ===================================================================== *)
(** * retry.go: calculateBackoff *)

Definition MinInt64 : Z := - 2 ^ 63.
Definition MaxInt64 : Z := 2 ^ 63 - 1.

(** Truncation toward zero. *)
Definition Qtrunc (x : Q) : Z := Z.quot (Qnum x) (Z.pos (Qden x)).

(** [time.Duration(f)]: the conversion of a float to [int64] truncates
    toward zero; when the truncated value has no [int64], and for an
    infinity or NaN, the result is left to the implementation by the
    language, and is [unrepresentable f] here. *)
Definition Duration_of_float (unrepresentable : float64 -> Z) (f : float64) : Z :=
  match f with
  | Finite q =>
      let t := Qtrunc q in
      if (MinInt64 <=? t) && (t <=? MaxInt64) then t else unrepresentable f
  | _ => unrepresentable f
  end.

(** [calculateBackoff(attempt, config)]; [pow] is [math.Pow], which the
    standard library computes in software, and [rnd] is the value that
    [rand.Float64()] returns, a double in [[0, 1)]. *)
Definition calculateBackoff (pow : float64 -> float64 -> float64)
    (unrepresentable : float64 -> Z) (rnd : float64)
    (attempt : Z) (config : RetryConfig) : Z :=
  let backoff :=
    fmul (floatOfInt (BaseDelay config))
         (pow (Multiplier config) (floatOfInt attempt)) in
  let backoff :=
    if fgt backoff (floatOfInt (MaxDelay config))
    then floatOfInt (MaxDelay config) else backoff in
  let jitter :=
    fmul (fmul backoff (JitterFactor config)) (fsub (fmul rnd 2) 1) in
  let backoff := fadd backoff jitter in
  Duration_of_float unrepresentable backoff.

(* ===================================================================== *)
(** * The outside world *)

(** ** Contexts

    A [context.Context] is known by the instant at which its [Done]
    channel is closed, if ever, and by the error [Err()] reports from
    then on. *)
Record Ctx : Type := {
  doneAt : option Z;
  cause : error
}.

(** [context.Background()]: never done. *)
Definition Background : Ctx := {| doneAt := None; cause := Canceled |}.

(** [context.WithTimeout(parent, timeout)], called at instant [t]. *)
Definition WithTimeout (parent : Ctx) (timeout : Z) (t : Z) : Ctx :=
  let deadline := t + timeout in
  match doneAt parent with
  | Some p =>
      if p <? deadline then parent
      else {| doneAt := Some deadline; cause := DeadlineExceeded |}
  | None => {| doneAt := Some deadline; cause := DeadlineExceeded |}
  end.

(** [ctx.Err()] at instant [t]. *)
Definition ctx_Err (ctx : Ctx) (t : Z) : option error :=
  match doneAt ctx with
  | Some d => if d <=? t then Some (cause ctx) else None
  | None => None
  end.

(** ** HTTP *)

(** [http.Header]: a map from (canonical) keys to lists of values. *)
Definition Header : Type := gmap string (list string).

Definition Header_Get (h : Header) (key : string) : string :=
  match h !! key with
  | Some (v :: _) => v
  | _ => EmptyString
  end.

Definition Header_Set (h : Header) (key value : string) : Header :=
  <[ key := [value] ]> h.

Record Request : Type := {
  Method : string;
  URL : string;
  ReqHeader : Header
}.

(** A response as [doRequest] sees it: the status code and what
    [io.ReadAll(resp.Body)] gives. *)
Record Response : Type := {
  StatusCode : Z;
  Body : string + error
}.

(** What one round trip gives: a transport failure, or a response
    together with the target [net/http] decides to follow when the
    response is a redirect. *)
Inductive Reply : Type :=
| TransportError (e : error)
| Responded (resp : Response) (follow : option string).

(** ** api package types (types.go) *)

Record ErrorDetail : Type := {
  Code : string;
  Message : string
}.

Record ErrorResponse : Type := {
  RespError : ErrorDetail
}.

(** [Process], without its time stamps and user records, which the
    client never reads. *)
Record Process : Type := {
  ID : string;
  ActionName : string;
  Status : string;
  ServiceStackID : string;
  ProjectID : string;
  ClientID : string
}.

(** A Go value handed over as request body, known by what [json.Marshal]
    makes of it. *)
Inductive Payload : Type :=
| Marshals (json : string)
| MarshalFails (e : error).

(** ** Environment and state *)

Inductive Wake : Type := TimerFired | CtxDone.

(** The two [select] statements of the package. *)
Inductive Site : Type := BackoffWait | PollWait.

(** What is recorded of a run: a request put on the wire; the return of
    [doRequest] with its result; the end of a [select] that began at
    [start] with a timer of [d]; the return of [GetProcess]. *)
Inductive Event : Type :=
| EvSend (req : Request)
| EvAttempt (result : option string * option error)
| EvWait (site : Site) (start d : Z) (woke : Wake)
| EvGetProcess (ctx : Ctx) (processID : string) (result : error + Process).

Record Env : Type := {
  (** the [k]-th round trip: its reply and the time it takes *)
  roundTrip : nat -> Request -> Reply * N;
  (** the request [net/http] builds for a redirect hop from the requests
      made so far and the target, before [CheckRedirect] sees it *)
  nextHop : list Request -> string -> Request;
  (** [http.NewRequestWithContext]'s verdict on a method and a URL *)
  newRequestError : string -> string -> option error;
  (** [json.Unmarshal] into an [ErrorResponse] and into a [Process] *)
  unmarshalErrorResponse : string -> option ErrorResponse;
  unmarshalProcess : string -> error + Process;
  (** the [k]-th value of [rand.Float64()] *)
  randFloat64 : nat -> float64;
  (** the choice of the [k]-th [select] when both channels are ready *)
  selectTie : nat -> bool;
  (** float conversions the language leaves to the implementation *)
  unrepresentable : float64 -> Z;
  (** [math.Pow] *)
  mathPow : float64 -> float64 -> float64
}.

Record World : Type := {
  now : Z;            (** the clock, in nanoseconds *)
  trips : nat;        (** round trips made *)
  attempts : nat;     (** calls of [doRequest] *)
  draws : nat;        (** calls of [rand.Float64] *)
  selects : nat;      (** [select] statements executed *)
  trace : list Event  (** what happened, newest first *)
}.

Definition M (A : Type) : Type := World -> A * World.

Definition ret {A : Type} (a : A) : M A := fun w => (a, w).

Definition bind {A B : Type} (m : M A) (k : A -> M B) : M B :=
  fun w => let (a, w') := m w in k a w'.

Notation "'let*' x ':=' m 'in' k" := (bind m (fun x => k))
  (at level 10, x pattern, m at level 100, k at level 200).

Definition send (env : Env) (req : Request) : M Reply := fun w =>
  let (reply, took) := roundTrip env (trips w) req in
  (reply,
   {| now := now w + Z.of_N took; trips := S (trips w);
      attempts := attempts w; draws := draws w; selects := selects w;
      trace := EvSend req :: trace w |}).

Definition Float64 (env : Env) : M float64 := fun w =>
  (randFloat64 env (draws w),
   {| now := now w; trips := trips w; attempts := attempts w;
      draws := S (draws w); selects := selects w; trace := trace w |}).

(** Bookkeeping at the return of [doRequest]. *)
Definition attempted (result : option string * option error)
    : M (option string * option error) := fun w =>
  (result,
   {| now := now w; trips := trips w; attempts := S (attempts w);
      draws := draws w; selects := selects w;
      trace := EvAttempt result :: trace w |}).

Definition logEvent (ev : Event) : M unit := fun w =>
  (tt,
   {| now := now w; trips := trips w; attempts := attempts w;
      draws := draws w; selects := selects w; trace := ev :: trace w |}).

Definition clock : M Z := fun w => (now w, w).

(** [select { case <-ctx.Done(): ... case <-time.After(d): ... }].
    The timer is ready [max 0 d] from now, the context when it is done;
    the earlier one is taken, and [selectTie] decides when both are ready
    at the same instant. *)
Definition wakeUp (env : Env) (ctx : Ctx) (d : Z) (w : World) : Wake * Z :=
  let timerAt := now w + Z.max 0 d in
  match doneAt ctx with
  | None => (TimerFired, timerAt)
  | Some t =>
      let ctxAt := Z.max (now w) t in
      if ctxAt <? timerAt then (CtxDone, ctxAt)
      else if timerAt <? ctxAt then (TimerFired, timerAt)
      else if selectTie env (selects w) then (CtxDone, ctxAt)
      else (TimerFired, timerAt)
  end.

Definition selectDoneOrAfter (env : Env) (site : Site) (ctx : Ctx) (d : Z)
    : M Wake := fun w =>
  let (woke, at_) := wakeUp env ctx d w in
  (woke,
   {| now := at_; trips := trips w; attempts := attempts w;
      draws := draws w; selects := S (selects w);
      trace := EvWait site (now w) d woke :: trace w |}).

(* ===================================================================== *)
(** * client.go: the client and its redirect hook *)

Record Client : Type := {
  baseURL : string;
  apiKey : string;
  debug : bool;
  retryConfig : RetryConfig;
  httpTimeout : Z
}.

Record ClientOptions : Type := {
  optBaseURL : string;
  optAPIKey : string;
  optTimeout : Z;
  optDebug : bool;
  optRetryConfig : option RetryConfig
}.

(** [NewClient(opts)]; the [CheckRedirect] it installs is the function
    [CheckRedirect] below. *)
Definition NewClient (opts : ClientOptions) : Client :=
  let timeout := optTimeout opts in
  let timeout := if timeout =? 0 then 30 * Second else timeout in
  let retryConfig := DefaultRetryConfig in
  let retryConfig :=
    match optRetryConfig opts with
    | Some rc => rc
    | None => retryConfig
    end in
  {| baseURL := optBaseURL opts; apiKey := optAPIKey opts;
     debug := optDebug opts; retryConfig := retryConfig;
     httpTimeout := timeout |}.

(** [WithRetry(config)]. *)
Definition WithRetry (c : Client) (config : RetryConfig) : Client :=
  {| baseURL := baseURL c; apiKey := apiKey c; debug := debug c;
     retryConfig := config; httpTimeout := httpTimeout c |}.

(** The [CheckRedirect] function of the client: [req] is the upcoming
    request, [via] the requests made already, oldest first.  The request
    is changed in place, so it is returned with the verdict.  (The debug
    log line is left out.) *)
Definition CheckRedirect (req : Request) (via : list Request)
    : Request * option error :=
  let req :=
    match via with
    | first :: _ =>
        {| Method := Method req; URL := URL req;
           ReqHeader := Header_Set (ReqHeader req) "Authorization"
                          (Header_Get (ReqHeader first) "Authorization") |}
    | [] => req
    end in
  if (10 <=? length via)%nat
  then (req, Some (errorString "stopped after 10 redirects"))
  else (req, None).

(** ** [net/http] around the hook

    The standard library is not part of the repository; what follows is
    its client as documented: errors of [Do] are [*url.Error] values, and
    [CheckRedirect] is consulted before each redirect is followed. *)

Definition toLower (c : ascii) : ascii :=
  let n := nat_of_ascii c in
  if ((65 <=? n) && (n <=? 90))%nat then ascii_of_nat (n + 32) else c.

Fixpoint lowerString (s : string) : string :=
  match s with
  | EmptyString => EmptyString
  | String c s' => String (toLower c) (lowerString s')
  end.

(** [urlErrorOp]: ["GET"] becomes ["Get"]. *)
Definition urlErrorOp (method : string) : string :=
  match method with
  | EmptyString => "Get"
  | String c rest => String c (lowerString rest)
  end.

(** [%q] of a text without characters that need an escape. *)
Definition quoted (s : string) : string :=
  String (ascii_of_nat 34) s +:+ String (ascii_of_nat 34) EmptyString.

(** [&url.Error{Op, URL, Err}], whose text is [Op "URL": Err]. *)
Definition urlError (op url : string) (err : error) : error :=
  wrapError (op +:+ " " +:+ quoted url +:+ ": " +:+ Error err) err.

Definition firstMethod (reqs : list Request) : string :=
  match reqs with
  | first :: _ => Method first
  | [] => EmptyString
  end.

(** [c.httpClient.Do(req)], for the [http.Client] that [NewClient]
    builds: the request is sent; a response that is no redirect ends the
    call; for a redirect the next request is built and shown to
    [CheckRedirect] together with all requests made so far, whose error
    ends the call. *)
Equations? clientDo (env : Env) (reqs : list Request) (req : Request) (w : World)
  : (option Response * option error) * World
  by wf (10 - length reqs)%nat lt :=
clientDo env reqs req w with send env req w := {
  | (TransportError e, w1) =>
      ((None, Some (urlError (urlErrorOp (firstMethod (reqs ++ [req]))) (URL req) e)), w1)
  | (Responded resp None, w1) => ((Some resp, None), w1)
  | (Responded resp (Some loc), w1)
      with inspect (CheckRedirect (nextHop env (reqs ++ [req]) loc) (reqs ++ [req])) := {
      | exist _ (next, Some e) _ =>
          ((Some resp,
            Some (urlError (urlErrorOp (firstMethod (reqs ++ [req]))) loc e)), w1)
      | exist _ (next, None) Hok => clientDo env (reqs ++ [req]) next w1 } }.
Proof.
  unfold CheckRedirect in Hok.
  destruct (Nat.leb_spec 10 (length (reqs ++ [req]))) as [|Hlt]; [discriminate|].
  rewrite length_app in Hlt |- *. simpl in Hlt |- *. clear - Hlt. lia.
Qed.

Definition Do (env : Env) (req : Request) : M (option Response * option error) :=
  clientDo env [] req.

(* ===================================================================== *)
(** * client.go: doRequest *)

(** [doRequest(ctx, method, path, body)].  The context reaches the
    transport only: a call it cuts short is a [TransportError] of the
    environment, as is one that the client's [Timeout] ends.  [Do] always
    returns a response or an error; the case of neither stands for
    nothing.  (The debug log lines are left out.) *)
Definition doRequest (env : Env) (c : Client) (ctx : Ctx)
    (method path : string) (body : option Payload)
    : M (option string * option error) :=
  let* result :=
  match body with
  | Some (MarshalFails err) =>
      ret (None, Some (Errorf_w "failed to marshal request body: " err))
  | _ =>
      let url := baseURL c +:+ path in
      match newRequestError env method url with
      | Some err => ret (None, Some (Errorf_w "failed to create request: " err))
      | None =>
          let req :=
            {| Method := method; URL := url;
               ReqHeader :=
                 Header_Set
                   (Header_Set ∅ "Authorization" ("Bearer " +:+ apiKey c))
                   "Content-Type" "application/json" |} in
          let* (resp, err) := Do env req in
          match err, resp with
          | Some err, _ => ret (None, Some (Errorf_w "request failed: " err))
          | None, None => ret (None, None)
          | None, Some resp =>
              match Body resp with
              | inr err => ret (None, Some (Errorf_w "failed to read response: " err))
              | inl respBody =>
                  if 400 <=? StatusCode resp then
                    match unmarshalErrorResponse env respBody with
                    | Some errResp =>
                        if negb (String.eqb (Code (RespError errResp)) EmptyString) then
                          ret (None,
                               Some (errorString
                                       (itoa (StatusCode resp) +:+ ": "
                                        +:+ Code (RespError errResp) +:+ " - "
                                        +:+ Message (RespError errResp))))
                        else
                          ret (None,
                               Some (errorString
                                       (itoa (StatusCode resp) +:+ ": " +:+ respBody)))
                    | None =>
                        ret (None,
                             Some (errorString
                                     (itoa (StatusCode resp) +:+ ": " +:+ respBody)))
                    end
                  else ret (Some respBody, None)
              end
          end
      end
  end in
  attempted result.

(* ===================================================================== *)
(** * retry.go: doRequestWithRetry *)

(** The values [attempt] takes in
    [for attempt := 0; attempt <= max; attempt++]. *)
Fixpoint countFrom (from : Z) (n : nat) : list Z :=
  match n with
  | O => []
  | S n' => from :: countFrom (from + 1) n'
  end.

Definition attemptRange (max : Z) : list Z := countFrom 0 (Z.to_nat (max + 1)).

(** The loop of [doRequestWithRetry], over the values of [attempt] still
    to come.  (The debug log line is left out.) *)
Fixpoint retryLoop (env : Env) (c : Client) (ctx : Ctx)
    (method path : string) (body : option Payload) (config : RetryConfig)
    (upcoming : list Z) (lastErr : option error)
    : M (option string * option error) :=
  match upcoming with
  | [] => ret (None, lastErr)
  | attempt :: rest =>
      let* (resp, err) := doRequest env c ctx method path body in
      match err with
      | None => ret (resp, None)
      | Some _ =>
          if negb (isRetryableError err) || (attempt =? MaxRetries config)
          then ret (None, err)
          else
            let lastErr := err in
            let* rnd := Float64 env in
            let delay :=
              calculateBackoff (mathPow env) (unrepresentable env) rnd attempt
                config in
            let* woke := selectDoneOrAfter env BackoffWait ctx delay in
            match woke with
            | CtxDone => let* t := clock in ret (None, ctx_Err ctx t)
            | TimerFired =>
                retryLoop env c ctx method path body config rest lastErr
            end
      end
  end.

Definition effectiveConfig (c : Client) : RetryConfig :=
  let config := retryConfig c in
  if MaxRetries config =? 0 then DefaultRetryConfig else config.

Definition doRequestWithRetry (env : Env) (c : Client) (ctx : Ctx)
    (method path : string) (body : option Payload)
    : M (option string * option error) :=
  let config := effectiveConfig c in
  retryLoop env c ctx method path body config
    (attemptRange (MaxRetries config)) None.

(* ===================================================================== *)
(** * client.go: GetProcess and WaitForProcess *)

(** [GetProcess(ctx, processID)]: an error, or the process. *)
Definition GetProcess (env : Env) (c : Client) (ctx : Ctx) (processID : string)
    : M (error + Process) :=
  let* (resp, err) :=
    doRequestWithRetry env c ctx "GET"
      ("/api/rest/public/process/" +:+ processID) None in
  let result :=
    match err with
    | Some err => inl err
    | None =>
        match unmarshalProcess env (default EmptyString resp) with
        | inl err => inl (Errorf_w "failed to unmarshal process response: " err)
        | inr process => inr process
        end
    end in
  let* _ := logEvent (EvGetProcess ctx processID result) in
  ret result.

Definition minInterval : Z := 500 * Millisecond.
Definition maxInterval : Z := 5 * Second.
Definition multiplier : float64 := 3 # 2.

(** The [switch process.Status] that [WaitForProcess] has twice: the
    values to return, or [None] when no case applies. *)
Definition switchStatus (processID : string) (process : Process)
    : option (option Process * option error) :=
  if String.eqb (Status process) "SUCCESS" || String.eqb (Status process) "FINISHED"
  then Some (Some process, None)
  else if String.eqb (Status process) "FAILED"
          || String.eqb (Status process) "ERROR"
          || String.eqb (Status process) "CANCELLED"
  then Some (Some process,
             Some (errorString ("process " +:+ processID
                                +:+ " failed with status: " +:+ Status process)))
  else None.

(** [fmt.Errorf(prefix + "%w", err)] for an [err] that may be [nil]. *)
Definition Errorf_w_opt (prefix : string) (err : option error) : error :=
  match err with
  | Some e => Errorf_w prefix e
  | None => errorString (prefix +:+ "%!w(<nil>)")
  end.

(** The [for { select { ... } }] of [WaitForProcess]; [None] when the loop
    has not ended after [fuel] rounds. *)
Fixpoint pollLoop (fuel : nat) (env : Env) (c : Client) (ctx : Ctx)
    (processID : string) (currentInterval : Z)
    : M (option (option Process * option error)) :=
  match fuel with
  | O => ret None
  | S fuel' =>
      let* woke := selectDoneOrAfter env PollWait ctx currentInterval in
      match woke with
      | CtxDone =>
          let* final := GetProcess env c Background processID in
          match final with
          | inr finalProcess =>
              ret (Some (Some finalProcess,
                         Some (errorString
                                 ("timeout waiting for process " +:+ processID
                                  +:+ " (last status: " +:+ Status finalProcess
                                  +:+ ")"))))
          | inl _ =>
              let* t := clock in
              ret (Some (None,
                         Some (Errorf_w_opt
                                 ("timeout waiting for process " +:+ processID +:+ ": ")
                                 (ctx_Err ctx t))))
          end
      | TimerFired =>
          let* r := GetProcess env c ctx processID in
          match r with
          | inl err =>
              ret (Some (None, Some (Errorf_w "failed to get process status: " err)))
          | inr process =>
              match switchStatus processID process with
              | Some out => ret (Some out)
              | None =>
                  let currentInterval :=
                    Duration_of_float (unrepresentable env)
                      (fmul (floatOfInt currentInterval) multiplier) in
                  let currentInterval :=
                    if maxInterval <? currentInterval then maxInterval
                    else currentInterval in
                  pollLoop fuel' env c ctx processID currentInterval
              end
          end
      end
  end.

Definition WaitForProcess (fuel : nat) (env : Env) (c : Client) (ctx : Ctx)
    (processID : string) (timeout : Z)
    : M (option (option Process * option error)) :=
  let* t := clock in
  let ctx := WithTimeout ctx timeout t in
  let currentInterval := minInterval in
  let* r := GetProcess env c ctx processID in
  match r with
  | inr process =>
      match switchStatus processID process with
      | Some out => ret (Some out)
      | None => pollLoop fuel env c ctx processID currentInterval
      end
  | inl _ => pollLoop fuel env c ctx processID currentInterval
  end.

(* ===================================================================== *)
(** * Vocabulary of the properties *)

Definition isSend (ev : Event) : bool :=
  match ev with EvSend _ => true | _ => false end.

Definition interrupted (ev : Event) : bool :=
  match ev with EvWait _ _ _ CtxDone => true | _ => false end.

Definition executorEvent (ev : Event) : bool :=
  match ev with
  | EvSend _ | EvAttempt _ | EvWait BackoffWait _ _ _ => true
  | _ => false
  end.

(** A dependency whose every call fails with an error that the
    classifier takes for retryable. *)
Definition permanentlyRetryable (env : Env) (c : Client) (ctx : Ctx)
    (method path : string) (body : option Payload) : Prop :=
  forall w : World,
    exists e : error,
      snd (fst (doRequest env c ctx method path body w)) = Some e /\
      isRetryableError (Some e) = true.

(** The number of attempts a configuration allows. *)
Definition allowedAttempts (config : RetryConfig) : nat :=
  Z.to_nat (MaxRetries config + 1).

(** The interval after [currentInterval], as [WaitForProcess] computes it. *)
Definition nextInterval (unrepresentable : float64 -> Z) (currentInterval : Z) : Z :=
  let next :=
    Duration_of_float unrepresentable (fmul (floatOfInt currentInterval) multiplier) in
  if maxInterval <? next then maxInterval else next.

(** What [WaitForProcess] returns once the deadline has passed, from the
    result [final] of its last look at the process. *)
Definition timeoutResult (processID : string) (ctx : Ctx) (final : error + Process)
    : option Process * option error :=
  match final with
  | inr finalProcess =>
      (Some finalProcess,
       Some (errorString ("timeout waiting for process " +:+ processID
                          +:+ " (last status: " +:+ Status finalProcess +:+ ")")))
  | inl _ =>
      (None,
       Some (Errorf_w ("timeout waiting for process " +:+ processID +:+ ": ")
               (cause ctx)))
  end.

Definition isPollWait (ev : Event) : bool :=
  match ev with EvWait PollWait _ _ _ => true | _ => false end.

(* ===================================================================== *)
(** * Scenarios

    Concrete environments, clients and worlds on which the properties
    below are exercised. *)

Definition world0 : World :=
  {| now := 0; trips := 0; attempts := 0; draws := 0; selects := 0; trace := [] |}.

(** A redirect hop as [net/http] builds it when the target is on another
    host: a [GET] without the sensitive headers. *)
Definition strippedHop (reqs : list Request) (loc : string) : Request :=
  {| Method := "GET"; URL := loc; ReqHeader := ∅ |}.

Definition processJSON (status : string) : string :=
  "{" +:+ quoted "id" +:+ ":" +:+ quoted "p1" +:+ ","
  +:+ quoted "status" +:+ ":" +:+ quoted status +:+ "}".

Definition processWith (status : string) : Process :=
  {| ID := "p1"; ActionName := EmptyString; Status := status;
     ServiceStackID := EmptyString; ProjectID := EmptyString;
     ClientID := EmptyString |}.

(** [json.Unmarshal] into a [Process], on the texts the scenarios use. *)
Definition scenarioUnmarshalProcess (text : string) : error + Process :=
  if String.eqb text (processJSON "PENDING") then inr (processWith "PENDING")
  else if String.eqb text (processJSON "RUNNING") then inr (processWith "RUNNING")
  else if String.eqb text (processJSON "SUCCESS") then inr (processWith "SUCCESS")
  else if String.eqb text (processJSON "FAILED") then inr (processWith "FAILED")
  else inl (errorString "invalid character 'u' looking for beginning of value").

(** [math.Pow] as far as the scenarios need it: they raise 2 to a small
    whole power, which is a double, and [math.Pow] returns it.  (For the
    other finite bases and whole exponents the definition gives the
    power rounded to the nearest double, and NaN elsewhere; the
    scenarios do not get there.) *)
Definition scenarioPow (x y : float64) : float64 :=
  match x, y with
  | Finite a, Finite b =>
      if (Z.pos (Qden (Qred b)) =? 1) && negb (Qeq_bool a 0)
      then round64 (Qpower a (Qnum (Qred b)))
      else NaN
  | _, _ => NaN
  end.

(** An environment around a network [rt]: requests are always well
    formed, no response body is an error envelope, the random source
    returns one half (no jitter), a tie goes to the context. *)
Definition scenario (rt : nat -> Request -> Reply * N) : Env :=
  {| roundTrip := rt;
     nextHop := strippedHop;
     newRequestError := fun _ _ => None;
     unmarshalErrorResponse := fun _ => None;
     unmarshalProcess := scenarioUnmarshalProcess;
     randFloat64 := fun _ => round64 (1 # 2);
     selectTie := fun _ => true;
     unrepresentable := fun _ => MinInt64;
     mathPow := scenarioPow |}.

Definition respond (status : Z) (text : string) : Reply * N :=
  (Responded {| StatusCode := status; Body := inl text |} None, 0%N).

(** A server that is unavailable for good. *)
Definition env503 : Env := scenario (fun _ _ => respond 503 "service unavailable").

(** A server that answers 404, with a text that mentions a 503. *)
Definition env404 : Env :=
  scenario (fun _ _ => respond 404 "upstream returned 503").

Definition clientWith (rc : option RetryConfig) : Client :=
  NewClient {| optBaseURL := "https://api.example"; optAPIKey := "secret";
               optTimeout := 0; optDebug := false; optRetryConfig := rc |}.

Definition policy (maxRetries : Z) : RetryConfig :=
  {| MaxRetries := maxRetries; BaseDelay := 100 * Millisecond;
     MaxDelay := 5 * Second; Multiplier := 2; JitterFactor := 1 # 10 |}.

(** A policy that asks for no retry, and for long delays. *)
Definition noRetryPolicy : RetryConfig :=
  {| MaxRetries := 0; BaseDelay := 1 * Second; MaxDelay := 2 * Second;
     Multiplier := 3; JitterFactor := 0 |}.

(** A context whose deadline is [t]. *)
Definition deadlineAt (t : Z) : Ctx :=
  {| doneAt := Some t; cause := DeadlineExceeded |}.

(** The request [doRequest] builds for [GET /x] on [clientWith _]. *)
Definition requestX : Request :=
  {| Method := "GET"; URL := "https://api.example/x";
     ReqHeader :=
       Header_Set (Header_Set ∅ "Authorization" "Bearer secret")
         "Content-Type" "application/json" |}.

(** ** Backoff: the quantities the bound is about *)

Definition validPolicy (config : RetryConfig) : Prop :=
  0 < BaseDelay config /\ BaseDelay config <= MaxDelay config /\
  (exists m : Q, Multiplier config = Finite m /\ (1 < m)%Q) /\
  (exists j : Q, JitterFactor config = Finite j /\ (0 <= j)%Q /\ (j <= 1)%Q).

(** A value [math.Pow] may return for a base above one: a double that is
    not negative, or [+Inf]. *)
Definition nonnegative (f : float64) : Prop :=
  match f with
  | Finite q => (0 <= q)%Q
  | PosInf => True
  | _ => False
  end.

(** The backoff before the jitter: the value of [backoff] after the
    first two statements of [calculateBackoff], the product
    [baseDelay * multiplier^attempt] as a double, capped at [maxDelay]. *)
Definition rawBackoff (pow : float64 -> float64 -> float64) (attempt : Z)
    (config : RetryConfig) : float64 :=
  let backoff :=
    fmul (floatOfInt (BaseDelay config))
         (pow (Multiplier config) (floatOfInt attempt)) in
  if fgt backoff (floatOfInt (MaxDelay config))
  then floatOfInt (MaxDelay config) else backoff.

(** The doubles: [k * 2^j] with [k] of at most 53 bits and [j] no less
    than the exponent of the smallest subnormal. *)
Definition representable (q : Q) : Prop :=
  exists k j : Z,
    (q == inject_Z k * pow2 j)%Q /\ Z.abs k < 2 ^ 53 /\ emin - 52 <= j.

(** A policy whose base delay is one nanosecond more than a millisecond,
    with a jitter factor of one half. *)
Definition oddPolicy : RetryConfig :=
  {| MaxRetries := 3; BaseDelay := Millisecond + 1; MaxDelay := 5 * Second;
     Multiplier := 2; JitterFactor := 1 # 2 |}.

(** ** Redirects *)

Definition hopURL (k : nat) : string :=
  "https://elsewhere.example/hop" +:+ itoa (Z.of_nat k).

(** A server whose first [n] answers are redirects (to another host),
    and which answers 200 from then on. *)
Definition redirecting (n : nat) : Env :=
  scenario (fun k _ =>
    if (k <? n)%nat
    then (Responded {| StatusCode := 302; Body := inl EmptyString |}
            (Some (hopURL (S k))), 0%N)
    else respond 200 "ok").

(** A server whose every answer is a redirect, to an address that holds
    the text 503. *)
Definition redirectingForever : Env :=
  scenario (fun _ _ =>
    (Responded {| StatusCode := 302; Body := inl EmptyString |}
       (Some "https://elsewhere.example/v/503/next"), 0%N)).

(** A request as it may stand in [via]: with a credential of its own. *)
Definition requestWith (url credential : string) : Request :=
  {| Method := "GET"; URL := url;
     ReqHeader := Header_Set ∅ "Authorization" credential |}.

(** The requests of a run, oldest first. *)
Fixpoint sentRequests (evs : list Event) : list Request :=
  match evs with
  | [] => []
  | EvSend req :: rest => sentRequests rest ++ [req]
  | _ :: rest => sentRequests rest
  end.

Definition tooManyRedirects : error := errorString "stopped after 10 redirects".

(** ** Processes *)

(** A process that is pending at the first two looks and has succeeded
    by the third. *)
Definition finishesLate : Env :=
  scenario (fun k _ =>
    match k with
    | 0%nat | 1%nat => respond 200 (processJSON "PENDING")
    | _ => respond 200 (processJSON "SUCCESS")
    end).


(** A pending process, and a server that is unavailable after the first
    look. *)
Definition turnsUnavailable : Env :=
  scenario (fun k _ =>
    match k with
    | 0%nat => respond 200 (processJSON "PENDING")
    | _ => respond 503 "service unavailable"
    end).

Definition processURL : string := "https://api.example/api/rest/public/process/p1".

(** The request [GetProcess] builds for the process [p1]. *)
Definition requestP1 : Request :=
  {| Method := "GET"; URL := processURL;
     ReqHeader :=
       Header_Set (Header_Set ∅ "Authorization" "Bearer secret")
         "Content-Type" "application/json" |}.

(** The calls of [GetProcess] in a run, oldest first, with the context
    each was made on. *)
Fixpoint fetches (evs : list Event) : list (Ctx * (error + Process)) :=
  match evs with
  | [] => []
  | EvGetProcess ctx _ res :: rest => fetches rest ++ [(ctx, res)]
  | _ :: rest => fetches rest
  end.

(** The number of events of a run that are of one kind. *)
Definition countEvents (kind : Event -> bool) (evs : list Event) : nat :=
  length (List.filter kind evs).

(** The poll waits that the context ended: the [select] of the loop
    took [ctx.Done()]. *)
Definition isDeadlineWait (ev : Event) : bool :=
  match ev with EvWait PollWait _ _ CtxDone => true | _ => false end.

(** The calls of [GetProcess] on a context that has no deadline. *)
Definition isFreeFetch (ev : Event) : bool :=
  match ev with
  | EvGetProcess cx _ _ =>
      match doneAt cx with None => true | Some _ => false end
  | _ => false
  end.

(** The delays of the poll waits of a run, oldest first. *)
Fixpoint pollDelays (evs : list Event) : list Z :=
  match evs with
  | [] => []
  | EvWait PollWait _ d _ :: rest => pollDelays rest ++ [d]
  | _ :: rest => pollDelays rest
  end.




(* ===================================================================== *)
(** * client.go: the other operations of the client

    The operations below are built from [doRequest] and
    [doRequestWithRetry] in the same way as [GetProcess]; they add
    nothing to the [World] of their own. *)

(** ** api package types (types.go), continued

    [ClientUser], [User], [Project], [ServiceDetails] (with the fields of
    the [Service] it embeds) and the two anonymous structs of
    [GetServiceLogs], each without the fields that neither the client nor
    the tools below read.  A field whose name another struct has already
    carries the name of its struct in front. *)

Record ClientUser : Type := {
  ClientUser_ID : string;
  ClientUser_ClientID : string
}.

Record User : Type := {
  User_ID : string;
  Email : string;
  ClientUserList : list ClientUser
}.

Record Project : Type := {
  Project_ID : string;
  Project_ClientID : string;
  Project_Name : string;
  Project_Status : string
}.

Record ServiceDetails : Type := {
  Service_ID : string;
  Service_ProjectID : string;
  Service_Name : string;
  Service_Status : string
}.

Record ImportRequest : Type := {
  Import_ProjectID : string;
  Import_ClientID : string;
  YAML : string
}.

(** [TagList] is a slice: [None] is [nil]. *)
Record CreateProjectRequest : Type := {
  Create_Name : string;
  RegionID : string;
  Create_ClientID : string;
  Description : string;
  TagList : option (list string)
}.

Record CreateProjectEnvRequest : Type := {
  Env_ProjectID : string;
  Key : string;
  Content : string;
  Sensitive : bool
}.

(** [tokenResp] of [GetServiceLogs]. *)
Record LogAccess : Type := {
  AccessToken : string;
  LogAccess_URL : string
}.

(** An item of [proxyLogResp]; the time stamp is an instant. *)
Record LogItem : Type := {
  Timestamp : Z;
  Hostname : string;
  Tag : string;
  LogMessage : string
}.

(** [encoding/json] and [time] for these types: [json.Unmarshal] into
    each of them, [json.Marshal] of the request bodies, and
    [Time.Format("2006-01-02 15:04:05")]. *)
Record Codec : Type := {
  unmarshalUser : string -> error + User;
  unmarshalProject : string -> error + Project;
  unmarshalServiceDetails : string -> error + ServiceDetails;
  unmarshalLogAccess : string -> error + LogAccess;
  unmarshalProxyLog : string -> error + list LogItem;
  marshalCreateProjectRequest : CreateProjectRequest -> Payload;
  marshalImportRequest : ImportRequest -> Payload;
  marshalCreateProjectEnvRequest : CreateProjectEnvRequest -> Payload;
  formatTimestamp : Z -> string
}.

(** The four lines that follow a call returning [(resp, err)] where a
    [T] is expected: the error as it is, or the payload unmarshalled, an
    error of [json.Unmarshal] wrapped with [prefix]. *)
Definition decodeWith {T : Type} (unmarshal : string -> error + T)
    (prefix : string) (result : option string * option error) : error + T :=
  match snd result with
  | Some err => inl err
  | None =>
      match unmarshal (default EmptyString (fst result)) with
      | inl err => inl (Errorf_w prefix err)
      | inr value => inr value
      end
  end.

(** [GetCurrentUser(ctx)]. *)
Definition GetCurrentUser (env : Env) (codec : Codec) (c : Client) (ctx : Ctx)
    : M (error + User) :=
  let* result :=
    doRequestWithRetry env c ctx "GET" "/api/rest/public/user/info" None in
  ret (decodeWith (unmarshalUser codec) "failed to unmarshal user response: " result).

(** [GetClientID(ctx)]. *)
Definition GetClientID (env : Env) (codec : Codec) (c : Client) (ctx : Ctx)
    : M (error + string) :=
  let* r := GetCurrentUser env codec c ctx in
  match r with
  | inl err => ret (inl (Errorf_w "failed to get user info: " err))
  | inr user =>
      match ClientUserList user with
      | [] => ret (inl (errorString "no client associations found for user"))
      | first :: _ => ret (inr (ClientUser_ClientID first))
      end
  end.

(** [CreateProject(ctx, req)]. *)
Definition CreateProject (env : Env) (codec : Codec) (c : Client) (ctx : Ctx)
    (req : CreateProjectRequest) : M (error + Project) :=
  let req :=
    match TagList req with
    | None =>
        {| Create_Name := Create_Name req; RegionID := RegionID req;
           Create_ClientID := Create_ClientID req; Description := Description req;
           TagList := Some [] |}
    | Some _ => req
    end in
  let* result :=
    doRequestWithRetry env c ctx "POST" "/api/rest/public/project"
      (Some (marshalCreateProjectRequest codec req)) in
  ret (decodeWith (unmarshalProject codec)
         "failed to unmarshal project response: " result).

(** [GetProject(ctx, projectID)]. *)
Definition GetProject (env : Env) (codec : Codec) (c : Client) (ctx : Ctx)
    (projectID : string) : M (error + Project) :=
  let* result :=
    doRequestWithRetry env c ctx "GET"
      ("/api/rest/public/project/" +:+ projectID) None in
  ret (decodeWith (unmarshalProject codec)
         "failed to unmarshal project response: " result).

(** [DeleteProject(ctx, projectID)]. *)
Definition DeleteProject (env : Env) (c : Client) (ctx : Ctx)
    (projectID : string) : M (error + Process) :=
  let* result :=
    doRequest env c ctx "DELETE" ("/api/rest/public/project/" +:+ projectID) None in
  ret (decodeWith (unmarshalProcess env)
         "failed to unmarshal process response: " result).

(** [ImportProjectServices(ctx, projectID, clientID, yamlData)].  (The
    debug log lines are left out.) *)
Definition ImportProjectServices (env : Env) (codec : Codec) (c : Client)
    (ctx : Ctx) (projectID clientID yamlData : string) : M (option error) :=
  let importReq :=
    {| Import_ProjectID := projectID; Import_ClientID := clientID;
       YAML := yamlData |} in
  let* (_, err) :=
    doRequest env c ctx "POST" "/api/rest/public/service-stack/import"
      (Some (marshalImportRequest codec importReq)) in
  ret err.

(** [ImportProject(ctx, req)]. *)
Definition ImportProject (env : Env) (codec : Codec) (c : Client) (ctx : Ctx)
    (req : ImportRequest) : M (option error) :=
  let clientID := Import_ClientID req in
  if String.eqb clientID EmptyString then
    let* r := GetClientID env codec c ctx in
    match r with
    | inl err => ret (Some (Errorf_w "failed to get client ID: " err))
    | inr clientID =>
        ImportProjectServices env codec c ctx (Import_ProjectID req) clientID
          (YAML req)
    end
  else
    ImportProjectServices env codec c ctx (Import_ProjectID req) clientID (YAML req).

(** [CreateProjectEnv(ctx, projectID, key, content, sensitive)]. *)
Definition CreateProjectEnv (env : Env) (codec : Codec) (c : Client) (ctx : Ctx)
    (projectID key content : string) (sensitive : bool) : M (error + Process) :=
  let req :=
    {| Env_ProjectID := projectID; Key := key; Content := content;
       Sensitive := sensitive |} in
  let* result :=
    doRequest env c ctx "POST" "/api/rest/public/project-env"
      (Some (marshalCreateProjectEnvRequest codec req)) in
  ret (decodeWith (unmarshalProcess env)
         "failed to unmarshal process response: " result).

(** [GetService(ctx, serviceID)]. *)
Definition GetService (env : Env) (codec : Codec) (c : Client) (ctx : Ctx)
    (serviceID : string) : M (error + ServiceDetails) :=
  let* result :=
    doRequestWithRetry env c ctx "GET"
      ("/api/rest/public/service-stack/" +:+ serviceID) None in
  ret (decodeWith (unmarshalServiceDetails codec)
         "failed to unmarshal service response: " result).

(** [StartService(ctx, serviceID)]. *)
Definition StartService (env : Env) (c : Client) (ctx : Ctx)
    (serviceID : string) : M (error + Process) :=
  let* result :=
    doRequest env c ctx "PUT"
      ("/api/rest/public/service-stack/" +:+ serviceID +:+ "/start") None in
  ret (decodeWith (unmarshalProcess env)
         "failed to unmarshal process response: " result).

(** [StopService(ctx, serviceID)]. *)
Definition StopService (env : Env) (c : Client) (ctx : Ctx)
    (serviceID : string) : M (error + Process) :=
  let* result :=
    doRequest env c ctx "PUT"
      ("/api/rest/public/service-stack/" +:+ serviceID +:+ "/stop") None in
  ret (decodeWith (unmarshalProcess env)
         "failed to unmarshal process response: " result).

(** [DeleteService(ctx, serviceID)]. *)
Definition DeleteService (env : Env) (c : Client) (ctx : Ctx)
    (serviceID : string) : M (option error) :=
  let* (_, err) :=
    doRequest env c ctx "DELETE"
      ("/api/rest/public/service-stack/" +:+ serviceID) None in
  ret err.

(** [EnableSubdomainAccess(ctx, serviceID)]. *)
Definition EnableSubdomainAccess (env : Env) (c : Client) (ctx : Ctx)
    (serviceID : string) : M (error + Process) :=
  let* result :=
    doRequest env c ctx "PUT"
      ("/api/rest/public/service-stack/" +:+ serviceID
       +:+ "/enable-subdomain-access") None in
  ret (decodeWith (unmarshalProcess env)
         "failed to unmarshal process response: " result).

(** [DisableSubdomainAccess(ctx, serviceID)]. *)
Definition DisableSubdomainAccess (env : Env) (c : Client) (ctx : Ctx)
    (serviceID : string) : M (error + Process) :=
  let* result :=
    doRequest env c ctx "PUT"
      ("/api/rest/public/service-stack/" +:+ serviceID
       +:+ "/disable-subdomain-access") None in
  ret (decodeWith (unmarshalProcess env)
         "failed to unmarshal process response: " result).

(** ** GetServiceLogs *)

(** The URL of the request to the log proxy. *)
Definition proxyURL (accessToken serviceID : string) (limit : Z) : string :=
  let proxyURL :=
    "https://proxy.app-prg1.zerops.io/api/rest/log?accessToken=" +:+ accessToken in
  let proxyURL := proxyURL +:+ "&serviceStackId=" +:+ serviceID in
  if 0 <? limit then proxyURL +:+ "&limit=" +:+ itoa limit else proxyURL.

(** [fmt.Sprintf("%s [%s] %s: %s", ...)] of an item. *)
Definition logLine (codec : Codec) (item : LogItem) : string :=
  formatTimestamp codec (Timestamp item) +:+ " [" +:+ Hostname item +:+ "] "
  +:+ Tag item +:+ ": " +:+ LogMessage item.

(** [GetServiceLogs(ctx, serviceID, container, limit, since)]: the lines
    (a slice that is not [nil]) or an error.  The request to the proxy is
    a fresh one, without headers, and goes through the same [http.Client]
    as the others.  (The debug log lines are left out.) *)
Definition GetServiceLogs (env : Env) (codec : Codec) (c : Client) (ctx : Ctx)
    (serviceID container : string) (limit : Z) (since : string)
    : M (option (list string) * option error) :=
  let* r := GetService env codec c ctx serviceID in
  match r with
  | inl err => ret (None, Some (Errorf_w "failed to get service info: " err))
  | inr service =>
      if String.eqb (Service_Status service) "READY_TO_DEPLOY"
         || String.eqb (Service_Status service) "NEW"
      then
        ret (None,
             Some (errorString
                     ("service '" +:+ Service_Name service
                      +:+ "' has not been deployed yet (status: "
                      +:+ Service_Status service +:+ ")")))
      else
        let path :=
          "/api/rest/public/project/" +:+ Service_ProjectID service +:+ "/log" in
        let* (resp, err) := doRequestWithRetry env c ctx "GET" path None in
        match err with
        | Some err => ret (None, Some (Errorf_w "failed to get log access: " err))
        | None =>
            match unmarshalLogAccess codec (default EmptyString resp) with
            | inl err =>
                ret (None, Some (Errorf_w "failed to parse log access response: " err))
            | inr tokenResp =>
                let proxyURL := proxyURL (AccessToken tokenResp) serviceID limit in
                match newRequestError env "GET" proxyURL with
                | Some err =>
                    ret (None, Some (Errorf_w "failed to create proxy request: " err))
                | None =>
                    let proxyReq :=
                      {| Method := "GET"; URL := proxyURL; ReqHeader := ∅ |} in
                    let* (proxyResp, err) := Do env proxyReq in
                    match err, proxyResp with
                    | Some err, _ =>
                        ret (None,
                             Some (Errorf_w "failed to fetch logs from proxy: " err))
                    | None, None => ret (None, None)
                    | None, Some proxyResp =>
                        match Body proxyResp with
                        | inr err =>
                            ret (None,
                                 Some (Errorf_w "failed to read proxy response: " err))
                        | inl proxyBody =>
                            if negb (StatusCode proxyResp =? 200) then
                              ret (None,
                                   Some (errorString
                                           ("proxy returned status "
                                            +:+ itoa (StatusCode proxyResp)
                                            +:+ ": " +:+ proxyBody)))
                            else
                              match unmarshalProxyLog codec proxyBody with
                              | inl err =>
                                  ret (None,
                                       Some (Errorf_w
                                               "failed to parse proxy log response: "
                                               err))
                              | inr items =>
                                  ret (Some (map (logLine codec) items), None)
                              end
                        end
                    end
                end
            end
        end
  end.

(* ===================================================================== *)
(** * utils/mask.go *)

Module utils.

Definition sensitiveFields : list string :=
  [ "password"; "secret"; "token"; "apiKey"; "api_key";
    "private_key"; "privateKey"; "access_token"; "accessToken";
    "refresh_token"; "refreshToken"; "auth"; "authorization" ].

(** [strings.Repeat(s, count)]. *)
Fixpoint Repeat (s : string) (count : nat) : string :=
  match count with
  | O => EmptyString
  | S count' => s +:+ Repeat s count'
  end.

(** [MaskAPIKey(apiKey)]; [len] counts bytes and the slices are slices
    of bytes. *)
Definition MaskAPIKey (apiKey : string) : string :=
  let n := String.length apiKey in
  if (n <=? 8)%nat then Repeat "*" n
  else String.substring 0 4 apiKey +:+ Repeat "*" (n - 8)
       +:+ String.substring (n - 4) 4 apiKey.

(** Whether every byte is below [utf8.RuneSelf]. *)
Fixpoint isASCII (s : string) : bool :=
  match s with
  | EmptyString => true
  | String ch rest => (nat_of_ascii ch <? 128)%nat && isASCII rest
  end.

(** [strings.ToLower(s)]: a text of ASCII bytes has its upper-case
    letters replaced one by one; any other text goes through the Unicode
    mapping, which is [unicodeLower] here. *)
Definition ToLower (unicodeLower : string -> string) (s : string) : string :=
  if isASCII s then lowerString s else unicodeLower s.

(** The loop of [IsSensitiveField], over the fields still to come. *)
Fixpoint anySensitive (unicodeLower : string -> string) (lowerField : string)
    (fields : list string) : bool :=
  match fields with
  | [] => false
  | sensitive :: rest =>
      if Contains lowerField (ToLower unicodeLower sensitive) then true
      else anySensitive unicodeLower lowerField rest
  end.

(** [IsSensitiveField(fieldName)]. *)
Definition IsSensitiveField (unicodeLower : string -> string) (fieldName : string)
    : bool :=
  let lowerField := ToLower unicodeLower fieldName in
  anySensitive unicodeLower lowerField sensitiveFields.

End utils.

(* ===================================================================== *)
(** * The tools package: common.go, validators.go, config.go

    What the tools make of the client's results.  A
    [*mcp.CallToolResult] is known by its text and by whether it is an
    error ([mcp.NewToolResultError]) or not ([mcp.NewToolResultText]). *)

Module tools.

Record CallToolResult : Type := {
  IsError : bool;
  Text : string
}.

Definition NewToolResultError (text : string) : CallToolResult :=
  {| IsError := true; Text := text |}.

Definition NewToolResultText (text : string) : CallToolResult :=
  {| IsError := false; Text := text |}.

(** The line feed of the format strings. *)
Definition LF : string := String (ascii_of_nat 10) EmptyString.

(** [ErrorResponse(code, message, resolution)]. *)
Definition ErrorResponse (code message resolution : string) : CallToolResult :=
  let errorText :=
    "Error: " +:+ code +:+ LF +:+ message +:+ LF +:+ LF
    +:+ "Resolution: " +:+ resolution in
  NewToolResultError errorText.

(** [ErrorResponseWithNext(code, message, resolution, nextTool)]. *)
Definition ErrorResponseWithNext (code message resolution nextTool : string)
    : CallToolResult :=
  let errorText :=
    "Error: " +:+ code +:+ LF +:+ message +:+ LF +:+ LF
    +:+ "Resolution: " +:+ resolution +:+ LF +:+ LF
    +:+ "Next step: Use '" +:+ nextTool +:+ "' tool" in
  NewToolResultError errorText.

(** [HandleAPIError(err)], for an [err] that is not [nil]. *)
Definition HandleAPIError (err : error) : CallToolResult :=
  let errStr := Error err in
  if Contains errStr "401" then
    ErrorResponse "AUTH_FAILED"
      "Authentication failed - invalid API key"
      "Set ZEROPS_API_KEY environment variable with a valid key"
  else if Contains errStr "403" then
    ErrorResponse "FORBIDDEN"
      "Access denied - insufficient permissions"
      "Check that your API key has the required permissions for this operation"
  else if Contains errStr "404" then
    if Contains errStr "logs endpoint not available" then
      ErrorResponseWithNext "LOGS_NOT_AVAILABLE"
        "Service logs are not available through the API"
        "The service may be restarting or logs may not be enabled. Check service status first"
        "service_info"
    else
      ErrorResponse "NOT_FOUND"
        "Resource not found"
        "Check the ID and try again, or use list tools to find valid resources"
  else if Contains errStr "409" then
    ErrorResponse "CONFLICT"
      "Resource already exists or conflict detected"
      "Use a different name or check existing resources with list tools"
  else if Contains errStr "422" then
    ErrorResponse "INVALID_INPUT"
      "Invalid input data"
      "Check your input parameters and ensure they meet the requirements"
  else if Contains errStr "400" then
    if Contains errStr "processNotFound" then
      ErrorResponse "PROCESS_NOT_FOUND"
        "Process not found or has expired"
        "The process may have completed and been removed from the system. Processes are only tracked for a limited time after completion"
    else if Contains errStr "projectImportInvalidParameter" then
      ErrorResponse "INVALID_YAML_STRUCTURE"
        "YAML must contain 'services:' section with proper structure"
        "Ensure your YAML has 'services:' section and uses 'hostname' (not 'name') for service names"
    else if Contains errStr "projectImportProjectIncluded" then
      ErrorResponse "PROJECT_CONFIG_NOT_ALLOWED"
        "Project configuration is not allowed in import YAML"
        "Remove the 'project:' section from your YAML - only 'services:' section is needed"
    else
      ErrorResponse "INVALID_REQUEST"
        ("Invalid request: " +:+ Error err)
        "Check your input parameters and try again"
  else if Contains errStr "500" || Contains errStr "502" || Contains errStr "503" then
    ErrorResponse "SERVER_ERROR"
      "Zerops API is experiencing issues"
      "Wait a moment and try again. If the problem persists, check Zerops status page"
  else if Contains errStr "connection refused" then
    ErrorResponse "CONNECTION_FAILED"
      "Failed to connect to Zerops API"
      "Check your internet connection and try again"
  else if Contains errStr "timeout" then
    ErrorResponse "TIMEOUT"
      "Request timed out"
      "The operation took too long. Try again or check if the service is responding"
  else
    ErrorResponse "API_ERROR"
      ("API request failed: " +:+ Error err)
      "Check your inputs and try again. If the problem persists, check API status".

(** [PreprocessYAML(yamlContent)]. *)
Definition PreprocessYAML (yamlContent : string) : string :=
  if Contains yamlContent "#yamlPreprocessor=on" then yamlContent
  else "#yamlPreprocessor=on" +:+ LF +:+ yamlContent.

(** ** validators.go *)

(** [s[i]], for an index in range. *)
Definition byteAt (s : string) (i : nat) : ascii :=
  match String.get i s with
  | Some ch => ch
  | None => Ascii.zero
  end.

(** The loop of [containsAt], with [i] the index reached and [todo] the
    number of rounds to go. *)
Fixpoint containsAtFrom (s substr : string) (start i todo : nat) : bool :=
  match todo with
  | O => true
  | S todo' =>
      if negb (Ascii.eqb (byteAt s (start + i)) (byteAt substr i)) then false
      else containsAtFrom s substr start (S i) todo'
  end.

(** [containsAt(s, substr, start)], for a [start] that is not negative. *)
Definition containsAt (s substr : string) (start : nat) : bool :=
  if (String.length s <? start + String.length substr)%nat then false
  else containsAtFrom s substr start 0 (String.length substr).

(** [contains(s, substr)]. *)
Definition contains (s substr : string) : bool :=
  (String.length substr <=? String.length s)%nat
  && (0 <? String.length substr)%nat
  && (String.eqb s substr
      || ((String.length substr <? String.length s)%nat && containsAt s substr 0)).

(** [isNotFoundError(err)]. *)
Definition isNotFoundError (err : option error) : bool :=
  match err with
  | None => false
  | Some e =>
      let errStr := Error e in
      contains errStr "404" || contains errStr "not found"
  end.

(** [GetClientID(ctx, client)]: the client ID, or the result to hand to
    the caller of the tool. *)
Definition GetClientID (env : Env) (codec : Codec) (client : Client) (ctx : Ctx)
    : M (string * option CallToolResult) :=
  let* r := GetCurrentUser env codec client ctx in
  match r with
  | inl err => ret (EmptyString, Some (HandleAPIError err))
  | inr user =>
      match ClientUserList user with
      | [] =>
          ret (EmptyString,
               Some (ErrorResponse "NO_CLIENT"
                       "No client associations found for user"
                       "Contact Zerops support to resolve account issues"))
      | first :: _ => ret (ClientUser_ClientID first, None)
      end
  end.

(** [ValidateProjectAccess(ctx, client, projectID)]. *)
Definition ValidateProjectAccess (env : Env) (codec : Codec) (client : Client)
    (ctx : Ctx) (projectID : string)
    : M (option Project * option CallToolResult) :=
  let* r := GetProject env codec client ctx projectID in
  match r with
  | inl err =>
      if isNotFoundError (Some err) then
        ret (None,
             Some (ErrorResponse "PROJECT_NOT_FOUND"
                     ("Project '" +:+ projectID +:+ "' not found")
                     "Check the project ID or use 'project_list' to see available projects"))
      else ret (None, Some (HandleAPIError err))
  | inr project => ret (Some project, None)
  end.

(** [ValidateServiceAccess(ctx, client, projectID, serviceID)]. *)
Definition ValidateServiceAccess (env : Env) (codec : Codec) (client : Client)
    (ctx : Ctx) (projectID serviceID : string)
    : M (option ServiceDetails * option CallToolResult) :=
  let* r := GetService env codec client ctx serviceID in
  match r with
  | inl err =>
      if isNotFoundError (Some err) then
        ret (None,
             Some (ErrorResponse "SERVICE_NOT_FOUND"
                     ("Service '" +:+ serviceID +:+ "' not found in project")
                     "Check the service ID or use 'service_list' to see available services"))
      else ret (None, Some (HandleAPIError err))
  | inr service => ret (Some service, None)
  end.

(** [(ch >= 'a' && ch <= 'z') || (ch >= '0' && ch <= '9')]. *)
Definition isLowerOrDigit (ch : ascii) : bool :=
  let n := nat_of_ascii ch in
  ((97 <=? n) && (n <=? 122))%nat || ((48 <=? n) && (n <=? 57))%nat.

(** The loop over the characters of [ValidateServiceName].  The loop of
    the code decodes runes; a byte of a rune that is not ASCII is above
    both intervals, as is the rune, so the bytes give the same verdict. *)
Fixpoint checkCharacters (name : string) : option CallToolResult :=
  match name with
  | EmptyString => None
  | String ch rest =>
      if negb (isLowerOrDigit ch) then
        Some (ErrorResponse "INVALID_SERVICE_NAME"
                "Service name can only contain lowercase letters and numbers"
                "Use only lowercase letters (a-z) and numbers (0-9) in the service name")
      else checkCharacters rest
  end.

(** [ValidateServiceName(name)]; [None] is the [nil] of a valid name. *)
Definition ValidateServiceName (name : string) : option CallToolResult :=
  if (String.length name <? 3)%nat || (30 <? String.length name)%nat then
    Some (ErrorResponse "INVALID_SERVICE_NAME"
            "Service name must be 3-30 characters"
            "Use a name between 3 and 30 characters")
  else checkCharacters name.

(** ** config.go *)

(** The loop of [isValidServiceName]. *)
Fixpoint onlyLowerOrDigit (name : string) : bool :=
  match name with
  | EmptyString => true
  | String char rest =>
      if negb (isLowerOrDigit char) then false else onlyLowerOrDigit rest
  end.

(** [isValidServiceName(name)]. *)
Definition isValidServiceName (name : string) : bool :=
  match name with
  | EmptyString => false
  | String first _ =>
      if ((48 <=? nat_of_ascii first) && (nat_of_ascii first <=? 57))%nat
      then false
      else onlyLowerOrDigit name
  end.

End tools.

(* ===================================================================== *)
(** * Vocabulary and scenarios of the further properties *)

(** The delays of the backoff waits of a run, oldest first. *)
Fixpoint backoffDelays (evs : list Event) : list Z :=
  match evs with
  | [] => []
  | EvWait BackoffWait _ d _ :: rest => backoffDelays rest ++ [d]
  | _ :: rest => backoffDelays rest
  end.

(** The delays [calculateBackoff] gives for the [k] attempts from
    [from] on, with the values of [rand.Float64()] from the
    [firstDraw]-th on. *)
Definition plannedBackoffs (env : Env) (config : RetryConfig)
    (firstDraw : nat) (from : Z) (k : nat) : list Z :=
  map (fun i =>
         calculateBackoff (mathPow env) (unrepresentable env)
           (randFloat64 env (firstDraw + i)) (from + Z.of_nat i) config)
      (seq 0 k).

(** A server that answers 404 to everything. *)
Definition envNotFound : Env := scenario (fun _ _ => respond 404 "unknown resource").

(** The results [WaitForProcess] can return for the process [processID]
    when [ctx] is the context it polls on: the process with no error, in
    a status of success; the process with the error of a status of
    failure, or with the error of a timeout; no process, with the
    wrapped error of a failed look or of a timeout.  Never nothing. *)
Definition waitOutcome (processID : string) (ctx : Ctx)
    (r : option Process * option error) : Prop :=
  match r with
  | (Some process, None) =>
      Status process = "SUCCESS" \/ Status process = "FINISHED"
  | (Some process, Some err) =>
      ((Status process = "FAILED" \/ Status process = "ERROR"
        \/ Status process = "CANCELLED") /\
       err = errorString ("process " +:+ processID +:+ " failed with status: "
                          +:+ Status process))
      \/ err = errorString ("timeout waiting for process " +:+ processID
                            +:+ " (last status: " +:+ Status process +:+ ")")
  | (None, Some err) =>
      (exists inner, err = Errorf_w "failed to get process status: " inner)
      \/ err = Errorf_w ("timeout waiting for process " +:+ processID +:+ ": ")
                 (cause ctx)
  | (None, None) => False
  end.

(** The operations of the client that change something on the platform,
    each with its arguments. *)
Inductive Mutation : Type :=
| DeleteProjectOf (projectID : string)
| ImportServicesInto (projectID clientID yamlData : string)
| CreateEnvIn (projectID key content : string) (sensitive : bool)
| StartServiceOf (serviceID : string)
| StopServiceOf (serviceID : string)
| DeleteServiceOf (serviceID : string)
| EnableSubdomainOf (serviceID : string)
| DisableSubdomainOf (serviceID : string).

Definition errorOf {T : Type} (r : error + T) : option error :=
  match r with
  | inl err => Some err
  | inr _ => None
  end.

(** The call of the operation, and the error it returns. *)
Definition perform (env : Env) (codec : Codec) (c : Client) (ctx : Ctx)
    (m : Mutation) : M (option error) :=
  match m with
  | DeleteProjectOf projectID =>
      let* r := DeleteProject env c ctx projectID in ret (errorOf r)
  | ImportServicesInto projectID clientID yamlData =>
      ImportProjectServices env codec c ctx projectID clientID yamlData
  | CreateEnvIn projectID key content sensitive =>
      let* r := CreateProjectEnv env codec c ctx projectID key content sensitive in
      ret (errorOf r)
  | StartServiceOf serviceID =>
      let* r := StartService env c ctx serviceID in ret (errorOf r)
  | StopServiceOf serviceID =>
      let* r := StopService env c ctx serviceID in ret (errorOf r)
  | DeleteServiceOf serviceID => DeleteService env c ctx serviceID
  | EnableSubdomainOf serviceID =>
      let* r := EnableSubdomainAccess env c ctx serviceID in ret (errorOf r)
  | DisableSubdomainOf serviceID =>
      let* r := DisableSubdomainAccess env c ctx serviceID in ret (errorOf r)
  end.

(** [req] as [CreateProject] sends it: with a tag list that is not
    [nil]. *)
Definition withTagList (req : CreateProjectRequest) : CreateProjectRequest :=
  {| Create_Name := Create_Name req; RegionID := RegionID req;
     Create_ClientID := Create_ClientID req; Description := Description req;
     TagList := Some (default [] (TagList req)) |}.

Definition demoProject : CreateProjectRequest :=
  {| Create_Name := "demo"; RegionID := "prg1"; Create_ClientID := "client1";
     Description := EmptyString; TagList := None |}.

(** A run whose newest event is not a request on the wire. *)
Definition endsWithReturn (evs : list Event) : Prop :=
  match evs with
  | EvSend _ :: _ => False
  | _ => True
  end.

(** A request that carries no credential. *)
Definition anonymous (req : Request) : Prop :=
  Header_Get (ReqHeader req) "Authorization" = EmptyString.

(** [encoding/json] on the texts the scenarios use, with a user of one
    client. *)
Definition scenarioCodec : Codec :=
  {| unmarshalUser := fun _ =>
       inr {| User_ID := "u1"; Email := "dev@example.com";
              ClientUserList :=
                [ {| ClientUser_ID := "cu1"; ClientUser_ClientID := "client1" |} ] |};
     unmarshalProject := fun _ =>
       inr {| Project_ID := "proj1"; Project_ClientID := "client1";
              Project_Name := "demo"; Project_Status := "ACTIVE" |};
     unmarshalServiceDetails := fun _ =>
       inr {| Service_ID := "svc1"; Service_ProjectID := "proj1";
              Service_Name := "app"; Service_Status := "ACTIVE" |};
     unmarshalLogAccess := fun _ =>
       inr {| AccessToken := "tok"; LogAccess_URL := "proxy.example" |};
     unmarshalProxyLog := fun _ =>
       inr [ {| Timestamp := 0; Hostname := "app"; Tag := "web";
                LogMessage := "started" |} ];
     marshalCreateProjectRequest := fun _ => Marshals "{}";
     marshalImportRequest := fun _ => Marshals "{}";
     marshalCreateProjectEnvRequest := fun _ => Marshals "{}";
     formatTimestamp := fun _ => "2024-01-01 00:00:00" |}.

(** A server that answers 200 to everything. *)
Definition envOK : Env := scenario (fun _ _ => respond 200 "{}").

(** An import that does not name its client. *)
Definition demoImport : ImportRequest :=
  {| Import_ProjectID := "proj1"; Import_ClientID := EmptyString;
     YAML := "services: []" |}.

(** A server that answers 401 to everything. *)
Definition envUnauthorized : Env := scenario (fun _ _ => respond 401 "unauthorized").

(** A server that answers every request with [status] and some text,
    never a redirect. *)
Definition alwaysAnswers (env : Env) (status : Z) : Prop :=
  forall (k : nat) (req : Request), exists (text : string) (took : N),
    roundTrip env k req
    = (Responded {| StatusCode := status; Body := inl text |} None, took).

(** The texts [HandleAPIError] looks for before it looks for
    ["timeout"], in the order of its [switch]. *)
Definition earlierPatterns : list string :=
  [ "401"; "403"; "404"; "409"; "422"; "400"; "500"; "502"; "503";
    "connection refused" ].

(** Whether the first byte is a digit. *)
Definition startsWithDigit (name : string) : bool :=
  match name with
  | EmptyString => false
  | String first _ => ((48 <=? nat_of_ascii first) && (nat_of_ascii first <=? 57))%nat
  end.

(** The texts, in lower case, that make a field sensitive: those of
    [sensitiveFields] that contain no other one. *)
Definition sensitiveWords : list string :=
  [ "password"; "secret"; "token"; "apikey"; "api_key";
    "private_key"; "privatekey"; "auth" ].

(** A result that is a payload or an error, and not both. *)
Definition payloadOrError (r : option string * option error) : Prop :=
  match r with
  | (Some _, None) | (None, Some _) => True
  | _ => False
  end.

(* ===================================================================== *)
(** * Texts and the classifier *)

Lemma prefix_empty (s : string) : String.prefix EmptyString s = true.
Proof. destruct s; reflexivity. Qed.

Lemma prefix_app_l (p a b : string) :
  String.prefix p a = true -> String.prefix p (a +:+ b) = true.
Proof.
  revert a. induction p as [|c p IH]; intros a H; [apply prefix_empty|].
  destruct a as [|c' a]; simpl in *; [discriminate|].
  destruct (ascii_dec c c'); [auto | discriminate].
Qed.

Lemma Contains_app_l (a b p : string) :
  Contains a p = true -> Contains (a +:+ b) p = true.
Proof.
  induction a as [|c a IH]; simpl; intros H.
  - rewrite orb_false_r in H. destruct p; [|discriminate].
    destruct b; reflexivity.
  - apply orb_true_iff in H as [H|H].
    + apply (prefix_app_l _ (String c a) b) in H. simpl in H. rewrite H. reflexivity.
    + rewrite (IH H). apply orb_true_r.
Qed.

Lemma Contains_app_r (a b p : string) :
  Contains b p = true -> Contains (a +:+ b) p = true.
Proof.
  induction a as [|c a IH]; simpl; intros H; [exact H|].
  rewrite (IH H). apply orb_true_r.
Qed.

Lemma containsAny_In (s : string) (patterns : list string) (p : string) :
  In p patterns -> Contains s p = true -> containsAny s patterns = true.
Proof.
  induction patterns as [|q rest IH]; simpl; [tauto|].
  intros [->|Hin] Hc; [rewrite Hc; reflexivity|].
  destruct (Contains s q); [reflexivity | auto].
Qed.

Lemma containsAny_true (s : string) (patterns : list string) :
  containsAny s patterns = true -> exists p, In p patterns /\ Contains s p = true.
Proof.
  induction patterns as [|q rest IH]; simpl; [discriminate|].
  destruct (Contains s q) eqn:E; [eauto|].
  intros H. destruct (IH H) as (p & ? & ?). eauto.
Qed.

(** The classifier looks at nothing but the text of the error. *)
Lemma isRetryableError_text (e : error) :
  isRetryableError (Some e) =
  containsAny (Error e) networkErrors || containsAny (Error e) retryableStatuses.
Proof.
  unfold isRetryableError.
  destruct (containsAny (Error e) networkErrors); [reflexivity|].
  destruct (containsAny (Error e) retryableStatuses); reflexivity.
Qed.

Lemma isRetryableError_contains (e : error) (p : string) :
  In p (networkErrors ++ retryableStatuses) ->
  Contains (Error e) p = true -> isRetryableError (Some e) = true.
Proof.
  intros Hin Hc. rewrite isRetryableError_text. apply orb_true_iff.
  apply in_app_or in Hin as [Hin|Hin]; [left|right]; eauto using containsAny_In.
Qed.

(* ===================================================================== *)
(** * The HTTP client *)

(** The defining equation of [clientDo]. *)
Lemma clientDo_eq (env : Env) (reqs : list Request) (req : Request) (w : World) :
  clientDo env reqs req w =
  let (reply, w1) := send env req w in
  match reply with
  | TransportError e =>
      ((None, Some (urlError (urlErrorOp (firstMethod (reqs ++ [req]))) (URL req) e)), w1)
  | Responded resp None => ((Some resp, None), w1)
  | Responded resp (Some loc) =>
      match CheckRedirect (nextHop env (reqs ++ [req]) loc) (reqs ++ [req]) with
      | (next, Some e) =>
          ((Some resp,
            Some (urlError (urlErrorOp (firstMethod (reqs ++ [req]))) loc e)), w1)
      | (next, None) => clientDo env (reqs ++ [req]) next w1
      end
  end.
Proof.
  simp clientDo. destruct (send env req w) as [[e|resp [loc|]] w1]; simpl; try reflexivity.
  generalize (CheckRedirect (nextHop env (reqs ++ [req]) loc) (reqs ++ [req])).
  intros [next [e|]]; reflexivity.
Qed.

Lemma Header_Get_Set (h : Header) (key value : string) :
  Header_Get (Header_Set h key value) key = value.
Proof.
  unfold Header_Get, Header_Set, Header in *. rewrite lookup_insert_eq. reflexivity.
Qed.

Lemma Header_Get_Set_ne (h : Header) (key key' value : string) :
  key <> key' -> Header_Get (Header_Set h key value) key' = Header_Get h key'.
Proof.
  intros. unfold Header_Get, Header_Set, Header in *. rewrite lookup_insert_ne; auto.
Qed.

(** What the hook does to a request, in terms of what was there before. *)
Lemma CheckRedirect_header (req : Request) (via : list Request) (first : Request) :
  head via = Some first ->
  Header_Get (ReqHeader (fst (CheckRedirect req via))) "Authorization"
  = Header_Get (ReqHeader first) "Authorization".
Proof.
  destruct via as [|f via]; simpl; [discriminate|]. intros [= ->].
  unfold CheckRedirect. destruct (10 <=? _)%nat; simpl; apply Header_Get_Set.
Qed.

Lemma CheckRedirect_verdict (req : Request) (via : list Request) :
  snd (CheckRedirect req via) =
  if (10 <=? length via)%nat then Some (errorString "stopped after 10 redirects")
  else None.
Proof. unfold CheckRedirect. destruct (10 <=? _)%nat; reflexivity. Qed.

Lemma send_spec (env : Env) (req : Request) (w : World) (reply : Reply) (w' : World) :
  send env req w = (reply, w') ->
  reply = fst (roundTrip env (trips w) req) /\
  trace w' = EvSend req :: trace w /\ trips w' = S (trips w) /\
  attempts w' = attempts w /\ draws w' = draws w /\ selects w' = selects w /\
  now w <= now w'.
Proof.
  unfold send. destruct (roundTrip env (trips w) req) as [rp took].
  intros [= <- <-]. simpl. repeat apply conj; auto; lia.
Qed.

(** One call of [Do] from a chain [reqs] of earlier requests: the requests
    it puts on the wire are [req] and then [hops]. *)
Lemma clientDo_spec (env : Env) (n : nat) :
  forall (reqs : list Request) (req : Request) (w : World) r w',
  (10 - length reqs <= n)%nat ->
  clientDo env reqs req w = (r, w') ->
  exists hops : list Request,
    trace w' = map EvSend (rev (req :: hops)) ++ trace w /\
    trips w' = (trips w + S (length hops))%nat /\
    attempts w' = attempts w /\ draws w' = draws w /\ selects w' = selects w /\
    now w <= now w' /\
    (length reqs < 10 -> length reqs + S (length hops) <= 10)%nat /\
    (forall first, head (reqs ++ [req]) = Some first ->
       Forall (fun hop => Header_Get (ReqHeader hop) "Authorization"
                          = Header_Get (ReqHeader first) "Authorization") hops).
Proof.
  induction n as [n IH] using lt_wf_ind.
  intros reqs req w r w' Hn. rewrite clientDo_eq.
  destruct (send env req w) as [reply w1] eqn:Hs.
  apply send_spec in Hs as (_ & Ht & Hp & Ha & Hd & Hsel & Hnow).
  assert (Hbase : forall (x r : option Response * option error) (w' : World),
    (x, w1) = (r, w') ->
    exists hops : list Request,
    trace w' = map EvSend (rev (req :: hops)) ++ trace w /\
    trips w' = (trips w + S (length hops))%nat /\
    attempts w' = attempts w /\ draws w' = draws w /\ selects w' = selects w /\
    now w <= now w' /\
    (length reqs < 10 -> length reqs + S (length hops) <= 10)%nat /\
    (forall first, head (reqs ++ [req]) = Some first ->
       Forall (fun hop => Header_Get (ReqHeader hop) "Authorization"
                          = Header_Get (ReqHeader first) "Authorization") hops)).
  { intros ? ? ? [= _ <-]. exists []. simpl. repeat apply conj; auto; lia. }
  destruct reply as [e|resp [loc|]]; [apply Hbase | | apply Hbase].
  destruct (CheckRedirect (nextHop env (reqs ++ [req]) loc) (reqs ++ [req]))
    as [next [e|]] eqn:Hc; [apply Hbase|].
  intros Hrec.
  pose proof (CheckRedirect_verdict (nextHop env (reqs ++ [req]) loc) (reqs ++ [req])) as Hv.
  rewrite Hc in Hv. cbn [snd] in Hv.
  destruct (10 <=? length (reqs ++ [req]))%nat eqn:Hlt; [discriminate|].
  apply Nat.leb_gt in Hlt. rewrite length_app in Hlt. simpl in Hlt.
  apply (IH (10 - length (reqs ++ [req]))%nat) in Hrec;
    [| rewrite length_app; simpl; lia | lia].
  destruct Hrec as (hops & Ht' & Hp' & Ha' & Hd' & Hsel' & Hnow' & Hlen & Hhdr).
  exists (next :: hops). rewrite length_app in Hlen. simpl in Hlen.
  repeat apply conj; try lia; try congruence.
  - rewrite Ht', Ht. simpl. rewrite !map_app, <- !app_assoc. simpl. reflexivity.
  - simpl. lia.
  - simpl. lia.
  - intros first Hfirst. constructor.
    + pose proof (CheckRedirect_header (nextHop env (reqs ++ [req]) loc) _ _ Hfirst) as Hh.
      rewrite Hc in Hh. exact Hh.
    + apply Hhdr. destruct reqs; simpl in *; exact Hfirst.
Qed.

(* ===================================================================== *)
(** * One attempt *)

Lemma bind_inv {A B : Type} (m : M A) (k : A -> M B) (w : World) r w' :
  bind m k w = (r, w') -> exists a w1, m w = (a, w1) /\ k a w1 = (r, w').
Proof. unfold bind. destruct (m w) as [a w1]. eauto. Qed.

Lemma attempted_spec (x : option string * option error) (w : World) r w' :
  attempted x w = (r, w') ->
  r = x /\ trace w' = EvAttempt x :: trace w /\ trips w' = trips w /\
  attempts w' = S (attempts w) /\ draws w' = draws w /\
  selects w' = selects w /\ now w' = now w.
Proof. unfold attempted. intros [= <- <-]. simpl. repeat apply conj; reflexivity. Qed.

(** What a call of [doRequest] leaves behind: the requests it sent (at
    most ten), then the record of its return; an error is always returned
    without a payload. *)
Lemma doRequest_spec (env : Env) (c : Client) (ctx : Ctx)
    (method path : string) (body : option Payload) (w : World) r w' :
  doRequest env c ctx method path body w = (r, w') ->
  exists sends : list Event,
    trace w' = EvAttempt r :: sends ++ trace w /\
    Forall (fun ev => isSend ev = true) sends /\
    (length sends <= 10)%nat /\
    trips w' = (trips w + length sends)%nat /\
    attempts w' = S (attempts w) /\ draws w' = draws w /\
    selects w' = selects w /\ now w <= now w' /\
    (snd r <> None -> fst r = None).
Proof.
  unfold doRequest. intros H. apply bind_inv in H as (x & w1 & Hin & Hatt).
  apply attempted_spec in Hatt as (-> & Ht & Hp & Ha & Hd & Hs & Hn).
  assert (Hin' : exists sends : list Event,
    trace w1 = sends ++ trace w /\
    Forall (fun ev => isSend ev = true) sends /\
    (length sends <= 10)%nat /\
    trips w1 = (trips w + length sends)%nat /\
    attempts w1 = attempts w /\ draws w1 = draws w /\
    selects w1 = selects w /\ now w <= now w1 /\
    (snd x <> None -> fst x = None)).
  { assert (Hnil : forall e : error, (None, Some e, w) = (x, w1) ->
      exists sends : list Event,
      trace w1 = sends ++ trace w /\
      Forall (fun ev => isSend ev = true) sends /\
      (length sends <= 10)%nat /\
      trips w1 = (trips w + length sends)%nat /\
      attempts w1 = attempts w /\ draws w1 = draws w /\
      selects w1 = selects w /\ now w <= now w1 /\
      (snd x <> None -> fst x = None)).
    { intros e [= <- <-]. exists []. simpl. repeat apply conj; auto; lia. }
    unfold ret, Do, bind in Hin.
    destruct body as [[json|e]|]; try (eapply Hnil; exact Hin);
      (destruct (newRequestError env method (baseURL c +:+ path));
       [eapply Hnil; exact Hin|]).
    all: match type of Hin with
         | context [clientDo ?en [] ?req ?ww] =>
             destruct (clientDo en [] req ww) as [[resp err] w2] eqn:Hc;
             apply (clientDo_spec env 10) in Hc; [|simpl; lia];
             destruct Hc as (hops & Ht2 & Hp2 & Ha2 & Hd2 & Hs2 & Hn2 & Hlen & _);
             simpl in Hlen; specialize (Hlen ltac:(lia));
             exists (map EvSend (rev (req :: hops)))
         end.
    all: rewrite length_map, length_rev; simpl length.
    all: assert (Hw : w1 = w2 /\ (snd x <> None -> fst x = None));
      [ repeat match type of Hin with
               | context [match ?t with _ => _ end] => destruct t
               end;
        inversion Hin; subst; simpl; split; auto; congruence
      | destruct Hw as [-> Hx] ].
    all: repeat apply conj; try lia; try congruence; try exact Hx; try exact Ht2.
    all: apply Forall_forall; intros ev Hev; apply list_elem_of_In in Hev;
      apply in_map_iff in Hev as (? & <- & _); reflexivity. }
  destruct Hin' as (sends & Ht1 & Hf & Hl & Hp1 & Ha1 & Hd1 & Hs1 & Hn1 & Hx).
  exists sends. repeat apply conj; try lia; try congruence; assumption.
Qed.

(* ===================================================================== *)
(** * Waiting *)

Lemma select_spec (env : Env) (site : Site) (ctx : Ctx) (d : Z) (w : World) woke w' :
  selectDoneOrAfter env site ctx d w = (woke, w') ->
  trace w' = EvWait site (now w) d woke :: trace w /\
  trips w' = trips w /\ attempts w' = attempts w /\ draws w' = draws w /\
  selects w' = S (selects w) /\ now w <= now w' /\
  (woke = CtxDone ->
     exists t, doneAt ctx = Some t /\ now w' = Z.max (now w) t /\
               now w' <= now w + Z.max 0 d) /\
  (woke = TimerFired ->
     now w' = now w + Z.max 0 d /\
     forall t, doneAt ctx = Some t -> now w + Z.max 0 d <= Z.max (now w) t).
Proof.
  unfold selectDoneOrAfter. destruct (wakeUp env ctx d w) as [wk at_] eqn:Hw.
  intros [= <- <-]. simpl.
  unfold wakeUp in Hw.
  destruct (doneAt ctx) as [t|].
  - destruct (Z.ltb_spec (Z.max (now w) t) (now w + Z.max 0 d)).
    { injection Hw as <- <-. repeat apply conj; auto; try lia.
      - intros _. exists t. repeat apply conj; auto; lia.
      - discriminate. }
    destruct (Z.ltb_spec (now w + Z.max 0 d) (Z.max (now w) t)).
    { injection Hw as <- <-. repeat apply conj; auto; try lia.
      - discriminate.
      - intros _. split; [reflexivity|]. intros t' [= <-]. lia. }
    destruct (selectTie env (selects w)); injection Hw as <- <-.
    + repeat apply conj; auto; try lia.
      * intros _. exists t. repeat apply conj; auto; lia.
      * discriminate.
    + repeat apply conj; auto; try lia.
      * discriminate.
      * intros _. split; [reflexivity|]. intros t' [= <-]. lia.
  - injection Hw as <- <-. repeat apply conj; auto; try lia.
    + discriminate.
    + intros _. split; [reflexivity|]. discriminate.
Qed.

(** A context that is done before the timer is ready interrupts the wait. *)
Lemma select_interrupted (env : Env) (site : Site) (ctx : Ctx) (d : Z) (w : World)
    woke w' (t : Z) :
  selectDoneOrAfter env site ctx d w = (woke, w') ->
  doneAt ctx = Some t -> Z.max (now w) t < now w + Z.max 0 d -> woke = CtxDone.
Proof.
  intros H Ht Hlt. apply select_spec in H as (_ & _ & _ & _ & _ & _ & _ & Htimer).
  destruct woke; [|reflexivity].
  destruct (Htimer eq_refl) as [_ Hge]. specialize (Hge t Ht). lia.
Qed.

Lemma ctx_Err_done (ctx : Ctx) (t now_ : Z) :
  doneAt ctx = Some t -> t <= now_ -> ctx_Err ctx now_ = Some (cause ctx).
Proof.
  intros Ht Hle. unfold ctx_Err. rewrite Ht.
  destruct (Z.leb_spec t now_); [reflexivity | lia].
Qed.

Lemma Float64_spec (env : Env) (w : World) x w' :
  Float64 env w = (x, w') ->
  trace w' = trace w /\ trips w' = trips w /\ attempts w' = attempts w /\
  draws w' = S (draws w) /\ selects w' = selects w /\ now w' = now w.
Proof. unfold Float64. intros [= <- <-]. simpl. repeat apply conj; reflexivity. Qed.

(* ===================================================================== *)
(** * The retry loop *)

Section RetryLoop.
Variables (env : Env) (c : Client) (ctx : Ctx) (method path : string)
          (body : option Payload) (config : RetryConfig).

(** How a run of the loop over the attempts [a, a+1, ..., MaxRetries]
    ends, read off the events [evs] it adds (newest first):
    - nothing happened: there was no attempt to make;
    - the last event is the return of [doRequest] with [x]: then [x] is
      what the loop returns, and [x] is a success, or its error is not
      retryable, or all attempts have been used;
    - the last event is an interrupted wait: then the loop returns the
      error of the context, at the instant the context was done. *)
Lemma retryLoop_spec (n : nat) :
  forall (a : Z) (lastErr : option error) (w : World) r w',
  (n <> 0%nat -> a + Z.of_nat n = MaxRetries config + 1) ->
  retryLoop env c ctx method path body config (countFrom a n) lastErr w = (r, w') ->
  exists evs : list Event,
    trace w' = evs ++ trace w /\
    Forall (fun ev => executorEvent ev = true) evs /\
    Forall (fun ev => interrupted ev = false) (tail evs) /\
    (forall site start d woke t,
       In (EvWait site start d woke) evs -> doneAt ctx = Some t ->
       Z.max start t < start + Z.max 0 d -> woke = CtxDone) /\
    now w <= now w' /\ (attempts w <= attempts w' <= attempts w + n)%nat /\
    match evs with
    | [] => n = 0%nat /\ r = (None, lastErr)
    | EvAttempt x :: _ =>
        r = x /\
        (exists w1, doRequest env c ctx method path body w1 = (x, w')) /\
        (snd x = None \/ isRetryableError (snd x) = false
         \/ attempts w' = (attempts w + n)%nat)
    | EvWait _ start d CtxDone :: _ =>
        r = (None, Some (cause ctx)) /\
        exists t, doneAt ctx = Some t /\ now w' = Z.max start t /\
                  now w' <= start + Z.max 0 d
    | _ => False
    end.
Proof.
  induction n as [|n' IH]; intros a lastErr w r w' Ha.
  { simpl. intros [= <- <-]. exists []. simpl.
    repeat apply conj; auto; try lia. }
  specialize (Ha ltac:(discriminate)).
  simpl countFrom. cbn [retryLoop]. intros H.
  apply bind_inv in H as ([resp err] & w1 & Hreq & H).
  pose proof Hreq as Hreq'.
  apply doRequest_spec in Hreq' as
    (sends & Ht1 & Hsends & _ & _ & Ha1 & _ & _ & Hn1 & Hx).
  simpl in Hx.
  assert (Hexec : Forall (fun ev => executorEvent ev = true)
                    (EvAttempt (resp, err) :: sends)).
  { constructor; [reflexivity|]. eapply Forall_impl; [exact Hsends|].
    intros [] Hs; simpl in *; congruence. }
  assert (Hquiet : Forall (fun ev => interrupted ev = false)
                     (EvAttempt (resp, err) :: sends)).
  { constructor; [reflexivity|]. eapply Forall_impl; [exact Hsends|].
    intros [] Hs; simpl in *; congruence. }
  assert (Hnowait : forall site start d woke,
            ~ In (EvWait site start d woke) (EvAttempt (resp, err) :: sends)).
  { intros site start d woke [Hin|Hin]; [discriminate|].
    rewrite Forall_forall in Hsends. apply list_elem_of_In in Hin.
    specialize (Hsends _ Hin). discriminate. }
  destruct err as [e|].
  2:{ (* success *)
    unfold ret in H. injection H as <- <-.
    exists (EvAttempt (resp, None) :: sends). simpl.
    repeat apply conj; auto; try lia.
    - inversion Hquiet; assumption.
    - intros site start d woke t Hin. exfalso. eapply Hnowait; exact Hin.
    - eauto. }
  rewrite (Hx ltac:(discriminate)) in *. clear Hx.
  destruct (negb (isRetryableError (Some e)) || (a =? MaxRetries config)) eqn:Hstop.
  { (* the error ends the call *)
    unfold ret in H. injection H as <- <-.
    exists (EvAttempt (None, Some e) :: sends). simpl.
    repeat apply conj; auto; try lia.
    - inversion Hquiet; assumption.
    - intros site start d woke t Hin. exfalso. eapply Hnowait; exact Hin.
    - eauto.
    - right. apply orb_true_iff in Hstop as [Hnr|Hlast].
      + left. apply negb_true_iff in Hnr. exact Hnr.
      + right. apply Z.eqb_eq in Hlast. lia. }
  apply orb_false_iff in Hstop as [_ Hnotlast]. apply Z.eqb_neq in Hnotlast.
  apply bind_inv in H as (rnd & w2 & Hrnd & H).
  apply Float64_spec in Hrnd as (Ht2 & _ & Ha2 & _ & _ & Hn2).
  apply bind_inv in H as (woke & w3 & Hsel & H).
  pose proof Hsel as Hsel'.
  apply select_spec in Hsel' as (Ht3 & _ & Ha3 & _ & _ & Hn3 & Hdone & Htimer).
  destruct woke.
  - (* the timer fired: on to the next attempt *)
    apply IH in H; [|lia].
    destruct H as (evs & Ht & Hex & Hq & Hwk & Hn & Hatt & Hend).
    destruct evs as [|ev evs]; [lia|].
    exists ((ev :: evs) ++
            EvWait BackoffWait (now w2)
              (calculateBackoff (mathPow env) (unrepresentable env) rnd a config) TimerFired
            :: EvAttempt (None, Some e) :: sends).
    repeat apply conj.
    + rewrite Ht, Ht3, Ht2, Ht1. rewrite <- app_assoc. reflexivity.
    + apply Forall_app. split; [exact Hex|]. constructor; [reflexivity | exact Hexec].
    + simpl. apply Forall_app. split; [exact Hq|].
      constructor; [reflexivity | exact Hquiet].
    + intros site start d woke t Hin Hdt Hlt.
      apply in_app_or in Hin as [Hin|[Hin|Hin]].
      * eapply Hwk; eauto.
      * injection Hin as <- <- <- <-.
        eapply select_interrupted; eauto.
      * exfalso. eapply Hnowait; exact Hin.
    + lia.
    + lia.
    + lia.
    + simpl. destruct ev as [| x | site start d [|] |]; try exact Hend.
      destruct Hend as (Hr & Hw1 & Hcases). repeat apply conj; auto.
      destruct Hcases as [?|[?|?]]; auto. right. right. lia.
  - (* the context was done first *)
    apply bind_inv in H as (t0 & w4 & Hclk & H).
    unfold clock in Hclk. injection Hclk as <- <-.
    unfold ret in H. injection H as <- <-.
    destruct (Hdone eq_refl) as (t & Hdt & Hmax & Hle).
    exists (EvWait BackoffWait (now w2)
              (calculateBackoff (mathPow env) (unrepresentable env) rnd a config) CtxDone
            :: EvAttempt (None, Some e) :: sends).
    repeat apply conj.
    + rewrite Ht3, Ht2, Ht1. reflexivity.
    + constructor; [reflexivity | exact Hexec].
    + exact Hquiet.
    + intros site start d woke t' [Hin|Hin] _ _.
      * injection Hin as _ _ _ <-. reflexivity.
      * exfalso. eapply Hnowait; exact Hin.
    + lia.
    + lia.
    + lia.
    + rewrite (ctx_Err_done ctx t (now w3) Hdt ltac:(lia)). reflexivity.
    + exists t. auto.
Qed.
End RetryLoop.

(* ===================================================================== *)
(** * doRequestWithRetry *)

Lemma doRequestWithRetry_spec (env : Env) (c : Client) (ctx : Ctx)
    (method path : string) (body : option Payload) (w : World) r w' :
  doRequestWithRetry env c ctx method path body w = (r, w') ->
  exists evs : list Event,
    trace w' = evs ++ trace w /\
    Forall (fun ev => executorEvent ev = true) evs /\
    Forall (fun ev => interrupted ev = false) (tail evs) /\
    (forall site start d woke t,
       In (EvWait site start d woke) evs -> doneAt ctx = Some t ->
       Z.max start t < start + Z.max 0 d -> woke = CtxDone) /\
    now w <= now w' /\
    (attempts w <= attempts w' <= attempts w + allowedAttempts (effectiveConfig c))%nat /\
    match evs with
    | [] => allowedAttempts (effectiveConfig c) = 0%nat /\ r = (None, None)
    | EvAttempt x :: _ =>
        r = x /\
        (exists w1, doRequest env c ctx method path body w1 = (x, w')) /\
        (snd x = None \/ isRetryableError (snd x) = false
         \/ attempts w' = (attempts w + allowedAttempts (effectiveConfig c))%nat)
    | EvWait _ start d CtxDone :: _ =>
        r = (None, Some (cause ctx)) /\
        exists t, doneAt ctx = Some t /\ now w' = Z.max start t /\
                  now w' <= start + Z.max 0 d
    | _ => False
    end.
Proof.
  unfold doRequestWithRetry, attemptRange, allowedAttempts. intros H.
  apply retryLoop_spec in H; [exact H|]. lia.
Qed.

Lemma effectiveConfig_nonzero (c : Client) : MaxRetries (effectiveConfig c) <> 0.
Proof.
  unfold effectiveConfig. destruct (Z.eqb_spec (MaxRetries (retryConfig c)) 0);
    [discriminate | assumption].
Qed.

Lemma effectiveConfig_allowed (c : Client) :
  0 <= MaxRetries (retryConfig c) ->
  allowedAttempts (effectiveConfig c) =
  Z.to_nat ((if MaxRetries (retryConfig c) =? 0 then 3
             else MaxRetries (retryConfig c)) + 1).
Proof.
  intros _. unfold effectiveConfig, allowedAttempts.
  destruct (MaxRetries (retryConfig c) =? 0); reflexivity.
Qed.

(** The number of attempts of a call against a dependency that always
    fails retryably, when the context is never done. *)
Lemma permanent_failure_attempts (env : Env) (c : Client) (ctx : Ctx)
    (method path : string) (body : option Payload) (w : World) :
  permanentlyRetryable env c ctx method path body ->
  doneAt ctx = None ->
  attempts (snd (doRequestWithRetry env c ctx method path body w))
  = (attempts w + allowedAttempts (effectiveConfig c))%nat.
Proof.
  intros Hperm Hnever.
  destruct (doRequestWithRetry env c ctx method path body w) as [r w'] eqn:H.
  apply doRequestWithRetry_spec in H
    as (evs & Ht & _ & _ & _ & _ & Hle & Hend). simpl.
  destruct evs as [|[| x | site start d [|] |] evs]; try contradiction.
  - destruct Hend as [Hz _]. lia.
  - destruct Hend as (_ & [w1 Hw1] & Hcases).
    destruct (Hperm w1) as (e & He & Hretry). rewrite Hw1 in He. simpl in He.
    rewrite He in Hcases. destruct Hcases as [?|[?|?]]; congruence.
  - destruct Hend as (_ & t & Hdt & _). congruence.
Qed.

(* ===================================================================== *)
(** * Properties of the executor *)

Lemma env503_permanent (c : Client) (ctx : Ctx) (method path : string) :
  permanentlyRetryable env503 c ctx method path None.
Proof.
  intros w. exists (errorString "503: service unavailable").
  split; [|reflexivity].
  unfold doRequest, bind, Do. simpl. rewrite clientDo_eq. reflexivity.
Qed.

(** C1 (as amended).  With [MaxRetries = N >= 0] a call makes at most
    [N' + 1] attempts, and exactly [N' + 1] against a dependency that
    always fails retryably when the context is never done, where [N'] is
    [N] for [N >= 1] and 3 (the default) for [N = 0]. *)
Theorem attempt_ceiling (env : Env) (c : Client) (ctx : Ctx)
    (method path : string) (body : option Payload) (w : World) (N : Z) :
  MaxRetries (retryConfig c) = N -> 0 <= N ->
  let w' := snd (doRequestWithRetry env c ctx method path body w) in
  let N' := if N =? 0 then 3 else N in
  (attempts w' <= attempts w + Z.to_nat (N' + 1))%nat /\
  (permanentlyRetryable env c ctx method path body -> doneAt ctx = None ->
   attempts w' = (attempts w + Z.to_nat (N' + 1))%nat).
Proof.
  intros HN Hpos w' N'.
  assert (Hallowed : allowedAttempts (effectiveConfig c) = Z.to_nat (N' + 1)).
  { rewrite effectiveConfig_allowed by lia. subst N' N. reflexivity. }
  rewrite <- Hallowed. split.
  - subst w'.
    destruct (doRequestWithRetry env c ctx method path body w) as [r w1] eqn:H.
    apply doRequestWithRetry_spec in H as (evs & _ & _ & _ & _ & _ & Hle & _).
    simpl. lia.
  - intros Hperm Hnever. apply permanent_failure_attempts; assumption.
Qed.

Lemma attempt_ceiling_witness :
  attempts (snd (doRequestWithRetry env503 (clientWith (Some (policy 2)))
                   Background "GET" "/x" None world0)) = 3%nat.
Proof.
  exact (proj2 (attempt_ceiling env503 (clientWith (Some (policy 2))) Background
                  "GET" "/x" None world0 2 eq_refl ltac:(lia))
           (env503_permanent _ _ _ _) eq_refl).
Defined.

(** C1 as stated fails for [N = 0]: four attempts are made, not one. *)
Lemma attempt_ceiling_counterexample :
  0 <= MaxRetries (retryConfig (clientWith (Some (policy 0)))) /\
  permanentlyRetryable env503 (clientWith (Some (policy 0))) Background "GET" "/x" None /\
  doneAt Background = None /\
  attempts (snd (doRequestWithRetry env503 (clientWith (Some (policy 0)))
                   Background "GET" "/x" None world0))
  <> (attempts world0
      + Z.to_nat (MaxRetries (retryConfig (clientWith (Some (policy 0)))) + 1))%nat.
Proof.
  repeat apply conj.
  - simpl. lia.
  - apply env503_permanent.
  - reflexivity.
  - vm_compute. discriminate.
Qed.

(** C10.  A client whose configuration has [MaxRetries = 0] runs every
    call under [DefaultRetryConfig] (3 retries, 100ms, 5s, factor 2,
    jitter 0.1) in place of its own: against a dependency that always
    fails retryably it makes 4 attempts; no configuration gives a call of
    a single attempt. *)
Theorem zero_retries_replaced_by_default (env : Env) (c : Client) (ctx : Ctx)
    (method path : string) (body : option Payload) (w : World) :
  MaxRetries (retryConfig c) = 0 ->
  effectiveConfig c = DefaultRetryConfig /\
  DefaultRetryConfig =
    {| MaxRetries := 3; BaseDelay := 100 * Millisecond; MaxDelay := 5 * Second;
       Multiplier := 2; JitterFactor := 1 # 10 |} /\
  doRequestWithRetry env c ctx method path body w =
    retryLoop env c ctx method path body DefaultRetryConfig [0; 1; 2; 3] None w /\
  (permanentlyRetryable env c ctx method path body -> doneAt ctx = None ->
   attempts (snd (doRequestWithRetry env c ctx method path body w))
   = (attempts w + 4)%nat) /\
  (forall c' : Client, MaxRetries (effectiveConfig c') <> 0).
Proof.
  intros Hzero.
  assert (Heff : effectiveConfig c = DefaultRetryConfig).
  { unfold effectiveConfig. rewrite Hzero. reflexivity. }
  repeat apply conj.
  - exact Heff.
  - reflexivity.
  - unfold doRequestWithRetry. rewrite Heff. reflexivity.
  - intros Hperm Hnever.
    rewrite permanent_failure_attempts by assumption. rewrite Heff. reflexivity.
  - apply effectiveConfig_nonzero.
Qed.

Lemma zero_retries_replaced_by_default_witness :
  let run := doRequestWithRetry env503 (clientWith (Some noRetryPolicy))
               Background "GET" "/x" None world0 in
  attempts (snd run) = 4%nat /\ now (snd run) = 700 * Millisecond.
Proof.
  split.
  - exact (proj1 (proj2 (proj2 (proj2
             (zero_retries_replaced_by_default env503 (clientWith (Some noRetryPolicy))
                Background "GET" "/x" None world0 eq_refl))))
             (env503_permanent _ _ _ _) eq_refl).
  - vm_compute. reflexivity.
Defined.

(** C8.  When [doRequestWithRetry] returns an error and the call did not
    end in a backoff wait that the context interrupted, the last thing
    that happened is the return of [doRequest] with that very error: the
    caller receives the value of the last attempt as it is, without a
    payload, and this attempt either failed with an error that is not
    retryable or was the last one allowed. *)
Theorem failure_is_last_attempt_error (env : Env) (c : Client) (ctx : Ctx)
    (method path : string) (body : option Payload) (w : World) r w' (e : error) :
  doRequestWithRetry env c ctx method path body w = (r, w') ->
  snd r = Some e ->
  (forall site start d, head (trace w') <> Some (EvWait site start d CtxDone)) ->
  r = (None, Some e) /\
  head (trace w') = Some (EvAttempt (None, Some e)) /\
  (exists w1, doRequest env c ctx method path body w1 = ((None, Some e), w')) /\
  (isRetryableError (Some e) = false
   \/ attempts w' = (attempts w + allowedAttempts (effectiveConfig c))%nat).
Proof.
  intros H He Hnot.
  apply doRequestWithRetry_spec in H as (evs & Ht & _ & _ & _ & _ & _ & Hend).
  destruct evs as [|[| x | site start d [|] |] evs]; try contradiction.
  - destruct Hend as [_ ->]. discriminate.
  - destruct Hend as (-> & [w1 Hw1] & Hcases).
    assert (Hx : x = (None, Some e)).
    { apply doRequest_spec in Hw1 as (_ & _ & _ & _ & _ & _ & _ & _ & _ & Hx).
      destruct x as [resp err]. simpl in *. subst err.
      rewrite (Hx ltac:(discriminate)). reflexivity. }
    subst x. repeat apply conj.
    + reflexivity.
    + rewrite Ht. reflexivity.
    + eauto.
    + simpl in Hcases. destruct Hcases as [?|[?|?]]; [discriminate | auto | auto].
  - exfalso. apply (Hnot site start d). rewrite Ht. reflexivity.
Qed.

Lemma failure_is_last_attempt_error_witness :
  fst (doRequestWithRetry env503 (clientWith (Some (policy 2))) Background
         "GET" "/x" None world0)
  = (None, Some (errorString "503: service unavailable")).
Proof.
  exact (proj1
           (failure_is_last_attempt_error env503 (clientWith (Some (policy 2)))
              Background "GET" "/x" None world0 _ _
              (errorString "503: service unavailable")
              (surjective_pairing _)
              ltac:(vm_compute; reflexivity)
              ltac:(vm_compute; discriminate))).
Defined.

(** C7.  Take any backoff wait of a call, recorded as beginning at
    [start] with a delay [d].  If the context is done (at instant [t])
    before the delay is over, then the wait was cut short, nothing
    happened after it (no request, no attempt), the call returned the
    error of the context, and it returned at the instant the context was
    done (or at [start], if it was done already), not at [start + d]. *)
Theorem cancellation_during_backoff (env : Env) (c : Client) (ctx : Ctx)
    (method path : string) (body : option Payload) (w : World) r w'
    (pre post : list Event) (site : Site) (start d : Z) (woke : Wake) (t : Z) :
  doRequestWithRetry env c ctx method path body w = (r, w') ->
  trace w' = pre ++ EvWait site start d woke :: post ++ trace w ->
  doneAt ctx = Some t ->
  Z.max start t < start + Z.max 0 d ->
  woke = CtxDone /\ pre = [] /\ r = (None, Some (cause ctx)) /\
  now w' = Z.max start t /\ now w' < start + Z.max 0 d.
Proof.
  intros H Htrace Hdt Hlt.
  apply doRequestWithRetry_spec in H as (evs & Ht & _ & Hquiet & Hwake & _ & _ & Hend).
  assert (Hevs : evs = pre ++ EvWait site start d woke :: post).
  { apply (app_inv_tail (trace w)). rewrite <- Ht, Htrace, <- app_assoc. reflexivity. }
  assert (Hwoke : woke = CtxDone).
  { eapply Hwake; eauto. rewrite Hevs. apply in_elt. }
  subst woke evs.
  destruct pre as [|ev pre].
  - simpl in Hend. destruct Hend as (-> & t' & Hdt' & Hnow & _).
    assert (t' = t) by congruence. subst t'.
    repeat apply conj; auto. lia.
  - exfalso. simpl in Hquiet. rewrite Forall_app in Hquiet.
    destruct Hquiet as [_ Hq]. inversion Hq as [|? ? Hhd _]. discriminate.
Qed.

Lemma cancellation_during_backoff_witness :
  let run := doRequestWithRetry env503 (clientWith (Some (policy 3)))
               (deadlineAt (150 * Millisecond)) "GET" "/x" None world0 in
  fst run = (None, Some DeadlineExceeded) /\
  now (snd run) = 150 * Millisecond /\ attempts (snd run) = 2%nat.
Proof.
  pose proof
    (cancellation_during_backoff env503 (clientWith (Some (policy 3)))
       (deadlineAt (150 * Millisecond)) "GET" "/x" None world0 _ _
       []
       [ EvAttempt (None, Some (errorString "503: service unavailable"));
         EvSend requestX;
         EvWait BackoffWait 0 (100 * Millisecond) TimerFired;
         EvAttempt (None, Some (errorString "503: service unavailable"));
         EvSend requestX ]
       BackoffWait (100 * Millisecond) (200 * Millisecond) CtxDone
       (150 * Millisecond)
       (surjective_pairing _)
       ltac:(vm_compute; reflexivity) eq_refl ltac:(vm_compute; reflexivity))
    as (_ & _ & Hr & Hnow & _).
  repeat apply conj.
  - exact Hr.
  - rewrite Hnow. reflexivity.
  - vm_compute. reflexivity.
Defined.

(* ===================================================================== *)
(** * Doubles *)

Lemma pow2_pos (e : Z) : (0 < pow2 e)%Q.
Proof. apply Qpower_0_lt. reflexivity. Qed.

Lemma two_not_0 : ~ (2 == 0)%Q.
Proof. intros H. discriminate H. Qed.

Lemma pow2_plus (a b : Z) : (pow2 (a + b) == pow2 a * pow2 b)%Q.
Proof. apply Qpower_plus. exact two_not_0. Qed.

Lemma pow2_le (a b : Z) : a <= b -> (pow2 a <= pow2 b)%Q.
Proof. intros H. apply Qpower_le_compat_l; [assumption | discriminate]. Qed.

Lemma pow2_lt (a b : Z) : a < b -> (pow2 a < pow2 b)%Q.
Proof. intros H. apply Qpower_lt_compat_l; [assumption | reflexivity]. Qed.

Lemma pow2_lt_inv (a b : Z) : (pow2 a < pow2 b)%Q -> a < b.
Proof. intros H. apply (Qpower_lt_compat_l_inv 2); [assumption | reflexivity]. Qed.

Lemma pow2_Z (n : Z) : 0 <= n -> (pow2 n == inject_Z (2 ^ n))%Q.
Proof. intros H. rewrite Zpower_Qpower by assumption. reflexivity. Qed.

Lemma pow2_cancel (j : Z) : (pow2 (- j) * pow2 j == 1)%Q.
Proof. rewrite <- pow2_plus. replace (- j + j) with 0 by lia. reflexivity. Qed.

(** ** The binade of a positive number *)

Lemma ilog2_spec (x : Q) :
  (0 < x)%Q -> (pow2 (ilog2 x) <= x)%Q /\ (x < pow2 (ilog2 x + 1))%Q.
Proof.
  intros Hx. destruct x as [n d].
  assert (Hn : 0 < n) by (unfold Qlt in Hx; simpl in Hx; lia).
  unfold ilog2. cbn [Qnum Qden].
  set (a := Z.log2 n). set (b := Z.log2 (Z.pos d)).
  assert (Ha : 2 ^ a <= n < 2 ^ (a + 1))
    by (pose proof (Z.log2_spec n Hn); unfold a, Z.succ in *; lia).
  assert (Hb : 2 ^ b <= Z.pos d < 2 ^ (b + 1))
    by (pose proof (Z.log2_spec (Z.pos d) eq_refl); unfold b, Z.succ in *; lia).
  assert (Ha0 : 0 <= a) by apply Z.log2_nonneg.
  assert (Hb0 : 0 <= b) by apply Z.log2_nonneg.
  assert (Hpa : 0 < 2 ^ a) by (apply Z.pow_pos_nonneg; lia).
  assert (Hpb : 0 < 2 ^ b) by (apply Z.pow_pos_nonneg; lia).
  assert (Hlow : (pow2 (a - b - 1) <= n # d)%Q).
  { replace (a - b - 1) with (a - (b + 1)) by lia.
    unfold pow2. rewrite Qpower_minus by exact two_not_0.
    fold (pow2 a). fold (pow2 (b + 1)).
    apply Qle_shift_div_r; [apply pow2_pos|].
    rewrite (pow2_Z a), (pow2_Z (b + 1)) by lia.
    unfold Qle, Qmult, inject_Z. simpl. nia. }
  assert (Hhigh : (n # d < pow2 (a - b + 1))%Q).
  { replace (a - b + 1) with (a + 1 - b) by lia.
    unfold pow2. rewrite Qpower_minus by exact two_not_0.
    fold (pow2 (a + 1)). fold (pow2 b).
    apply Qlt_shift_div_l; [apply pow2_pos|].
    rewrite (pow2_Z (a + 1)), (pow2_Z b) by lia.
    unfold Qlt, Qmult, inject_Z. simpl. nia. }
  destruct (Qle_bool (pow2 (a - b)) (n # d)) eqn:Hle.
  - apply Qle_bool_iff in Hle. split; assumption.
  - split; [assumption|].
    replace (a - b - 1 + 1) with (a - b) by lia.
    apply Qnot_le_lt. intros H. apply Qle_bool_iff in H. congruence.
Qed.

Lemma ilog2_unique (x : Q) (e : Z) :
  (pow2 e <= x)%Q -> (x < pow2 (e + 1))%Q -> ilog2 x = e.
Proof.
  intros Hlo Hhi.
  assert (Hx : (0 < x)%Q) by (eapply Qlt_le_trans; [apply pow2_pos | exact Hlo]).
  destruct (ilog2_spec x Hx) as [Hlo' Hhi'].
  assert (e < ilog2 x + 1)
    by (apply pow2_lt_inv; eapply Qle_lt_trans; [exact Hlo | exact Hhi']).
  assert (ilog2 x < e + 1)
    by (apply pow2_lt_inv; eapply Qle_lt_trans; [exact Hlo' | exact Hhi]).
  lia.
Qed.

Lemma ilog2_mono (x y : Q) : (0 < x)%Q -> (x <= y)%Q -> ilog2 x <= ilog2 y.
Proof.
  intros Hx Hxy.
  assert (Hy : (0 < y)%Q) by (eapply Qlt_le_trans; eassumption).
  destruct (ilog2_spec x Hx) as [Hlo _]. destruct (ilog2_spec y Hy) as [_ Hhi].
  assert (ilog2 x < ilog2 y + 1); [|lia].
  apply pow2_lt_inv. eapply Qle_lt_trans; [exact Hlo|].
  eapply Qle_lt_trans; [exact Hxy | exact Hhi].
Qed.

(** ** Rounding to the nearest integer *)

Lemma roundNearestEven_cases (t : Q) :
  roundNearestEven t = Qfloor t /\ (t - inject_Z (Qfloor t) <= 1 # 2)%Q \/
  roundNearestEven t = Qfloor t + 1 /\ (1 # 2 <= t - inject_Z (Qfloor t))%Q.
Proof.
  unfold roundNearestEven.
  destruct (Qcompare_spec (t - inject_Z (Qfloor t)) (1 # 2)) as [H|H|H].
  - destruct (Z.even (Qfloor t)); [left | right]; split; try reflexivity;
      rewrite H; apply Qle_refl.
  - left. split; [reflexivity | apply Qlt_le_weak; assumption].
  - right. split; [reflexivity | apply Qlt_le_weak; assumption].
Qed.

Lemma roundNearestEven_Z (t : Q) (n : Z) :
  (t == inject_Z n)%Q -> roundNearestEven t = n.
Proof.
  intros H. unfold roundNearestEven.
  rewrite (Qfloor_comp _ _ H), Qfloor_Z.
  destruct (Qcompare_spec (t - inject_Z n) (1 # 2)) as [H'|H'|H'].
  - exfalso. rewrite H in H'. revert H'. unfold Qeq, Qminus, Qplus, Qopp, inject_Z.
    simpl. lia.
  - reflexivity.
  - exfalso. rewrite H in H'. revert H'. unfold Qlt, Qminus, Qplus, Qopp, inject_Z.
    simpl. lia.
Qed.

Lemma roundNearestEven_mono (t t' : Q) :
  (t <= t')%Q -> roundNearestEven t <= roundNearestEven t'.
Proof.
  intros Hle. pose proof (Qfloor_resp_le _ _ Hle) as Hf.
  destruct (Z.eq_dec (Qfloor t) (Qfloor t')) as [Heq|Hne].
  - unfold roundNearestEven. rewrite <- Heq.
    destruct (Qcompare_spec (t - inject_Z (Qfloor t)) (1 # 2)) as [H|H|H];
      destruct (Qcompare_spec (t' - inject_Z (Qfloor t)) (1 # 2)) as [H'|H'|H'];
      try (destruct (Z.even (Qfloor t))); try lia; exfalso; lra.
  - destruct (roundNearestEven_cases t) as [[-> _]|[-> _]];
      destruct (roundNearestEven_cases t') as [[-> _]|[-> _]]; lia.
Qed.

(** ** Rounding a positive number *)

Lemma roundPos_scaled (x : Q) :
  (0 < x)%Q ->
  let u := pow2 (Z.max (ilog2 x) emin - 52) in
  0 <= roundNearestEven (x / u) <= 2 ^ 53 /\
  (emin <= ilog2 x -> 2 ^ 52 <= roundNearestEven (x / u)).
Proof.
  intros Hx u.
  destruct (ilog2_spec x Hx) as [Hlo Hhi].
  assert (Hu : (0 < u)%Q) by apply pow2_pos.
  assert (Hup : (pow2 (Z.max (ilog2 x) emin + 1) == inject_Z (2 ^ 53) * u)%Q).
  { unfold u. rewrite <- (pow2_Z 53) by lia. rewrite <- pow2_plus.
    replace (53 + (Z.max (ilog2 x) emin - 52)) with (Z.max (ilog2 x) emin + 1) by lia.
    reflexivity. }
  repeat apply conj.
  - apply Z.le_trans with (roundNearestEven 0);
      [rewrite (roundNearestEven_Z 0 0) by reflexivity; lia|].
    apply roundNearestEven_mono. apply Qle_shift_div_l; [assumption|].
    rewrite Qmult_0_l. apply Qlt_le_weak. assumption.
  - apply Z.le_trans with (roundNearestEven (inject_Z (2 ^ 53)));
      [|rewrite (roundNearestEven_Z _ (2 ^ 53)) by reflexivity; lia].
    apply roundNearestEven_mono. apply Qle_shift_div_r; [assumption|].
    rewrite <- Hup. apply Qlt_le_weak. eapply Qlt_le_trans; [exact Hhi|].
    apply pow2_le. lia.
  - intros Hn.
    apply Z.le_trans with (roundNearestEven (inject_Z (2 ^ 52)));
      [rewrite (roundNearestEven_Z _ (2 ^ 52)) by reflexivity; lia|].
    apply roundNearestEven_mono. apply Qle_shift_div_l; [assumption|].
    assert (Hdown : (inject_Z (2 ^ 52) * u == pow2 (ilog2 x))%Q).
    { unfold u. rewrite <- (pow2_Z 52) by lia. rewrite <- pow2_plus.
      replace (52 + (Z.max (ilog2 x) emin - 52)) with (ilog2 x) by lia.
      reflexivity. }
    rewrite Hdown. assumption.
Qed.

Lemma roundPos_nonneg (x : Q) : (0 < x)%Q -> (0 <= roundPos x)%Q.
Proof.
  intros Hx. destruct (roundPos_scaled x Hx) as [[H0 _] _].
  unfold roundPos. apply Qmult_le_0_compat.
  - change 0%Q with (inject_Z 0). rewrite <- Zle_Qle. assumption.
  - apply Qlt_le_weak, pow2_pos.
Qed.

Lemma roundPos_mono (x y : Q) :
  (0 < x)%Q -> (x <= y)%Q -> (roundPos x <= roundPos y)%Q.
Proof.
  intros Hx Hxy.
  assert (Hy : (0 < y)%Q) by (eapply Qlt_le_trans; eassumption).
  pose proof (ilog2_mono x y Hx Hxy) as Hlog.
  destruct (Z.eq_dec (Z.max (ilog2 x) emin) (Z.max (ilog2 y) emin)) as [Heq|Hne].
  - unfold roundPos. rewrite <- Heq.
    apply Qmult_le_r; [apply pow2_pos|]. rewrite <- Zle_Qle.
    apply roundNearestEven_mono.
    apply Qle_shift_div_l; [apply pow2_pos|].
    unfold Qdiv. rewrite <- Qmult_assoc, (Qmult_comm (/ _)), Qmult_inv_r, Qmult_1_r.
    + assumption.
    + intros H0. pose proof (pow2_pos (Z.max (ilog2 x) emin - 52)) as Hp.
      rewrite H0 in Hp. discriminate Hp.
  - destruct (roundPos_scaled x Hx) as [[_ Hxhi] _].
    destruct (roundPos_scaled y Hy) as [_ Hylo].
    assert (Hny : emin <= ilog2 y) by lia. specialize (Hylo Hny).
    apply Qle_trans with (pow2 (Z.max (ilog2 x) emin + 1)).
    + unfold roundPos.
      replace (Z.max (ilog2 x) emin + 1) with (53 + (Z.max (ilog2 x) emin - 52)) by lia.
      rewrite pow2_plus, (pow2_Z 53) by lia.
      apply Qmult_le_r; [apply pow2_pos|]. rewrite <- Zle_Qle. assumption.
    + apply Qle_trans with (pow2 (ilog2 y)); [apply pow2_le; lia|].
      unfold roundPos.
      replace (ilog2 y) with (52 + (Z.max (ilog2 y) emin - 52)) at 1 by lia.
      rewrite pow2_plus, (pow2_Z 52) by lia.
      apply Qmult_le_r; [apply pow2_pos|]. rewrite <- Zle_Qle. assumption.
Qed.

(** ** The doubles are the values of the rounding, and it leaves them alone *)

Lemma pow2_not_0 (e : Z) : ~ (pow2 e == 0)%Q.
Proof. intros H. pose proof (pow2_pos e) as Hp. rewrite H in Hp. discriminate Hp. Qed.

Lemma div_mul_pow2 (x : Q) (e : Z) : (x / pow2 e * pow2 e == x)%Q.
Proof.
  unfold Qdiv. rewrite <- Qmult_assoc, (Qmult_comm (/ _)), Qmult_inv_r, Qmult_1_r.
  - reflexivity.
  - apply pow2_not_0.
Qed.

Lemma roundPos_fix (x : Q) (k j : Z) :
  (0 < x)%Q -> (x == inject_Z k * pow2 j)%Q -> k < 2 ^ 53 -> emin - 52 <= j ->
  (roundPos x == x)%Q.
Proof.
  intros Hx Hk Hk53 Hj.
  destruct (ilog2_spec x Hx) as [Hlo Hhi].
  assert (Hlog : ilog2 x < 53 + j).
  { apply pow2_lt_inv. eapply Qle_lt_trans; [exact Hlo|].
    rewrite Hk, pow2_plus, (pow2_Z 53) by lia.
    apply Qmult_lt_r; [apply pow2_pos|]. rewrite <- Zlt_Qlt. assumption. }
  unfold roundPos. set (e := Z.max (ilog2 x) emin).
  assert (He : 0 <= j - (e - 52)) by (unfold e; lia).
  assert (Hdiv : (x / pow2 (e - 52) == inject_Z (k * 2 ^ (j - (e - 52))))%Q).
  { rewrite Hk, inject_Z_mult, <- pow2_Z by assumption.
    replace j with (j - (e - 52) + (e - 52)) at 1 by lia.
    rewrite pow2_plus, Qmult_assoc. apply Qdiv_mult_l, pow2_not_0. }
  rewrite (roundNearestEven_Z _ _ Hdiv), <- Hdiv.
  apply div_mul_pow2.
Qed.

Lemma roundPos_representable (x : Q) :
  (0 < x)%Q ->
  exists k j : Z,
    (roundPos x == inject_Z k * pow2 j)%Q /\ 0 <= k < 2 ^ 53 /\ emin - 52 <= j.
Proof.
  intros Hx. destruct (roundPos_scaled x Hx) as [[Hn0 Hn53] _].
  unfold roundPos. set (e := Z.max (ilog2 x) emin) in *.
  set (n := roundNearestEven (x / pow2 (e - 52))) in *.
  destruct (Z.eq_dec n (2 ^ 53)) as [Heq|Hne].
  - exists (2 ^ 52), (e - 51). repeat apply conj; try (unfold e; lia).
    rewrite Heq. replace (e - 51) with (1 + (e - 52)) by lia.
    rewrite pow2_plus, Qmult_assoc. apply Qmult_comp; reflexivity.
  - exists n, (e - 52). repeat apply conj; try (unfold e; lia). reflexivity.
Qed.

Lemma roundQ_zero (x : Q) : (x == 0)%Q -> roundQ x = 0%Q.
Proof.
  intros H. unfold roundQ. destruct (Qcompare_spec x 0) as [_|H'|H'];
    [reflexivity | exfalso; lra | exfalso; lra].
Qed.

Lemma roundQ_pos (x : Q) : (0 < x)%Q -> roundQ x = Qred (roundPos x).
Proof.
  intros H. unfold roundQ. destruct (Qcompare_spec x 0) as [H'|H'|_];
    [exfalso; lra | exfalso; lra | reflexivity].
Qed.

Lemma roundQ_neg (x : Q) : (x < 0)%Q -> roundQ x = Qred (- roundPos (- x)).
Proof.
  intros H. unfold roundQ. destruct (Qcompare_spec x 0) as [H'|_|H'];
    [exfalso; lra | reflexivity | exfalso; lra].
Qed.

Lemma roundQ_cases (x : Q) :
  (x == 0)%Q /\ roundQ x = 0%Q \/
  (0 < x)%Q /\ roundQ x = Qred (roundPos x) \/
  (x < 0)%Q /\ roundQ x = Qred (- roundPos (- x)).
Proof.
  destruct (Qcompare_spec x 0) as [H|H|H].
  - left. split; [assumption | apply roundQ_zero; assumption].
  - right. right. split; [assumption | apply roundQ_neg; assumption].
  - right. left. split; [assumption | apply roundQ_pos; assumption].
Qed.

Lemma roundQ_canon (x : Q) : Qred (roundQ x) = roundQ x.
Proof.
  destruct (roundQ_cases x) as [[_ ->]|[[_ ->]|[_ ->]]];
    [reflexivity | apply Qcanon.Qred_involutive | apply Qcanon.Qred_involutive].
Qed.

Lemma roundQ_nonneg (x : Q) : (0 <= x)%Q -> (0 <= roundQ x)%Q.
Proof.
  intros Hx. destruct (roundQ_cases x) as [[_ ->]|[[H ->]|[H _]]].
  - apply Qle_refl.
  - rewrite Qred_correct. apply roundPos_nonneg. assumption.
  - exfalso. apply (Qlt_not_le _ _ H). assumption.
Qed.

Lemma roundQ_nonpos (x : Q) : (x <= 0)%Q -> (roundQ x <= 0)%Q.
Proof.
  intros Hx. destruct (roundQ_cases x) as [[_ ->]|[[H _]|[H ->]]].
  - apply Qle_refl.
  - exfalso. apply (Qlt_not_le _ _ H). assumption.
  - rewrite Qred_correct.
    assert (0 <= roundPos (- x))%Q by (apply roundPos_nonneg; lra). lra.
Qed.

Lemma roundQ_mono (x y : Q) : (x <= y)%Q -> (roundQ x <= roundQ y)%Q.
Proof.
  intros Hxy.
  destruct (Qlt_le_dec 0 x) as [Hx|Hx].
  - assert (Hy : (0 < y)%Q) by lra.
    rewrite (roundQ_pos x Hx), (roundQ_pos y Hy), !Qred_correct.
    apply roundPos_mono; assumption.
  - destruct (Qlt_le_dec y 0) as [Hy|Hy].
    + assert (Hx' : (x < 0)%Q) by lra.
      rewrite (roundQ_neg x Hx'), (roundQ_neg y Hy), !Qred_correct.
      assert (roundPos (- y) <= roundPos (- x))%Q by (apply roundPos_mono; lra).
      lra.
    + apply Qle_trans with 0%Q; [apply roundQ_nonpos | apply roundQ_nonneg]; assumption.
Qed.

Lemma roundQ_fix (q : Q) : representable q -> (roundQ q == q)%Q.
Proof.
  intros (k & j & Hq & Hk & Hj).
  destruct (roundQ_cases q) as [[H0 ->]|[[Hpos ->]|[Hneg ->]]].
  - symmetry. assumption.
  - rewrite Qred_correct. apply (roundPos_fix q k j); try assumption. lia.
  - rewrite Qred_correct.
    assert (H : (roundPos (- q) == - q)%Q).
    { apply (roundPos_fix (- q) (- k) j); try lia; [lra|].
      rewrite Hq, inject_Z_opp. ring. }
    rewrite H. ring.
Qed.

Lemma representable_opp (q : Q) : representable q -> representable (- q).
Proof.
  intros (k & j & Hq & Hk & Hj). exists (- k), j. repeat apply conj; try lia.
  rewrite Hq, inject_Z_opp. ring.
Qed.

Lemma representable_comp (p q : Q) : (p == q)%Q -> representable p -> representable q.
Proof.
  intros Heq (k & j & Hq & Hk & Hj). exists k, j. repeat apply conj; try lia.
  rewrite <- Heq. assumption.
Qed.

Lemma representable_Z (n : Z) : Z.abs n < 2 ^ 53 -> representable (inject_Z n).
Proof.
  intros H. exists n, 0. repeat apply conj; [|assumption|unfold emin; lia].
  change (pow2 0) with 1%Q. ring.
Qed.

Lemma representable_double (q : Q) : representable q -> representable (2 * q).
Proof.
  intros (k & j & Hq & Hk & Hj). exists k, (1 + j). repeat apply conj; try lia.
  rewrite Hq, pow2_plus. change (pow2 1) with 2%Q. ring.
Qed.

Lemma roundQ_representable (x : Q) : representable (roundQ x).
Proof.
  destruct (roundQ_cases x) as [[_ ->]|[[Hpos ->]|[Hneg ->]]].
  - apply (representable_Z 0). reflexivity.
  - destruct (roundPos_representable x Hpos) as (k & j & Hq & Hk & Hj).
    exists k, j. repeat apply conj; try lia. rewrite Qred_correct. assumption.
  - assert (Hpos : (0 < - x)%Q) by lra.
    destruct (roundPos_representable (- x) Hpos) as (k & j & Hq & Hk & Hj).
    exists (- k), j. repeat apply conj; try lia.
    rewrite Qred_correct, Hq, inject_Z_opp. ring.
Qed.

(** A number that is a double is its own rounding, in lowest terms. *)
Lemma roundQ_exact (x q : Q) : representable q -> (x == q)%Q -> roundQ x = Qred q.
Proof.
  intros Hrep Heq. rewrite <- roundQ_canon. apply Qred_complete.
  rewrite roundQ_fix; [assumption|].
  apply (representable_comp q); [symmetry; assumption | assumption].
Qed.

(** Between two doubles of opposite sign and below [2^1024], the
    rounding does not overflow. *)
Lemma round64_bounded (x B : Q) :
  representable B -> (B < pow2 1024)%Q -> (- B <= x)%Q -> (x <= B)%Q ->
  round64 x = Finite (roundQ x) /\ (- B <= roundQ x)%Q /\ (roundQ x <= B)%Q.
Proof.
  intros Hrep HB Hlo Hhi.
  assert (Hup : (roundQ x <= B)%Q).
  { rewrite <- (roundQ_fix B Hrep). apply roundQ_mono. assumption. }
  assert (Hdown : (- B <= roundQ x)%Q).
  { rewrite <- (roundQ_fix (- B) (representable_opp B Hrep)).
    apply roundQ_mono. assumption. }
  repeat apply conj; try assumption.
  unfold round64.
  destruct (Qle_bool (pow2 1024) (roundQ x)) eqn:H1.
  { apply Qle_bool_iff in H1. exfalso. lra. }
  destruct (Qle_bool (roundQ x) (- pow2 1024)) eqn:H2.
  { apply Qle_bool_iff in H2. exfalso. lra. }
  reflexivity.
Qed.

Lemma round64_exact (x q : Q) :
  representable q -> (- pow2 1024 < q)%Q -> (q < pow2 1024)%Q -> (x == q)%Q ->
  round64 x = Finite (Qred q).
Proof.
  intros Hrep Hlo Hhi Heq. unfold round64.
  rewrite (roundQ_exact x q Hrep Heq).
  destruct (Qle_bool (pow2 1024) (Qred q)) eqn:H1.
  { apply Qle_bool_iff in H1. rewrite Qred_correct in H1. exfalso. lra. }
  destruct (Qle_bool (Qred q) (- pow2 1024)) eqn:H2.
  { apply Qle_bool_iff in H2. rewrite Qred_correct in H2. exfalso. lra. }
  reflexivity.
Qed.

Lemma pow2_1024_large (n : Z) : n <= 2 ^ 63 -> (inject_Z n < pow2 1024)%Q.
Proof.
  intros H. apply Qle_lt_trans with (inject_Z (2 ^ 63)).
  - rewrite <- Zle_Qle. assumption.
  - rewrite <- (pow2_Z 63) by lia. apply pow2_lt. lia.
Qed.

(** [float64(n)] is exact for an integer of at most 53 bits. *)
Lemma floatOfInt_exact (n : Z) : Z.abs n < 2 ^ 53 -> floatOfInt n = Finite (inject_Z n).
Proof.
  intros H. unfold floatOfInt. rewrite <- (inject_Z_Qred n).
  apply round64_exact.
  - apply representable_Z. assumption.
  - assert (inject_Z (- n) < pow2 1024)%Q by (apply pow2_1024_large; lia).
    rewrite inject_Z_opp in *. lra.
  - apply pow2_1024_large. lia.
  - rewrite inject_Z_Qred. reflexivity.
Qed.

(* ===================================================================== *)
(** * Backoff *)

Lemma Qtrunc_nonneg (x : Q) : (0 <= x)%Q -> Qtrunc x = Qfloor x.
Proof.
  destruct x as [n d]. unfold Qle, Qtrunc, Qfloor. simpl. intros H.
  apply Z.quot_div_nonneg; lia.
Qed.

Lemma Qtrunc_bounds (x : Q) :
  (0 <= x)%Q ->
  0 <= Qtrunc x /\ (inject_Z (Qtrunc x) <= x)%Q /\ (x < inject_Z (Qtrunc x) + 1)%Q.
Proof.
  intros H. rewrite Qtrunc_nonneg by assumption. repeat apply conj.
  - change 0 with (Qfloor 0). apply Qfloor_resp_le. assumption.
  - apply Qfloor_le.
  - pose proof (Qlt_floor x) as Hlt. rewrite inject_Z_plus in Hlt. exact Hlt.
Qed.

Lemma inject_Z_nonneg (n : Z) : 0 <= n -> (0 <= inject_Z n)%Q.
Proof. intros H. change 0%Q with (inject_Z 0). rewrite <- Zle_Qle. assumption. Qed.

(** A number between zero and a double [b] of less than 53 bits before
    the binary point, at a whole distance from [b] or from [- b], is a
    double: it is a multiple of the unit of [b] and no larger. *)
Lemma representable_near (b x : Q) (D : Z) :
  representable b -> (b < inject_Z (2 ^ 53))%Q -> (0 <= x)%Q -> (x <= b)%Q ->
  (x == b + inject_Z D)%Q \/ (x == inject_Z D - b)%Q ->
  representable x.
Proof.
  intros (k & j & Hb & Hk & Hj) Hb53 Hx0 Hxb Hx.
  destruct (Z_le_gt_dec 0 j) as [Hj0|Hj0].
  - assert (HbZ : (b == inject_Z (k * 2 ^ j))%Q)
      by (rewrite Hb, inject_Z_mult, <- pow2_Z by assumption; reflexivity).
    assert (Hm : exists m : Z, (x == inject_Z m)%Q).
    { destruct Hx as [Hx|Hx]; [exists (k * 2 ^ j + D) | exists (D - k * 2 ^ j)];
        rewrite Hx, HbZ; [rewrite inject_Z_plus | unfold Z.sub;
        rewrite inject_Z_plus, inject_Z_opp]; ring. }
    destruct Hm as (m & Hm).
    apply (representable_comp (inject_Z m)); [symmetry; assumption|].
    apply representable_Z.
    rewrite Hm in Hx0, Hxb. rewrite HbZ in Hb53.
    change 0%Q with (inject_Z 0) in Hx0.
    rewrite <- Zle_Qle in Hx0.
    assert (m < 2 ^ 53)
      by (rewrite Zlt_Qlt; eapply Qle_lt_trans; [exact Hxb | rewrite HbZ; exact Hb53]).
    lia.
  - assert (HD : (inject_Z D == inject_Z (D * 2 ^ (- j)) * pow2 j)%Q).
    { rewrite inject_Z_mult, <- pow2_Z by lia.
      rewrite <- Qmult_assoc, pow2_cancel. ring. }
    assert (Hm : exists m : Z, (x == inject_Z m * pow2 j)%Q).
    { destruct Hx as [Hx|Hx];
        [exists (k + D * 2 ^ (- j)) | exists (D * 2 ^ (- j) - k)];
        rewrite Hx, HD, Hb; [rewrite inject_Z_plus | unfold Z.sub;
        rewrite inject_Z_plus, inject_Z_opp]; ring. }
    destruct Hm as (m & Hm).
    exists m, j. repeat apply conj; [assumption| |assumption].
    rewrite Hm in Hx0, Hxb. rewrite Hb in Hxb.
    apply Qmult_le_r in Hxb; [|apply pow2_pos].
    rewrite <- Zle_Qle in Hxb.
    assert (0 <= m); [|lia].
    rewrite Zle_Qle. apply (Qmult_le_r _ _ (pow2 j)); [apply pow2_pos|].
    rewrite Qmult_0_l. assumption.
Qed.

Lemma two_exact : round64 2 = Finite 2.
Proof. vm_compute. reflexivity. Qed.

Lemma one_exact : round64 1 = Finite 1.
Proof. vm_compute. reflexivity. Qed.

(** The backoff before the jitter is a double between zero and
    [maxDelay], whatever [math.Pow] returned, a NaN and the negative
    values apart. *)
Lemma rawBackoff_spec (pow : float64 -> float64 -> float64) (attempt : Z)
    (config : RetryConfig) :
  0 < BaseDelay config -> BaseDelay config <= MaxDelay config ->
  MaxDelay config <= 2 ^ 51 ->
  nonnegative (pow (Multiplier config) (floatOfInt attempt)) ->
  exists raw : Q,
    rawBackoff pow attempt config = Finite raw /\ representable raw /\
    (0 <= raw)%Q /\ (raw <= inject_Z (MaxDelay config))%Q.
Proof.
  intros Hbase Hmax H51 Hpow. unfold rawBackoff.
  rewrite (floatOfInt_exact (BaseDelay config)),
    (floatOfInt_exact (MaxDelay config)) by lia.
  assert (HB : (0 < inject_Z (BaseDelay config))%Q)
    by (change 0%Q with (inject_Z 0); rewrite <- Zlt_Qlt; assumption).
  assert (Hcap : representable (inject_Z (MaxDelay config)) /\
                 (0 <= inject_Z (MaxDelay config))%Q /\
                 (inject_Z (MaxDelay config) <= inject_Z (MaxDelay config))%Q).
  { repeat apply conj; [apply representable_Z; lia | apply inject_Z_nonneg; lia
                       | apply Qle_refl]. }
  destruct (pow (Multiplier config) (floatOfInt attempt)) as [q| | |];
    simpl in Hpow; try contradiction.
  - cbn [fmul]. unfold round64.
    set (y := roundQ (inject_Z (BaseDelay config) * q)).
    assert (Hy : (0 <= y)%Q)
      by (apply roundQ_nonneg, Qmult_le_0_compat; [lra | assumption]).
    destruct (Qle_bool (pow2 1024) y) eqn:H1.
    { cbn [fgt]. exists (inject_Z (MaxDelay config)). split; [reflexivity | exact Hcap]. }
    destruct (Qle_bool y (- pow2 1024)) eqn:H2.
    { apply Qle_bool_iff in H2. pose proof (pow2_pos 1024). exfalso. lra. }
    cbn [fgt]. destruct (Qle_bool y (inject_Z (MaxDelay config))) eqn:H3; cbn [negb].
    + apply Qle_bool_iff in H3. exists y. repeat apply conj; try assumption.
      * reflexivity.
      * apply roundQ_representable.
    + exists (inject_Z (MaxDelay config)). split; [reflexivity | exact Hcap].
  - cbn [fmul].
    destruct (Qeq_bool (inject_Z (BaseDelay config)) 0) eqn:H0.
    { apply Qeq_bool_eq in H0. exfalso. lra. }
    destruct (Qle_bool 0 (inject_Z (BaseDelay config))) eqn:H1.
    + cbn [fgt]. exists (inject_Z (MaxDelay config)). split; [reflexivity | exact Hcap].
    + exfalso. assert (Qle_bool 0 (inject_Z (BaseDelay config)) = true)
        by (apply Qle_bool_iff; lra). congruence.
Qed.

(** When [math.Pow] returns a power [p] and [baseDelay * p] is a double,
    the backoff before the jitter is [min(baseDelay * p, maxDelay)]. *)
Lemma rawBackoff_exact (pow : float64 -> float64 -> float64) (attempt : Z)
    (config : RetryConfig) (p raw : Q) :
  Z.abs (BaseDelay config) < 2 ^ 53 -> Z.abs (MaxDelay config) < 2 ^ 53 ->
  pow (Multiplier config) (floatOfInt attempt) = Finite p ->
  representable (inject_Z (BaseDelay config) * p) ->
  rawBackoff pow attempt config = Finite raw ->
  (raw == Qmin (inject_Z (BaseDelay config) * p) (inject_Z (MaxDelay config)))%Q.
Proof.
  intros HB HM Hp Hrep. unfold rawBackoff.
  rewrite (floatOfInt_exact (BaseDelay config)),
    (floatOfInt_exact (MaxDelay config)), Hp by assumption. cbn [fmul]. unfold round64.
  set (x := (inject_Z (BaseDelay config) * p)%Q) in *.
  set (m := inject_Z (MaxDelay config)).
  assert (Hm : (m < pow2 1024)%Q) by (apply pow2_1024_large; lia).
  pose proof (roundQ_fix x Hrep) as Hfix.
  destruct (Qle_bool (pow2 1024) (roundQ x)) eqn:H1.
  { apply Qle_bool_iff in H1. cbn [fgt]. intros [= <-].
    symmetry. apply Q.min_r. lra. }
  destruct (Qle_bool (roundQ x) (- pow2 1024)) eqn:H2.
  { cbn [fgt]. discriminate. }
  cbn [fgt]. destruct (Qle_bool (roundQ x) m) eqn:H3; cbn [negb]; intros [= <-].
  - apply Qle_bool_iff in H3. rewrite Hfix. symmetry. apply Q.min_l. lra.
  - symmetry. apply Q.min_r.
    apply Qlt_le_weak, Qnot_le_lt. intros H. rewrite <- Hfix in H.
    apply Qle_bool_iff in H. congruence.
Qed.

Lemma calculateBackoff_eq (pow : float64 -> float64 -> float64)
    (unrepresentable : float64 -> Z) (rnd : float64) (attempt : Z)
    (config : RetryConfig) :
  calculateBackoff pow unrepresentable rnd attempt config =
  Duration_of_float unrepresentable
    (fadd (rawBackoff pow attempt config)
          (fmul (fmul (rawBackoff pow attempt config) (JitterFactor config))
                (fsub (fmul rnd 2) 1))).
Proof. reflexivity. Qed.

(** The jittered backoff, before the conversion to a duration: the
    roundings of the three products, the difference and the sum keep it
    between the whole numbers around [raw - raw * j] and
    [raw + raw * j]. *)
Lemma jittered_bounds (raw j r : Q) :
  representable raw -> (0 <= raw)%Q -> (raw <= inject_Z (2 ^ 51))%Q ->
  (0 <= j)%Q -> (j <= 1)%Q -> (0 <= r)%Q -> (r <= 1)%Q ->
  exists s : Q,
    fadd (Finite raw)
         (fmul (fmul (Finite raw) (Finite j)) (fsub (fmul (Finite r) 2) 1))
    = Finite s /\
    (inject_Z (Qfloor (raw - raw * j)) <= s)%Q /\
    (s <= inject_Z (Qceiling (raw + raw * j)))%Q /\
    0 <= Qfloor (raw - raw * j) /\ Qceiling (raw + raw * j) <= 2 ^ 52 + 1.
Proof.
  intros Hrep Hraw0 Hraw51 Hj0 Hj1 Hr0 Hr1.
  rewrite two_exact, one_exact.
  assert (H51 : (inject_Z (2 ^ 51) < pow2 1024)%Q) by (apply pow2_1024_large; lia).
  assert (Hrj0 : (0 <= raw * j)%Q) by (apply Qmult_le_0_compat; assumption).
  assert (Hrj1 : (0 <= raw * (1 - j))%Q) by (apply Qmult_le_0_compat; lra).
  (* raw * j *)
  destruct (round64_bounded (raw * j) raw Hrep ltac:(lra) ltac:(lra) ltac:(lra))
    as (Ht1 & _ & Ht1hi).
  pose proof (roundQ_nonneg (raw * j) Hrj0) as Ht1lo.
  set (t1 := roundQ (raw * j)) in *.
  (* rnd * 2 - 1 *)
  assert (Hrep2 : representable 2) by (apply (representable_Z 2); reflexivity).
  assert (Hrep1 : representable 1) by (apply (representable_Z 1); reflexivity).
  assert (H2 : (2 < pow2 1024)%Q) by (apply (pow2_1024_large 2); lia).
  assert (H1 : (1 < pow2 1024)%Q) by (apply (pow2_1024_large 1); lia).
  destruct (round64_bounded (r * 2) 2 Hrep2 H2 ltac:(lra) ltac:(lra))
    as (Ht2 & _ & Ht2hi).
  pose proof (roundQ_nonneg (r * 2) ltac:(lra)) as Ht2lo.
  set (t2 := roundQ (r * 2)) in *.
  destruct (round64_bounded (t2 - 1) 1 Hrep1 H1 ltac:(lra) ltac:(lra))
    as (Ht3 & Ht3lo & Ht3hi).
  set (t3 := roundQ (t2 - 1)) in *.
  (* the jitter *)
  assert (Hp1 : (0 <= t1 * (1 - t3))%Q) by (apply Qmult_le_0_compat; lra).
  assert (Hp2 : (0 <= t1 * (t3 + 1))%Q) by (apply Qmult_le_0_compat; lra).
  destruct (round64_bounded (t1 * t3) t1 (roundQ_representable _) ltac:(lra)
              ltac:(lra) ltac:(lra)) as (Hjit & Hjitlo & Hjithi).
  set (jit := roundQ (t1 * t3)) in *.
  (* the sum *)
  assert (Hrep52 : representable (inject_Z (2 ^ 52)))
    by (apply representable_Z; reflexivity).
  assert (H52 : (inject_Z (2 ^ 52) < pow2 1024)%Q) by (apply pow2_1024_large; lia).
  assert (H5152 : (2 * inject_Z (2 ^ 51) == inject_Z (2 ^ 52))%Q) by reflexivity.
  destruct (round64_bounded (raw + jit) (inject_Z (2 ^ 52)) Hrep52 H52
              ltac:(lra) ltac:(lra)) as (Hs & _ & _).
  exists (roundQ (raw + jit)).
  cbn [fmul fsub fadd]. rewrite Ht1. cbn [fmul]. rewrite Ht2. cbn [fsub fmul].
  rewrite Ht3. cbn [fmul]. rewrite Hjit. cbn [fadd].
  split; [exact Hs|].
  (* the whole numbers around the exact bounds *)
  set (N := Qfloor (raw - raw * j)). set (N' := Qceiling (raw + raw * j)).
  pose proof (Qfloor_le (raw - raw * j)) as HN. fold N in HN.
  pose proof (Qle_ceiling (raw + raw * j)) as HN'. fold N' in HN'.
  pose proof (Qceiling_lt (raw + raw * j)) as HN'lt. fold N' in HN'lt.
  unfold Z.sub in HN'lt. rewrite inject_Z_plus in HN'lt.
  change (inject_Z (- (1))) with (- (1))%Q in HN'lt.
  assert (HN0 : 0 <= N).
  { change 0 with (Qfloor 0). apply Qfloor_resp_le. lra. }
  assert (HN0q : (0 <= inject_Z N)%Q) by (apply inject_Z_nonneg; assumption).
  assert (HN'52 : N' <= 2 ^ 52 + 1).
  { assert (N' < 2 ^ 52 + 2); [|lia].
    rewrite Zlt_Qlt, inject_Z_plus. change (inject_Z 2) with 2%Q. lra. }
  assert (Hraw53 : (raw < inject_Z (2 ^ 53))%Q).
  { apply Qle_lt_trans with (inject_Z (2 ^ 51)); [assumption|].
    rewrite <- Zlt_Qlt. reflexivity. }
  repeat apply conj; try assumption.
  - (* from below *)
    assert (HD : representable (raw - inject_Z N)).
    { apply (representable_near raw _ (- N)); try assumption; try lra.
      left. rewrite inject_Z_opp. ring. }
    assert (Ht1D : (t1 <= raw - inject_Z N)%Q).
    { rewrite <- (roundQ_fix _ HD). apply roundQ_mono. lra. }
    assert (HrepN : representable (inject_Z N)).
    { apply representable_Z.
      assert (N <= 2 ^ 51); [|lia]. rewrite Zle_Qle. lra. }
    rewrite <- (roundQ_fix _ HrepN). apply roundQ_mono. lra.
  - (* from above *)
    destruct (Qlt_le_dec raw (inject_Z N' - raw)) as [Hfar|Hnear].
    + apply Qle_trans with (2 * raw)%Q; [|lra].
      rewrite <- (roundQ_fix _ (representable_double raw Hrep)).
      apply roundQ_mono. lra.
    + assert (HD : representable (inject_Z N' - raw)).
      { apply (representable_near raw _ N'); try assumption; lra. }
      assert (Ht1D : (t1 <= inject_Z N' - raw)%Q).
      { rewrite <- (roundQ_fix _ HD). apply roundQ_mono. lra. }
      assert (HrepN : representable (inject_Z N')).
      { apply representable_Z.
        assert (0 <= N') by (rewrite Zle_Qle; change (inject_Z 0) with 0%Q; lra).
        assert (N' <= 2 ^ 52); [|lia]. rewrite Zle_Qle. lra. }
      rewrite <- (roundQ_fix _ HrepN). apply roundQ_mono. lra.
Qed.

(** What [calculateBackoff] returns for a valid policy: the backoff
    before the jitter is a double [raw] between zero and [maxDelay], and
    the result is the jittered value cut to whole nanoseconds, between
    the whole numbers around [raw - raw * j] and [raw + raw * j]. *)
Lemma calculateBackoff_bounds (pow : float64 -> float64 -> float64)
    (unrepresentable : float64 -> Z) (rnd : float64) (attempt : Z)
    (config : RetryConfig) (j r : Q) :
  validPolicy config ->
  MaxDelay config <= 2 ^ 51 ->
  JitterFactor config = Finite j ->
  rnd = Finite r -> (0 <= r)%Q -> (r <= 1)%Q ->
  nonnegative (pow (Multiplier config) (floatOfInt attempt)) ->
  exists raw : Q,
    rawBackoff pow attempt config = Finite raw /\
    (0 <= raw)%Q /\ (raw <= inject_Z (MaxDelay config))%Q /\
    (0 <= j)%Q /\
    Qfloor (raw - raw * j)
      <= calculateBackoff pow unrepresentable rnd attempt config
      <= Qceiling (raw + raw * j) /\
    0 <= Qfloor (raw - raw * j).
Proof.
  intros (Hbase & Hmax & _ & (j' & Hj' & Hj0 & Hj1)) H51 Hj Hrnd Hr0 Hr1 Hpow.
  rewrite Hj in Hj'. injection Hj' as <-.
  destruct (rawBackoff_spec pow attempt config Hbase Hmax H51 Hpow)
    as (raw & Hraw & Hrep & Hraw0 & HrawM).
  assert (Hraw51 : (raw <= inject_Z (2 ^ 51))%Q).
  { apply Qle_trans with (inject_Z (MaxDelay config)); [assumption|].
    rewrite <- Zle_Qle. assumption. }
  destruct (jittered_bounds raw j r Hrep Hraw0 Hraw51 Hj0 Hj1 Hr0 Hr1)
    as (s & Hs & Hlo & Hhi & HN0 & HN52).
  exists raw. repeat apply conj; try assumption.
  all: rewrite calculateBackoff_eq, Hraw, Hj, Hrnd, Hs; unfold Duration_of_float.
  all: assert (Hs0 : (0 <= s)%Q)
         by (apply Qle_trans with (inject_Z (Qfloor (raw - raw * j)));
             [apply inject_Z_nonneg; assumption | assumption]).
  all: pose proof (Qtrunc_bounds s Hs0) as (Ht0 & Htle & Htlt).
  all: assert (Hge : Qfloor (raw - raw * j) <= Qtrunc s)
         by (rewrite Qtrunc_nonneg by assumption;
             rewrite <- (Qfloor_Z (Qfloor (raw - raw * j)));
             apply Qfloor_resp_le; assumption).
  all: assert (Hle : Qtrunc s <= Qceiling (raw + raw * j))
         by (rewrite Zle_Qle; lra).
  all: unfold MinInt64, MaxInt64.
  all: destruct (Z.leb_spec (- 2 ^ 63) (Qtrunc s)); [|lia].
  all: destruct (Z.leb_spec (Qtrunc s) (2 ^ 63 - 1)); [|lia].
  all: cbn [andb]; assumption.
Qed.

(** The same, as a distance: the result is within [raw * j] plus one
    nanosecond of [raw]. *)
Lemma calculateBackoff_distance (raw j : Q) (actual : Z) :
  Qfloor (raw - raw * j) <= actual <= Qceiling (raw + raw * j) ->
  (Qabs (inject_Z actual - raw) < raw * j + 1)%Q.
Proof.
  intros [Hlo Hhi].
  pose proof (Qlt_floor (raw - raw * j)) as Hf.
  pose proof (Qceiling_lt (raw + raw * j)) as Hc.
  rewrite inject_Z_plus in Hf. unfold Z.sub in Hc. rewrite inject_Z_plus in Hc.
  change (inject_Z 1) with 1%Q in Hf. change (inject_Z (- (1))) with (- (1))%Q in Hc.
  rewrite Zle_Qle in Hlo, Hhi.
  apply Qabs_Qlt_condition. split; lra.
Qed.

(** C6 (as amended).  For a valid policy whose [MaxDelay] is at most
    [2^51] nanoseconds, every attempt index for which [math.Pow] returns
    a value that is not negative, and every draw of [rand.Float64()] in
    [[0, 1]]: the backoff before the jitter is a double [raw] between
    zero and [MaxDelay], which is [min(baseDelay * p, maxDelay)] when
    [math.Pow] returns a power [p] whose product with [baseDelay] is a
    double; the backoff is never negative, and differs from [raw] by
    less than [raw * jitterFactor] plus one nanosecond.  All operations
    are those of float64. *)
Theorem backoff_within_jitter (pow : float64 -> float64 -> float64)
    (unrepresentable : float64 -> Z) (rnd : float64) (attempt : Z)
    (config : RetryConfig) (j r : Q) :
  validPolicy config ->
  MaxDelay config <= 2 ^ 51 ->
  JitterFactor config = Finite j ->
  rnd = Finite r -> (0 <= r)%Q -> (r <= 1)%Q ->
  nonnegative (pow (Multiplier config) (floatOfInt attempt)) ->
  exists raw : Q,
    rawBackoff pow attempt config = Finite raw /\
    (0 <= raw)%Q /\ (raw <= inject_Z (MaxDelay config))%Q /\
    (forall p : Q,
       pow (Multiplier config) (floatOfInt attempt) = Finite p ->
       representable (inject_Z (BaseDelay config) * p) ->
       (raw == Qmin (inject_Z (BaseDelay config) * p)
                    (inject_Z (MaxDelay config)))%Q) /\
    let actual := calculateBackoff pow unrepresentable rnd attempt config in
    0 <= actual /\
    (Qabs (inject_Z actual - raw) < raw * j + 1)%Q.
Proof.
  intros Hvalid H51 Hj Hrnd Hr0 Hr1 Hpow.
  destruct (calculateBackoff_bounds pow unrepresentable rnd attempt config j r
              Hvalid H51 Hj Hrnd Hr0 Hr1 Hpow)
    as (raw & Hraw & Hraw0 & HrawM & Hj0 & Hact & HN0).
  destruct Hvalid as (Hbase & Hmax & _).
  exists raw. repeat apply conj; try assumption.
  - intros p Hp Hrep.
    apply (rawBackoff_exact pow attempt config p raw); try assumption; lia.
  - lia.
  - apply calculateBackoff_distance. assumption.
Qed.

Lemma backoff_within_jitter_witness :
  let actual :=
    calculateBackoff scenarioPow (fun _ => MinInt64) (1 # 4) 2 DefaultRetryConfig in
  actual = 380 * Millisecond /\ 0 <= actual /\
  (Qabs (inject_Z actual - inject_Z (400 * Millisecond))
   < inject_Z (400 * Millisecond) * (3602879701896397 # 36028797018963968) + 1)%Q.
Proof.
  destruct (backoff_within_jitter scenarioPow (fun _ => MinInt64) (1 # 4) 2
              DefaultRetryConfig (3602879701896397 # 36028797018963968) (1 # 4))
    as (raw & Hraw & _ & _ & _ & Hpos & Hdist).
  - repeat apply conj; try (vm_compute; congruence).
    + exists 2%Q. split; vm_compute; reflexivity.
    + exists (3602879701896397 # 36028797018963968)%Q.
      repeat apply conj; vm_compute; congruence.
  - vm_compute. discriminate.
  - vm_compute. reflexivity.
  - vm_compute. reflexivity.
  - vm_compute. discriminate.
  - vm_compute. discriminate.
  - vm_compute. discriminate.
  - assert (Hr : rawBackoff scenarioPow 2 DefaultRetryConfig
                 = Finite (inject_Z (400 * Millisecond)))
      by (vm_compute; reflexivity).
    rewrite Hr in Hraw. injection Hraw as <-.
    repeat apply conj; [vm_compute; reflexivity | exact Hpos | exact Hdist].
Defined.

(** C6 as stated fails: with a base delay of 1000001ns, a jitter factor
    of one half and the draw 0 ([u = -1]), every operation of the
    computation is exact; the jittered value 500000.5 is truncated to
    500000, which is 500001 away from [raw = 1000001], more than
    [raw * jitterFactor = 500000.5]. *)
Lemma backoff_within_jitter_counterexample :
  validPolicy oddPolicy /\
  rawBackoff scenarioPow 0 oddPolicy = Finite 1000001 /\
  JitterFactor oddPolicy = Finite (1 # 2) /\
  calculateBackoff scenarioPow (fun _ => MinInt64) 0 0 oddPolicy = 500000 /\
  ~ (Qabs (inject_Z (calculateBackoff scenarioPow (fun _ => MinInt64) 0 0 oddPolicy)
           - 1000001)
     <= 1000001 * (1 # 2))%Q.
Proof.
  repeat apply conj; try (vm_compute; congruence).
  - exists 2%Q. split; vm_compute; reflexivity.
  - exists (1 # 2)%Q. repeat apply conj; vm_compute; congruence.
Qed.

(** Where the bound ends: an integer of more than 53 bits is rounded by
    [float64(n)], so a [MaxDelay] of [2^62 - 1] nanoseconds is capped at
    [2^62], and the backoff is longer than [MaxDelay] without any
    jitter.  The constant [0.1] of the default policy is the double
    next to one tenth. *)
Example large_delays_are_rounded :
  floatOfInt (2 ^ 53 + 1) = Finite (inject_Z (2 ^ 53)) /\
  round64 (1 # 10) = Finite (3602879701896397 # 36028797018963968) /\
  calculateBackoff scenarioPow (fun _ => MinInt64) (1 # 2) 0
    {| MaxRetries := 3; BaseDelay := 2 ^ 62 - 1; MaxDelay := 2 ^ 62 - 1;
       Multiplier := 2; JitterFactor := 0 |}
  = 2 ^ 62.
Proof. vm_compute. repeat apply conj; reflexivity. Qed.

(* ===================================================================== *)
(** * Properties of the classifier *)

(** The text of the error that [doRequest] makes of an answer with a
    status of 400 or more whose body is no error envelope. *)
Lemma doRequest_plain_error (env : Env) (c : Client) (ctx : Ctx)
    (method path : string) (body : option Payload) (w : World)
    (status : Z) (text : string) (took : N) :
  (forall e, body <> Some (MarshalFails e)) ->
  newRequestError env method (baseURL c +:+ path) = None ->
  (forall req, roundTrip env (trips w) req
               = (Responded {| StatusCode := status; Body := inl text |} None, took)) ->
  400 <= status ->
  match unmarshalErrorResponse env text with
  | Some errResp => Code (RespError errResp) = EmptyString
  | None => True
  end ->
  fst (doRequest env c ctx method path body w)
  = (None, Some (errorString (itoa status +:+ ": " +:+ text))).
Proof.
  intros Hbody Hnew Hrt Hstatus Henv.
  unfold doRequest, bind, Do.
  destruct body as [[json|e]|]; [| exfalso; eapply Hbody; reflexivity |].
  all: rewrite Hnew, clientDo_eq; unfold send; rewrite Hrt.
  all: cbn [Body StatusCode]; destruct (Z.leb_spec 400 status); [|lia].
  all: destruct (unmarshalErrorResponse env text) as [errResp|]; [|reflexivity].
  all: rewrite Henv; reflexivity.
Qed.

(** C9.  An error whose text contains "429", "502", "503" or "504"
    anywhere is retryable; the text that [doRequest] makes of an answer
    that is no error envelope contains the whole body, so that such an
    answer is retryable whatever its status when its body mentions one of
    the four numbers; a permanent 404 whose body mentions a 503 is tried
    four times under the default configuration. *)
Theorem substring_makes_retryable :
  (forall (e : error) (s : string),
     In s retryableStatuses -> Contains (Error e) s = true ->
     isRetryableError (Some e) = true) /\
  (forall (env : Env) (c : Client) (ctx : Ctx) (method path : string)
          (body : option Payload) (w : World) (status : Z) (text : string)
          (took : N) (s : string),
     (forall e, body <> Some (MarshalFails e)) ->
     newRequestError env method (baseURL c +:+ path) = None ->
     (forall req, roundTrip env (trips w) req
                  = (Responded {| StatusCode := status; Body := inl text |} None, took)) ->
     400 <= status ->
     match unmarshalErrorResponse env text with
     | Some errResp => Code (RespError errResp) = EmptyString
     | None => True
     end ->
     In s retryableStatuses -> Contains text s = true ->
     exists e, snd (fst (doRequest env c ctx method path body w)) = Some e /\
               Error e = itoa status +:+ ": " +:+ text /\
               isRetryableError (Some e) = true) /\
  attempts (snd (doRequestWithRetry env404 (clientWith None) Background
                   "GET" "/x" None world0)) = 4%nat.
Proof.
  repeat apply conj.
  - intros e s Hin Hc. apply (isRetryableError_contains e s); [|assumption].
    apply in_or_app. right. assumption.
  - intros env c ctx method path body w status text took s
      Hbody Hnew Hrt Hstatus Henv Hin Hc.
    exists (errorString (itoa status +:+ ": " +:+ text)).
    rewrite (doRequest_plain_error env c ctx method path body w status text took)
      by assumption.
    repeat apply conj; try reflexivity.
    apply (isRetryableError_contains _ s); [apply in_or_app; right; assumption|].
    simpl. apply Contains_app_r. apply (Contains_app_r ": "). assumption.
  - vm_compute. reflexivity.
Qed.

Lemma substring_makes_retryable_witness :
  exists e, snd (fst (doRequest env404 (clientWith None) Background
                        "GET" "/x" None world0)) = Some e /\
            Error e = "404: upstream returned 503" /\
            isRetryableError (Some e) = true.
Proof.
  exact (proj1 (proj2 substring_makes_retryable)
           env404 (clientWith None) Background "GET" "/x" None world0
           404 "upstream returned 503" 0%N "503"
           ltac:(discriminate) eq_refl ltac:(reflexivity) ltac:(lia) I
           ltac:(simpl; tauto) eq_refl).
Defined.

Lemma status_text_retryable (status : Z) (rest : string) :
  In (itoa status) retryableStatuses ->
  isRetryableError (Some (errorString (itoa status +:+ rest))) = true.
Proof.
  intros Hin. apply (isRetryableError_contains _ (itoa status)).
  - apply in_or_app. right. assumption.
  - simpl. apply Contains_app_l.
    destruct Hin as [<-|[<-|[<-|[<-|[]]]]]; reflexivity.
Qed.

(** C4, on the code.  The classifier is a function of the text of the
    error: it says yes to the texts [doRequest] makes of the statuses
    429, 502, 503 and 504 and to texts with one of the network phrases,
    no to the bare cancellation and deadline errors -- and yes to the
    text of a 404 whose body mentions a 503, for which the executor makes
    four calls where one is due. *)
Theorem classifier_on_executor_errors :
  (forall (status : Z) (rest : string),
     In status [429; 502; 503; 504] ->
     isRetryableError (Some (errorString (itoa status +:+ rest))) = true) /\
  (forall (e : error) (phrase : string),
     In phrase networkErrors -> Contains (Error e) phrase = true ->
     isRetryableError (Some e) = true) /\
  isRetryableError (Some Canceled) = false /\
  isRetryableError (Some DeadlineExceeded) = false /\
  isRetryableError None = false /\
  fst (doRequest env404 (clientWith None) Background "GET" "/x" None world0)
  = (None, Some (errorString "404: upstream returned 503")) /\
  isRetryableError (Some (errorString "404: upstream returned 503")) = true /\
  attempts (snd (doRequestWithRetry env404 (clientWith None) Background
                   "GET" "/x" None world0)) = 4%nat.
Proof.
  repeat apply conj; try reflexivity.
  - intros status rest Hin. apply status_text_retryable.
    simpl in Hin. destruct Hin as [<-|[<-|[<-|[<-|[]]]]]; simpl; tauto.
  - intros e phrase Hin Hc. apply (isRetryableError_contains e phrase); [|assumption].
    apply in_or_app. left. assumption.
Qed.

(* ===================================================================== *)
(** * Redirects *)

Lemma clientDo_redirect_loop (env : Env) (m : nat) :
  forall (reqs : list Request) (req : Request) (w : World),
  (length reqs + m = 9)%nat ->
  (forall k req', (k <= m)%nat ->
     exists resp loc took,
       roundTrip env (trips w + k) req' = (Responded resp (Some loc), took)) ->
  exists resp loc w',
    clientDo env reqs req w
    = ((Some resp,
        Some (urlError (urlErrorOp (firstMethod (reqs ++ [req]))) loc tooManyRedirects)),
       w') /\
    trips w' = (trips w + S m)%nat.
Proof.
  induction m as [|m IH]; intros reqs req w Hlen Hredir.
  - destruct (Hredir 0%nat req ltac:(lia)) as (resp & loc & took & Hrt).
    rewrite Nat.add_0_r in Hrt.
    exists resp, loc. rewrite clientDo_eq. unfold send. rewrite Hrt.
    unfold CheckRedirect. rewrite length_app. simpl length.
    replace (length reqs + 1)%nat with 10%nat by lia. simpl Nat.leb.
    eexists. split; [reflexivity|]. simpl. lia.
  - destruct (Hredir 0%nat req ltac:(lia)) as (resp & loc & took & Hrt).
    rewrite Nat.add_0_r in Hrt.
    rewrite clientDo_eq. unfold send. rewrite Hrt.
    destruct (CheckRedirect (nextHop env (reqs ++ [req]) loc) (reqs ++ [req]))
      as [next verdict] eqn:Hc.
    pose proof (CheckRedirect_verdict (nextHop env (reqs ++ [req]) loc) (reqs ++ [req])) as Hv.
    rewrite Hc in Hv. cbn [snd] in Hv.
    rewrite length_app in Hv. simpl length in Hv.
    destruct (Nat.leb_spec 10 (length reqs + 1)); [lia|]. subst verdict.
    match goal with
    | |- context [clientDo env (reqs ++ [req]) next ?w1] =>
        destruct (IH (reqs ++ [req]) next w1) as (resp' & loc' & w' & Hrun & Htrips)
    end.
    + rewrite length_app. simpl. lia.
    + intros k req' Hk. simpl trips.
      destruct (Hredir (S k) req' ltac:(lia)) as (r1 & l1 & t1 & H1).
      exists r1, l1, t1.
      replace (S (trips w) + k)%nat with (trips w + S k)%nat by lia. exact H1.
    + exists resp', loc', w'. rewrite Hrun. split.
      * destruct reqs; reflexivity.
      * rewrite Htrips. simpl. lia.
Qed.

Lemma sentRequests_sends (reqs : list Request) :
  sentRequests (map EvSend (rev reqs)) = reqs.
Proof.
  induction reqs as [|req reqs IH]; [reflexivity|].
  simpl rev. rewrite map_app. simpl.
  assert (Happ : forall evs evs', sentRequests (evs ++ evs')
                                 = sentRequests evs' ++ sentRequests evs).
  { induction evs as [|[] evs IHe]; intros evs'; simpl;
      rewrite ?app_nil_r, ?IHe, ?app_assoc; reflexivity. }
  rewrite Happ, IH. reflexivity.
Qed.

Lemma clientDo_follows (env : Env) (m : nat) :
  forall (reqs : list Request) (req : Request) (w : World),
  (length reqs + m <= 9)%nat ->
  (forall k req', (k < m)%nat ->
     exists resp loc took,
       roundTrip env (trips w + k) req' = (Responded resp (Some loc), took)) ->
  (forall req',
     exists resp took, roundTrip env (trips w + m) req' = (Responded resp None, took)) ->
  exists resp w',
    clientDo env reqs req w = ((Some resp, None), w') /\
    trips w' = (trips w + S m)%nat.
Proof.
  induction m as [|m IH]; intros reqs req w Hlen Hredir Hplain.
  - destruct (Hplain req) as (resp & took & Hrt).
    rewrite Nat.add_0_r in Hrt.
    exists resp. rewrite clientDo_eq. unfold send. rewrite Hrt.
    eexists. split; [reflexivity|]. simpl. lia.
  - destruct (Hredir 0%nat req ltac:(lia)) as (resp & loc & took & Hrt).
    rewrite Nat.add_0_r in Hrt.
    rewrite clientDo_eq. unfold send. rewrite Hrt.
    destruct (CheckRedirect (nextHop env (reqs ++ [req]) loc) (reqs ++ [req]))
      as [next verdict] eqn:Hc.
    pose proof (CheckRedirect_verdict (nextHop env (reqs ++ [req]) loc) (reqs ++ [req])) as Hv.
    rewrite Hc in Hv. cbn [snd] in Hv.
    rewrite length_app in Hv. simpl length in Hv.
    destruct (Nat.leb_spec 10 (length reqs + 1)); [lia|]. subst verdict.
    match goal with
    | |- context [clientDo env (reqs ++ [req]) next ?w1] =>
        destruct (IH (reqs ++ [req]) next w1) as (resp' & w' & Hrun & Htrips)
    end.
    + rewrite length_app. simpl. lia.
    + intros k req' Hk. simpl trips.
      destruct (Hredir (S k) req' ltac:(lia)) as (r1 & l1 & t1 & H1).
      exists r1, l1, t1.
      replace (S (trips w) + k)%nat with (trips w + S k)%nat by lia. exact H1.
    + intros req'. simpl trips.
      destruct (Hplain req') as (r1 & t1 & H1). exists r1, t1.
      replace (S (trips w) + m)%nat with (trips w + S m)%nat by lia. exact H1.
    + exists resp', w'. rewrite Hrun. split; [reflexivity|].
      rewrite Htrips. simpl. lia.
Qed.

(** C5 (as amended).  The hook gives the upcoming request the
    [Authorization] value of [via[0]], the first request of the chain,
    whatever the request came with and whatever the requests after the
    first carry, and it refuses the request exactly when ten or more
    requests were made before it.  So in every call of the client's
    [Do]: each request that follows a redirect carries the
    [Authorization] value of the first request; at most ten requests
    are made; up to nine redirects are followed, and the answer after
    them is the result; when the first ten answers are redirects the
    call fails, after ten requests, with the hook's error, wrapped with
    the method and the address of the refused redirect. *)
Theorem redirects_keep_authority_and_stop (env : Env) (first : Request) (w : World)
    (r : option Response * option error) (w' : World) :
  Do env first w = (r, w') ->
  exists hops : list Request,
    trace w' = map EvSend (rev (first :: hops)) ++ trace w /\
    Forall (fun hop => Header_Get (ReqHeader hop) "Authorization"
                       = Header_Get (ReqHeader first) "Authorization") hops /\
    (forall (req chainFirst : Request) (later : list Request),
       Header_Get (ReqHeader (fst (CheckRedirect req (chainFirst :: later))))
         "Authorization"
       = Header_Get (ReqHeader chainFirst) "Authorization") /\
    (length (first :: hops) <= 10)%nat /\
    (forall m : nat,
       (m <= 9)%nat ->
       (forall k req, (k < m)%nat ->
          exists resp loc took,
            roundTrip env (trips w + k) req = (Responded resp (Some loc), took)) ->
       (forall req,
          exists resp took,
            roundTrip env (trips w + m) req = (Responded resp None, took)) ->
       length (first :: hops) = S m /\ snd r = None) /\
    ((forall k req, (k < 10)%nat ->
        exists resp loc took,
          roundTrip env (trips w + k) req = (Responded resp (Some loc), took)) ->
     length (first :: hops) = 10%nat /\
     exists loc,
       snd r = Some (urlError (urlErrorOp (Method first)) loc tooManyRedirects)) /\
    (forall req via,
       snd (CheckRedirect req via)
       = if (10 <=? length via)%nat then Some tooManyRedirects else None).
Proof.
  unfold Do. intros H. pose proof H as H'.
  apply (clientDo_spec env 10) in H'; [|simpl; lia].
  destruct H' as (hops & Ht & Hp & _ & _ & _ & _ & Hlen & Hhdr).
  exists hops. repeat apply conj.
  - exact Ht.
  - apply Hhdr. reflexivity.
  - intros req chainFirst later. apply CheckRedirect_header. reflexivity.
  - simpl in *. lia.
  - intros m Hm Hred Hplain.
    destruct (clientDo_follows env m [] first w ltac:(simpl; lia) Hred Hplain)
      as (resp & w2 & Hrun & Htr).
    rewrite H in Hrun. injection Hrun as -> <-. split; [simpl; lia | reflexivity].
  - intros Hred.
    destruct (clientDo_redirect_loop env 9 [] first w)
      as (resp & loc & w2 & Hrun & Htr);
      [reflexivity | intros k req Hk; apply Hred; lia |].
    rewrite H in Hrun. injection Hrun as -> <-. split.
    + simpl. lia.
    + exists loc. reflexivity.
  - apply CheckRedirect_verdict.
Qed.

Lemma redirects_keep_authority_and_stop_witness :
  let run := Do (redirecting 11) requestX world0 in
  length (sentRequests (trace (snd run))) = 10%nat /\
  Forall (fun req => Header_Get (ReqHeader req) "Authorization" = "Bearer secret")
    (sentRequests (trace (snd run))) /\
  exists loc, snd (fst run) = Some (urlError "Get" loc tooManyRedirects).
Proof.
  intros run.
  destruct (redirects_keep_authority_and_stop (redirecting 11) requestX world0
              (fst run) (snd run) (surjective_pairing _))
    as (hops & Ht & Hhdr & _ & _ & _ & Hcap & _).
  destruct Hcap as [Hten He].
  { intros k req Hk. simpl.
    destruct (Nat.ltb_spec k 11) as [_|Hge]; [eauto | lia]. }
  rewrite Ht, app_nil_r, sentRequests_sends. repeat apply conj.
  - exact Hten.
  - constructor; [reflexivity | exact Hhdr].
  - exact He.
Defined.

(** C5 as stated fails twice.  A chain of ten redirects does not exceed
    a cap of ten, and fails: the tenth redirect is refused, after ten
    requests.  And the error of the refused redirect is not always one
    that is not retried: its text holds the address of the redirect, and
    when that holds the text 503 the classifier takes the error for
    retryable; the call is made four times, forty requests in all. *)
Lemma redirects_keep_authority_and_stop_counterexample :
  (let run := doRequestWithRetry (redirecting 10) (clientWith None) Background
                "GET" "/x" None world0 in
   trips (snd run) = 10%nat /\
   exists e, fst run = (None, Some e) /\
             Error e = "request failed: Get " +:+ quoted (hopURL 10)
                       +:+ ": stopped after 10 redirects") /\
  (let run := doRequest redirectingForever (clientWith None) Background
                "GET" "/x" None world0 in
   exists e, fst run = (None, Some e) /\
             Error e = "request failed: Get "
                       +:+ quoted "https://elsewhere.example/v/503/next"
                       +:+ ": stopped after 10 redirects" /\
             isRetryableError (Some e) = true) /\
  (let run := doRequestWithRetry redirectingForever (clientWith None) Background
                "GET" "/x" None world0 in
   attempts (snd run) = 4%nat /\ trips (snd run) = 40%nat /\
   exists e, fst run = (None, Some e) /\
             Error e = "request failed: Get "
                       +:+ quoted "https://elsewhere.example/v/503/next"
                       +:+ ": stopped after 10 redirects").
Proof.
  vm_compute. repeat apply conj; try reflexivity;
    eexists; repeat apply conj; reflexivity.
Qed.

(** The credential is that of the first request of the chain, not that
    of the request before: a hop that comes without the header, after a
    request that carries another credential, is given the first one. *)
Example credential_is_copied_from_the_first :
  let via := [ requestWith "https://api.example/x" "Bearer secret";
               requestWith (hopURL 1) "Bearer other" ] in
  let hop := {| Method := "GET"; URL := hopURL 2; ReqHeader := ∅ |} in
  Header_Get (ReqHeader (fst (CheckRedirect hop via))) "Authorization"
  = "Bearer secret" /\
  snd (CheckRedirect hop via) = None /\
  fst (CheckRedirect hop []) = hop.
Proof. vm_compute. repeat apply conj; reflexivity. Qed.

(** After three redirects, each to a host for which [net/http] drops the
    header, the last request carries the credential of the first. *)
Example three_redirects_keep_credential :
  let run := doRequest (redirecting 3) (clientWith None) Background
               "GET" "/x" None world0 in
  fst run = (Some "ok", None) /\
  map (fun req => (URL req, Header_Get (ReqHeader req) "Authorization"))
    (sentRequests (trace (snd run)))
  = [ ("https://api.example/x", "Bearer secret");
      (hopURL 1, "Bearer secret"); (hopURL 2, "Bearer secret");
      (hopURL 3, "Bearer secret") ].
Proof. vm_compute. split; reflexivity. Qed.

(** A chain of eleven redirects to addresses without a pattern of the
    classifier fails after ten requests, and the call is not tried
    again. *)
Example eleven_redirects_fail_once :
  let run := doRequestWithRetry (redirecting 11) (clientWith None) Background
               "GET" "/x" None world0 in
  (exists e, fst run = (None, Some e) /\
             Error e = "request failed: Get " +:+ quoted (hopURL 10)
                       +:+ ": stopped after 10 redirects" /\
             isRetryableError (Some e) = false) /\
  attempts (snd run) = 1%nat /\ trips (snd run) = 10%nat.
Proof.
  vm_compute. split; [|split; reflexivity].
  eexists. split; [reflexivity|]. split; reflexivity.
Qed.

(** The hook refuses the tenth redirect: nine are followed. *)
Example nine_redirects_pass_ten_fail :
  fst (doRequest (redirecting 9) (clientWith None) Background "GET" "/x" None world0)
  = (Some "ok", None) /\
  trips (snd (doRequest (redirecting 9) (clientWith None) Background
                "GET" "/x" None world0)) = 10%nat /\
  snd (fst (doRequest (redirecting 10) (clientWith None) Background
              "GET" "/x" None world0))
  = Some (Errorf_w "request failed: "
            (urlError "Get" (hopURL 10) tooManyRedirects)).
Proof. vm_compute. repeat apply conj; reflexivity. Qed.

(* ===================================================================== *)
(** * The poller *)

Lemma In_split_left {A : Type} (pre post l1 l2 : list A) (x : A) :
  pre ++ x :: post = l1 ++ l2 -> ~ In x l2 ->
  exists post', l1 = pre ++ x :: post' /\ post = post' ++ l2.
Proof.
  revert l1. induction pre as [|p pre IH]; intros l1 Heq Hnot.
  - destruct l1 as [|a l1]; simpl in Heq.
    + exfalso. apply Hnot. rewrite <- Heq. left. reflexivity.
    + injection Heq as <- Heq. exists l1. split; [reflexivity | assumption].
  - destruct l1 as [|a l1]; simpl in Heq.
    + exfalso. apply Hnot. rewrite <- Heq. right. apply in_elt.
    + injection Heq as <- Heq. destruct (IH l1 Heq Hnot) as (post' & -> & ->).
      exists post'. split; reflexivity.
Qed.

(** Where an element of a concatenation lies, given an element after it
    that is not in the right part. *)
Lemma classic_in_right {A : Type} (pre post l1 l2 : list A) (x y : A) :
  l1 ++ l2 = pre ++ x :: post -> In y post ->
  (exists post', l1 = pre ++ x :: post') \/ In y l2.
Proof.
  revert pre. induction l1 as [|a l1 IH]; intros pre Heq Hy.
  - right. simpl in Heq. rewrite Heq. apply in_or_app. right. right. assumption.
  - destruct pre as [|p pre]; simpl in Heq.
    + injection Heq as -> _. left. exists l1. reflexivity.
    + injection Heq as -> Heq. destruct (IH pre Heq Hy) as [[post' ->]|Hin].
      * left. exists post'. reflexivity.
      * right. assumption.
Qed.

Lemma executor_not_In (x : Event) (evs : list Event) :
  executorEvent x = false -> Forall (fun ev => executorEvent ev = true) evs ->
  ~ In x evs.
Proof.
  intros Hx Hall Hin. rewrite Forall_forall in Hall.
  apply list_elem_of_In in Hin. specialize (Hall x Hin). congruence.
Qed.

(** A call of [GetProcess] leaves the events of the executor and then
    the record of its own return. *)
Lemma GetProcess_spec (env : Env) (c : Client) (ctx : Ctx) (processID : string)
    (w : World) res w' :
  GetProcess env c ctx processID w = (res, w') ->
  exists evs : list Event,
    trace w' = EvGetProcess ctx processID res :: evs ++ trace w /\
    Forall (fun ev => executorEvent ev = true) evs /\
    now w <= now w'.
Proof.
  unfold GetProcess. intros H.
  apply bind_inv in H as ([resp err] & w1 & Hreq & H).
  apply doRequestWithRetry_spec in Hreq as (evs & Ht & Hex & _ & _ & Hnow & _).
  apply bind_inv in H as ([] & w2 & Hlog & H).
  unfold logEvent in Hlog. injection Hlog as <-.
  unfold ret in H. injection H as <- <-. simpl.
  exists evs. rewrite Ht. repeat apply conj; auto.
Qed.

Lemma multiplier_exact : multiplier = Finite (3 # 2).
Proof. reflexivity. Qed.

(** In the range of the poller the product [float64(currentInterval) *
    1.5] is exact: the interval has less than 53 bits and the product
    has one binary place. *)
Lemma nextInterval_product (cur : Z) :
  minInterval <= cur <= maxInterval ->
  fmul (floatOfInt cur) multiplier = Finite (Qred (inject_Z cur * (3 # 2))).
Proof.
  intros [Hlo Hhi]. unfold minInterval, maxInterval, Second, Millisecond in *.
  rewrite floatOfInt_exact, multiplier_exact by lia.
  cbn [fmul]. apply round64_exact.
  - exists (3 * cur), (-1). repeat apply conj; [|lia|unfold emin; lia].
    rewrite inject_Z_mult. change (pow2 (-1)) with (1 # 2)%Q.
    change (inject_Z 3) with 3%Q. ring.
  - assert (0 <= inject_Z cur)%Q
      by (change 0%Q with (inject_Z 0); rewrite <- Zle_Qle; lia).
    pose proof (pow2_pos 1024). lra.
  - assert (inject_Z (2 * cur) < pow2 1024)%Q by (apply pow2_1024_large; lia).
    assert (0 <= inject_Z cur)%Q
      by (change 0%Q with (inject_Z 0); rewrite <- Zle_Qle; lia).
    rewrite inject_Z_mult in *. change (inject_Z 2) with 2%Q in *. lra.
  - reflexivity.
Qed.

Lemma nextInterval_bounds (unrepresentable : float64 -> Z) (cur : Z) :
  minInterval <= cur <= maxInterval ->
  minInterval <= nextInterval unrepresentable cur <= maxInterval.
Proof.
  intros Hcur. unfold nextInterval. rewrite (nextInterval_product cur Hcur).
  destruct Hcur as [Hlo Hhi]. unfold Duration_of_float.
  set (x := Qred (inject_Z cur * (3 # 2))).
  assert (Hcur : (inject_Z cur <= x)%Q /\ (x <= inject_Z (2 * cur))%Q).
  { subst x. rewrite Qred_correct, inject_Z_mult.
    assert (0 <= inject_Z cur)%Q.
    { change 0%Q with (inject_Z 0). rewrite <- Zle_Qle. unfold minInterval, Millisecond in *. lia. }
    change (inject_Z 2) with 2%Q. split; lra. }
  destruct Hcur as [Hx1 Hx2].
  assert (Hx0 : (0 <= x)%Q).
  { apply Qle_trans with (inject_Z cur); [|assumption].
    change 0%Q with (inject_Z 0). rewrite <- Zle_Qle.
    unfold minInterval, Millisecond in *. lia. }
  pose proof (Qtrunc_bounds x Hx0) as (Ht0 & Htle & Htlt).
  assert (Hge : cur <= Qtrunc x).
  { assert (Hlt : cur < Qtrunc x + 1); [|lia].
    rewrite Zlt_Qlt, inject_Z_plus. change (inject_Z 1) with 1%Q. lra. }
  assert (Hle : Qtrunc x <= 2 * cur).
  { rewrite Zle_Qle. lra. }
  unfold maxInterval, minInterval, Second, Millisecond, MinInt64, MaxInt64 in *.
  destruct (Z.leb_spec (- 2 ^ 63) (Qtrunc x)); [|lia].
  destruct (Z.leb_spec (Qtrunc x) (2 ^ 63 - 1)); [|lia].
  simpl andb. cbv iota.
  destruct (Z.ltb_spec (5 * (1000 * 1000000)) (Qtrunc x)); lia.
Qed.

Ltac trace_eq :=
  repeat (rewrite <- ?app_assoc, <- ?app_comm_cons; cbn [app]); reflexivity.

Section PollLoop.
Variables (env : Env) (c : Client) (ctx : Ctx) (processID : string).

(** The shape of a run of the poll loop, read off the events [evs] it
    adds (newest first):
    - a poll wait that the context ended is followed by one call of
      [GetProcess], on the background context, and by nothing else;
      what is returned is the timeout built from that call's result;
    - a failed [GetProcess] on a context with a deadline is the last
      event, and what is returned is its error, wrapped. *)
Lemma pollLoop_spec (fuel : nat) :
  forall (cur : Z) (w : World) r w',
  pollLoop fuel env c ctx processID cur w = (Some r, w') ->
  exists evs : list Event,
    trace w' = evs ++ trace w /\
    now w <= now w' /\
    (forall pre post start d,
       evs = pre ++ EvWait PollWait start d CtxDone :: post ->
       exists final sub,
         pre = EvGetProcess Background processID final :: sub /\
         Forall (fun ev => executorEvent ev = true) sub /\
         r = timeoutResult processID ctx final) /\
    (forall pre post c' id' err,
       evs = pre ++ EvGetProcess c' id' (inl err) :: post ->
       doneAt c' <> None ->
       pre = [] /\
       r = (None, Some (Errorf_w "failed to get process status: " err))).
Proof.
  induction fuel as [|fuel' IH]; intros cur w r w'; [discriminate|].
  cbn [pollLoop]. intros H.
  apply bind_inv in H as (woke & w1 & Hsel & H).
  apply select_spec in Hsel as (Ht1 & _ & _ & _ & _ & Hn1 & Hdone & _).
  destruct woke.
  - (* the interval is over *)
    apply bind_inv in H as (res & w2 & Hget & H).
    apply GetProcess_spec in Hget as (sub & Ht2 & Hsub & Hn2).
    assert (Hown : forall pre post start d,
              EvGetProcess ctx processID res :: sub ++ [EvWait PollWait (now w) cur TimerFired]
              = pre ++ EvWait PollWait start d CtxDone :: post -> False).
    { intros pre post start d Heq.
      assert (Hin : In (EvWait PollWait start d CtxDone)
                      (EvGetProcess ctx processID res :: sub
                       ++ [EvWait PollWait (now w) cur TimerFired])).
      { rewrite Heq. apply in_elt. }
      destruct Hin as [Hin|Hin]; [discriminate|].
      apply in_app_or in Hin as [Hin|[Hin|[]]]; [|discriminate].
      revert Hin. apply executor_not_In; [reflexivity | assumption]. }
    assert (Hfetch : forall pre post c' id' err,
              EvGetProcess ctx processID res :: sub ++ [EvWait PollWait (now w) cur TimerFired]
              = pre ++ EvGetProcess c' id' (inl err) :: post ->
              pre = [] /\ res = inl err).
    { intros pre post c' id' err Heq.
      destruct pre as [|p pre]; simpl in Heq.
      - injection Heq as _ _ -> _. auto.
      - exfalso. injection Heq as _ Heq.
        assert (Hin : In (EvGetProcess c' id' (inl err))
                        (sub ++ [EvWait PollWait (now w) cur TimerFired])).
        { rewrite Heq. apply in_elt. }
        apply in_app_or in Hin as [Hin|[Hin|[]]]; [|discriminate].
        revert Hin. apply executor_not_In; [reflexivity | assumption]. }
    destruct res as [err|process].
    { (* the fetch failed *)
      unfold ret in H. injection H as <- <-.
      exists (EvGetProcess ctx processID (inl err) :: sub
              ++ [EvWait PollWait (now w) cur TimerFired]).
      repeat apply conj.
      - rewrite Ht2, Ht1. trace_eq.
      - lia.
      - intros pre post start d Heq. exfalso. eapply Hown; eauto.
      - intros pre post c' id' err' Heq _.
        destruct (Hfetch _ _ _ _ _ Heq) as [-> [= ->]]. auto. }
    destruct (switchStatus processID process) as [out|] eqn:Hsw.
    { (* a terminal status *)
      unfold ret in H. injection H as <- <-.
      exists (EvGetProcess ctx processID (inr process) :: sub
              ++ [EvWait PollWait (now w) cur TimerFired]).
      repeat apply conj.
      - rewrite Ht2, Ht1. trace_eq.
      - lia.
      - intros pre post start d Heq. exfalso. eapply Hown; eauto.
      - intros pre post c' id' err' Heq _.
        destruct (Hfetch _ _ _ _ _ Heq) as [_ [=]]. }
    (* on to the next round *)
    apply IH in H as (evs & Ht & Hn & Htimeout & Hfail).
    exists (evs ++ EvGetProcess ctx processID (inr process) :: sub
            ++ [EvWait PollWait (now w) cur TimerFired]).
    repeat apply conj.
    + rewrite Ht, Ht2, Ht1. trace_eq.
    + lia.
    + intros pre post start d Heq. symmetry in Heq.
      apply In_split_left in Heq as (post' & Hevs & _).
      * eapply Htimeout; eauto.
      * intros [Hin|Hin]; [discriminate|].
        apply in_app_or in Hin as [Hin|[Hin|[]]]; [|discriminate].
        revert Hin. apply executor_not_In; [reflexivity | assumption].
    + intros pre post c' id' err Heq Hc'. symmetry in Heq.
      apply In_split_left in Heq as (post' & Hevs & _).
      * eapply Hfail; eauto.
      * intros [Hin|Hin]; [discriminate|].
        apply in_app_or in Hin as [Hin|[Hin|[]]]; [|discriminate].
        revert Hin. apply executor_not_In; [reflexivity | assumption].
  - (* the deadline has passed *)
    destruct (Hdone eq_refl) as (t & Hdt & Hmax & _).
    apply bind_inv in H as (final & w2 & Hget & H).
    apply GetProcess_spec in Hget as (sub & Ht2 & Hsub & Hn2).
    assert (Hr : r = timeoutResult processID ctx final /\ w' = w2).
    { destruct final as [err|finalProcess].
      - apply bind_inv in H as (t0 & w3 & Hclk & H).
        unfold clock in Hclk. injection Hclk as <- <-.
        unfold ret in H. injection H as <- <-.
        rewrite (ctx_Err_done ctx t (now w2) Hdt ltac:(lia)). auto.
      - unfold ret in H. injection H as <- <-. auto. }
    destruct Hr as [-> ->].
    exists (EvGetProcess Background processID final :: sub
            ++ [EvWait PollWait (now w) cur CtxDone]).
    repeat apply conj.
    + rewrite Ht2, Ht1. trace_eq.
    + lia.
    + intros pre post start d Heq.
      exists final, sub. split; [|auto].
      destruct pre as [|p pre]; simpl in Heq; [discriminate|].
      injection Heq as <- Heq. f_equal.
      revert pre Heq. clear - Hsub.
      induction sub as [|s sub IHs]; intros pre Heq.
      * destruct pre as [|p pre]; [reflexivity|].
        simpl in Heq. injection Heq as _ Heq. destruct pre; discriminate.
      * inversion Hsub as [|? ? Hs Hsub']; subst.
        destruct pre as [|p pre]; simpl in Heq.
        { injection Heq as -> _. discriminate. }
        injection Heq as <- Heq. f_equal. apply IHs; assumption.
    + intros pre post c' id' err Heq Hc'. exfalso.
      destruct pre as [|p pre]; simpl in Heq.
      * injection Heq as <- _ _. apply Hc'. reflexivity.
      * injection Heq as _ Heq.
        assert (Hin : In (EvGetProcess c' id' (inl err))
                        (sub ++ [EvWait PollWait (now w) cur CtxDone])).
        { rewrite Heq. apply in_elt. }
        apply in_app_or in Hin as [Hin|[Hin|[]]]; [|discriminate].
        revert Hin. apply executor_not_In; [reflexivity | assumption].
Qed.
End PollLoop.

Lemma WaitForProcess_spec (fuel : nat) (env : Env) (c : Client) (ctx : Ctx)
    (processID : string) (timeout : Z) (w : World) r w' :
  WaitForProcess fuel env c ctx processID timeout w = (Some r, w') ->
  exists evs : list Event,
    trace w' = evs ++ trace w /\
    now w <= now w' /\
    (forall pre post start d,
       evs = pre ++ EvWait PollWait start d CtxDone :: post ->
       exists final sub,
         pre = EvGetProcess Background processID final :: sub /\
         Forall (fun ev => executorEvent ev = true) sub /\
         r = timeoutResult processID (WithTimeout ctx timeout (now w)) final) /\
    (forall pre post c' id' err,
       evs = pre ++ EvGetProcess c' id' (inl err) :: post ->
       doneAt c' <> None ->
       (exists ev, In ev post /\ isPollWait ev = true) ->
       pre = [] /\
       r = (None, Some (Errorf_w "failed to get process status: " err))).
Proof.
  unfold WaitForProcess. intros H.
  apply bind_inv in H as (t0 & w0 & Hclk & H).
  unfold clock in Hclk. injection Hclk as <- <-.
  set (ctx' := WithTimeout ctx timeout (now w)) in *.
  apply bind_inv in H as (res & w1 & Hget & H).
  apply GetProcess_spec in Hget as (sub & Ht1 & Hsub & Hn1).
  assert (Hnopoll : forall ev, In ev (EvGetProcess ctx' processID res :: sub) ->
                       isPollWait ev = false).
  { intros ev [<-|Hin]; [reflexivity|].
    rewrite Forall_forall in Hsub. apply list_elem_of_In in Hin.
    specialize (Hsub _ Hin). destruct ev as [| | [] | ]; simpl in *; congruence. }
  assert (Hloop : forall r0 w2,
            pollLoop fuel env c ctx' processID minInterval w1 = (Some r0, w2) ->
            exists evs : list Event,
              trace w2 = evs ++ trace w /\ now w <= now w2 /\
              (forall pre post start d,
                 evs = pre ++ EvWait PollWait start d CtxDone :: post ->
                 exists final sub,
                   pre = EvGetProcess Background processID final :: sub /\
                   Forall (fun ev => executorEvent ev = true) sub /\
                   r0 = timeoutResult processID ctx' final) /\
              (forall pre post c' id' err,
                 evs = pre ++ EvGetProcess c' id' (inl err) :: post ->
                 doneAt c' <> None ->
                 (exists ev, In ev post /\ isPollWait ev = true) ->
                 pre = [] /\
                 r0 = (None, Some (Errorf_w "failed to get process status: " err)))).
  { intros r0 w2 Hpoll.
    apply pollLoop_spec in Hpoll as (evs & Ht & Hn & Htimeout & Hfail).
    exists (evs ++ EvGetProcess ctx' processID res :: sub).
    repeat apply conj.
    - rewrite Ht, Ht1. trace_eq.
    - lia.
    - intros pre post start d Heq. symmetry in Heq.
      apply In_split_left in Heq as (post' & Hevs & _).
      + eapply Htimeout; eauto.
      + intros Hin. apply Hnopoll in Hin. discriminate.
    - intros pre post c' id' err Heq Hc' (ev & Hev & Hpw).
      destruct (classic_in_right pre post evs (EvGetProcess ctx' processID res :: sub)
                  (EvGetProcess c' id' (inl err)) ev Heq Hev) as [Hleft|Hright].
      + destruct Hleft as (post' & Hevs). eapply Hfail; eauto.
      + apply Hnopoll in Hright. congruence. }
  destruct res as [err|process].
  - apply Hloop. exact H.
  - destruct (switchStatus processID process) as [out|] eqn:Hsw.
    + unfold ret in H. injection H as <- <-.
      exists (EvGetProcess ctx' processID (inr process) :: sub).
      repeat apply conj; auto.
      * intros pre post start d Heq. exfalso.
        assert (Hin : In (EvWait PollWait start d CtxDone)
                        (EvGetProcess ctx' processID (inr process) :: sub)).
        { rewrite Heq. apply in_elt. }
        apply Hnopoll in Hin. discriminate.
      * intros pre post c' id' err Heq _ (ev & Hev & Hpw). exfalso.
        assert (Hin : In ev (EvGetProcess ctx' processID (inr process) :: sub)).
        { rewrite Heq. apply in_or_app. right. right. assumption. }
        apply Hnopoll in Hin. congruence.
    + apply Hloop. exact H.
Qed.

Lemma WithTimeout_done (parent : Ctx) (timeout t : Z) :
  exists d, doneAt (WithTimeout parent timeout t) = Some d /\ d <= t + timeout.
Proof.
  unfold WithTimeout. destruct (doneAt parent) as [p|] eqn:Hp.
  - destruct (Z.ltb_spec p (t + timeout)).
    + exists p. rewrite Hp. split; [reflexivity | lia].
    + exists (t + timeout). split; [reflexivity | lia].
  - exists (t + timeout). split; [reflexivity | lia].
Qed.

(** The poll loop ends: each round that does not end it moves the clock
    by at least [minInterval] towards the deadline. *)
Lemma pollLoop_terminates (env : Env) (c : Client) (ctx : Ctx) (processID : string)
    (t : Z) :
  doneAt ctx = Some t ->
  forall (n fuel : nat) (cur : Z) (w : World),
  minInterval <= cur <= maxInterval ->
  t - now w <= Z.of_nat n * minInterval ->
  (n < fuel)%nat ->
  exists r w', pollLoop fuel env c ctx processID cur w = (Some r, w').
Proof.
  intros Hdt. induction n as [|n IH]; intros fuel cur w Hcur Hleft Hfuel.
  all: destruct fuel as [|fuel']; [lia|].
  all: cbn [pollLoop]; unfold bind.
  all: destruct (selectDoneOrAfter env PollWait ctx cur w) as [woke w1] eqn:Hsel.
  all: pose proof Hsel as Hsel';
    apply select_spec in Hsel' as (_ & _ & _ & _ & _ & _ & _ & Htimer).
  all: destruct woke;
    [ destruct (Htimer eq_refl) as [Hnow1 Hge]; specialize (Hge t Hdt)
    | destruct (GetProcess env c Background processID w1) as [[err|p] w2];
      unfold ret, clock; eauto ].
  all: assert (Hpos : 0 < minInterval) by (unfold minInterval, Millisecond; lia).
  - exfalso. lia.
  - destruct (GetProcess env c ctx processID w1) as [[err|p] w2] eqn:Hget;
      [unfold ret; eauto|].
    destruct (switchStatus processID p); [unfold ret; eauto|].
    apply GetProcess_spec in Hget as (_ & _ & _ & Hn2).
    apply (IH fuel' (nextInterval (unrepresentable env) cur) w2).
    + apply nextInterval_bounds. assumption.
    + lia.
    + lia.
Qed.

(** [WaitForProcess] returns, given fuel enough for the timeout. *)
Lemma WaitForProcess_terminates (env : Env) (c : Client) (ctx : Ctx)
    (processID : string) (timeout : Z) (w : World) :
  exists fuel0 : nat, forall fuel : nat, (fuel0 <= fuel)%nat ->
    exists r w', WaitForProcess fuel env c ctx processID timeout w = (Some r, w').
Proof.
  destruct (WithTimeout_done ctx timeout (now w)) as (t & Hdt & _).
  unfold WaitForProcess, bind, clock.
  destruct (GetProcess env c (WithTimeout ctx timeout (now w)) processID w)
    as [res w1] eqn:Hget.
  exists (S (Z.to_nat ((t - now w1) / minInterval + 1))).
  intros fuel Hfuel.
  assert (Hloop : exists r w',
            pollLoop fuel env c (WithTimeout ctx timeout (now w)) processID
              minInterval w1 = (Some r, w')).
  { apply (pollLoop_terminates env c _ processID t Hdt
             (Z.to_nat ((t - now w1) / minInterval + 1))).
    - unfold minInterval, maxInterval, Second, Millisecond. lia.
    - assert (Hpos : 0 < minInterval) by (unfold minInterval, Millisecond; lia).
      destruct (Z.le_gt_cases 0 (t - now w1)) as [Hnonneg|Hneg].
      + rewrite Z2Nat.id by (pose proof (Z.div_pos (t - now w1) minInterval); lia).
        pose proof (Z.mul_succ_div_gt (t - now w1) minInterval Hpos). lia.
      + assert (0 <= Z.of_nat (Z.to_nat ((t - now w1) / minInterval + 1)) * minInterval)
          by (apply Z.mul_nonneg_nonneg; lia).
        lia.
    - lia. }
  destruct res as [err|p]; [exact Hloop|].
  destruct (switchStatus processID p); [unfold ret; eauto | exact Hloop].
Qed.

(** More fuel does not change what the loop returns. *)
Lemma pollLoop_more_fuel (env : Env) (c : Client) (ctx : Ctx) (processID : string)
    (fuel : nat) :
  forall (fuel' : nat) (cur : Z) (w : World) r w',
  (fuel <= fuel')%nat ->
  pollLoop fuel env c ctx processID cur w = (Some r, w') ->
  pollLoop fuel' env c ctx processID cur w = (Some r, w').
Proof.
  induction fuel as [|fuel IH]; intros fuel' cur w r w' Hle; [discriminate|].
  destruct fuel' as [|fuel']; [lia|].
  cbn [pollLoop]. unfold bind.
  destruct (selectDoneOrAfter env PollWait ctx cur w) as [[|] w1]; [|auto].
  destruct (GetProcess env c ctx processID w1) as [[err|p] w2]; [auto|].
  destruct (switchStatus processID p); [auto|].
  apply IH. lia.
Qed.

Lemma WaitForProcess_more_fuel (fuel fuel' : nat) (env : Env) (c : Client)
    (ctx : Ctx) (processID : string) (timeout : Z) (w : World) r w' :
  (fuel <= fuel')%nat ->
  WaitForProcess fuel env c ctx processID timeout w = (Some r, w') ->
  WaitForProcess fuel' env c ctx processID timeout w = (Some r, w').
Proof.
  intros Hle. unfold WaitForProcess, bind, clock.
  destruct (GetProcess env c (WithTimeout ctx timeout (now w)) processID w)
    as [[err|p] w1].
  - apply pollLoop_more_fuel. assumption.
  - destruct (switchStatus processID p); [auto|].
    apply pollLoop_more_fuel. assumption.
Qed.

(* ===================================================================== *)
(** * Properties of the poller *)

Lemma countEvents_app (kind : Event -> bool) (a b : list Event) :
  countEvents kind (a ++ b) = (countEvents kind a + countEvents kind b)%nat.
Proof. unfold countEvents. rewrite List.filter_app, length_app. reflexivity. Qed.

Lemma countEvents_cons (kind : Event -> bool) (ev : Event) (evs : list Event) :
  countEvents kind (ev :: evs)
  = ((if kind ev then 1 else 0) + countEvents kind evs)%nat.
Proof. unfold countEvents. simpl. destruct (kind ev); reflexivity. Qed.

Lemma executor_no_final_fetch (evs : list Event) :
  Forall (fun ev => executorEvent ev = true) evs ->
  countEvents isFreeFetch evs = 0%nat /\ countEvents isDeadlineWait evs = 0%nat.
Proof.
  induction 1 as [|ev evs Hev _ [IH1 IH2]]; [auto|].
  rewrite !countEvents_cons, IH1, IH2.
  destruct ev as [| | [] | ]; simpl in *; try discriminate; auto.
Qed.

(** A round of the loop: a wait, the events of the executor, the record
    of the look. *)
Lemma countEvents_round (kind : Event -> bool) (look wait : Event)
    (sub : list Event) :
  countEvents kind sub = 0%nat ->
  countEvents kind (look :: sub ++ [wait])
  = ((if kind look then 1 else 0) + (if kind wait then 1 else 0))%nat.
Proof.
  intros H. rewrite countEvents_cons, countEvents_app, H, countEvents_cons.
  unfold countEvents at 1. simpl. lia.
Qed.

Lemma deadline_wait_found (evs : list Event) :
  countEvents isDeadlineWait evs <> 0%nat ->
  exists pre post start d, evs = pre ++ EvWait PollWait start d CtxDone :: post.
Proof.
  induction evs as [|ev evs IH]; intros H; [contradiction H; reflexivity|].
  rewrite countEvents_cons in H.
  destruct (isDeadlineWait ev) eqn:Hev.
  - destruct ev as [| | [] ? ? [] | ]; try discriminate.
    exists [], evs. eauto.
  - destruct (IH H) as (pre & post & start & d & ->).
    exists (ev :: pre), post, start, d. reflexivity.
Qed.

(** The loop makes a look on a context without deadline exactly when one
    of its waits is ended by the context, and that happens at most
    once. *)
Lemma pollLoop_final_fetch (env : Env) (c : Client) (ctx : Ctx) (processID : string)
    (fuel : nat) :
  doneAt ctx <> None ->
  forall (cur : Z) (w : World) r w',
  pollLoop fuel env c ctx processID cur w = (Some r, w') ->
  exists evs : list Event,
    trace w' = evs ++ trace w /\
    countEvents isFreeFetch evs = countEvents isDeadlineWait evs /\
    (countEvents isDeadlineWait evs <= 1)%nat.
Proof.
  intros Hctx.
  assert (Hown : isFreeFetch (EvGetProcess ctx processID (inl (errorString EmptyString)))
                 = false).
  { simpl. destruct (doneAt ctx); [reflexivity | contradiction Hctx; reflexivity]. }
  induction fuel as [|fuel' IH]; intros cur w r w'; [discriminate|].
  cbn [pollLoop]. intros H.
  apply bind_inv in H as (woke & w1 & Hsel & H).
  apply select_spec in Hsel as (Ht1 & _).
  assert (Hone : forall res sub w2,
            trace w2 = EvGetProcess ctx processID res :: sub ++ trace w1 ->
            Forall (fun ev => executorEvent ev = true) sub ->
            woke = TimerFired ->
            exists evs : list Event,
              trace w2 = evs ++ trace w /\
              countEvents isFreeFetch evs = 0%nat /\
              countEvents isDeadlineWait evs = 0%nat).
  { intros res sub w2 Ht2 Hsub ->.
    destruct (executor_no_final_fetch sub Hsub) as [Hf Hd].
    exists (EvGetProcess ctx processID res :: sub
            ++ [EvWait PollWait (now w) cur TimerFired]).
    repeat apply conj.
    - rewrite Ht2, Ht1. trace_eq.
    - rewrite countEvents_round by assumption. simpl in *. rewrite Hown. reflexivity.
    - rewrite countEvents_round by assumption. reflexivity. }
  destruct woke.
  - apply bind_inv in H as (res & w2 & Hget & H).
    apply GetProcess_spec in Hget as (sub & Ht2 & Hsub & _).
    destruct (Hone res sub w2 Ht2 Hsub eq_refl) as (evs1 & Hevs1 & Hf1 & Hd1).
    destruct res as [err|process].
    { unfold ret in H. injection H as <- <-.
      exists evs1. rewrite Hf1, Hd1. auto. }
    destruct (switchStatus processID process) as [out|].
    { unfold ret in H. injection H as <- <-.
      exists evs1. rewrite Hf1, Hd1. auto. }
    apply IH in H as (evs & Ht & Heq & Hle).
    exists (evs ++ evs1). repeat apply conj.
    + rewrite Ht, Hevs1. trace_eq.
    + rewrite !countEvents_app, Hf1, Hd1. lia.
    + rewrite countEvents_app, Hd1. lia.
  - apply bind_inv in H as (final & w2 & Hget & H).
    apply GetProcess_spec in Hget as (sub & Ht2 & Hsub & _).
    destruct (executor_no_final_fetch sub Hsub) as [Hf Hd].
    assert (Hw : trace w' = trace w2).
    { destruct final as [err|finalProcess].
      - apply bind_inv in H as (t0 & w3 & Hclk & H).
        unfold clock in Hclk. injection Hclk as <- <-.
        unfold ret in H. injection H as <- <-. reflexivity.
      - unfold ret in H. injection H as <- <-. reflexivity. }
    exists (EvGetProcess Background processID final :: sub
            ++ [EvWait PollWait (now w) cur CtxDone]).
    repeat apply conj.
    + rewrite Hw, Ht2, Ht1. trace_eq.
    + rewrite !countEvents_round by assumption. reflexivity.
    + rewrite countEvents_round by assumption. simpl. lia.
Qed.

Lemma WaitForProcess_final_fetch (fuel : nat) (env : Env) (c : Client) (ctx : Ctx)
    (processID : string) (timeout : Z) (w : World) r w' :
  WaitForProcess fuel env c ctx processID timeout w = (Some r, w') ->
  exists evs : list Event,
    trace w' = evs ++ trace w /\
    countEvents isFreeFetch evs = countEvents isDeadlineWait evs /\
    (countEvents isDeadlineWait evs <= 1)%nat.
Proof.
  unfold WaitForProcess. intros H.
  apply bind_inv in H as (t0 & w0 & Hclk & H).
  unfold clock in Hclk. injection Hclk as <- <-.
  set (ctx' := WithTimeout ctx timeout (now w)) in *.
  assert (Hctx : doneAt ctx' <> None).
  { destruct (WithTimeout_done ctx timeout (now w)) as (d & Hd & _).
    fold ctx' in Hd. congruence. }
  apply bind_inv in H as (res & w1 & Hget & H).
  apply GetProcess_spec in Hget as (sub & Ht1 & Hsub & _).
  destruct (executor_no_final_fetch sub Hsub) as [Hf Hd].
  assert (Hfirst : countEvents isFreeFetch (EvGetProcess ctx' processID res :: sub) = 0%nat
                   /\ countEvents isDeadlineWait (EvGetProcess ctx' processID res :: sub)
                      = 0%nat).
  { rewrite !countEvents_cons, Hf, Hd. simpl.
    destruct (doneAt ctx'); [auto | contradiction Hctx; reflexivity]. }
  destruct Hfirst as [Hf1 Hd1].
  assert (Hloop : forall r0 w2,
            pollLoop fuel env c ctx' processID minInterval w1 = (Some r0, w2) ->
            exists evs : list Event,
              trace w2 = evs ++ trace w /\
              countEvents isFreeFetch evs = countEvents isDeadlineWait evs /\
              (countEvents isDeadlineWait evs <= 1)%nat).
  { intros r0 w2 Hpoll.
    apply (pollLoop_final_fetch env c ctx' processID fuel Hctx) in Hpoll
      as (evs & Ht & Heq & Hle).
    exists (evs ++ EvGetProcess ctx' processID res :: sub). repeat apply conj.
    - rewrite Ht, Ht1. trace_eq.
    - rewrite !countEvents_app, Hf1, Hd1. lia.
    - rewrite countEvents_app, Hd1. lia. }
  destruct res as [err|process]; [exact (Hloop _ _ H)|].
  destruct (switchStatus processID process) as [out|]; [|exact (Hloop _ _ H)].
  unfold ret in H. injection H as <- <-.
  exists (EvGetProcess ctx' processID (inr process) :: sub).
  rewrite Hf1, Hd1. repeat apply conj; auto.
Qed.

(** C2 (as amended).  In every run of [WaitForProcess], a look on a
    context without deadline is made exactly when a poll wait is ended
    by the deadline, and that happens at most once.  When it happens,
    what follows the wait is one call of [GetProcess], made on the
    background context, and nothing else; what is returned is built from
    the result of that call alone: the process it found together with a
    timeout error that names its status, whatever the status is, or no
    process and the context's error, wrapped.  The error is never [nil];
    a process is returned exactly when the last look succeeded.  A look
    of the loop that fails on the context with the deadline, as it does
    when the deadline passes during it, ends the call with its error:
    no wait was ended by the deadline and no last look is made. *)
Theorem deadline_then_one_final_fetch (fuel : nat) (env : Env) (c : Client)
    (ctx : Ctx) (processID : string) (timeout : Z) (w : World) r w' :
  WaitForProcess fuel env c ctx processID timeout w = (Some r, w') ->
  exists evs : list Event,
    trace w' = evs ++ trace w /\
    countEvents isFreeFetch evs = countEvents isDeadlineWait evs /\
    (countEvents isDeadlineWait evs <= 1)%nat /\
    (forall (pre post : list Event) (start d : Z),
       evs = pre ++ EvWait PollWait start d CtxDone :: post ->
       exists (final : error + Process) (sub : list Event),
         pre = EvGetProcess Background processID final :: sub /\
         Forall (fun ev => executorEvent ev = true) sub /\
         doneAt Background = None /\
         r = timeoutResult processID (WithTimeout ctx timeout (now w)) final /\
         snd r <> None /\
         (forall p, final = inr p ->
            r = (Some p,
                 Some (errorString ("timeout waiting for process " +:+ processID
                                    +:+ " (last status: " +:+ Status p +:+ ")"))))) /\
    (forall (pre post : list Event) (c' : Ctx) (id' : string) (err : error),
       evs = pre ++ EvGetProcess c' id' (inl err) :: post ->
       doneAt c' <> None ->
       (exists ev, In ev post /\ isPollWait ev = true) ->
       pre = [] /\
       countEvents isDeadlineWait evs = 0%nat /\
       countEvents isFreeFetch evs = 0%nat /\
       r = (None, Some (Errorf_w "failed to get process status: " err))).
Proof.
  intros H. pose proof H as H'.
  apply WaitForProcess_spec in H as (evs & Ht & _ & Htimeout & Hfail).
  apply WaitForProcess_final_fetch in H' as (evs' & Ht' & Heq & Hle).
  assert (evs' = evs) by (apply (app_inv_tail (trace w)); congruence). subst evs'.
  exists evs. repeat apply conj; try assumption.
  - intros pre post start d Hevs.
    destruct (Htimeout _ _ _ _ Hevs) as (final & sub & Hpre & Hsub & Hr).
    exists final, sub. repeat apply conj; auto.
    + rewrite Hr. destruct final; discriminate.
    + intros p ->. exact Hr.
  - intros pre post c' id' err Hevs Hc' Hpoll.
    destruct (Hfail _ _ _ _ _ Hevs Hc' Hpoll) as [-> ->].
    assert (Hnone : countEvents isDeadlineWait evs = 0%nat).
    { destruct (Nat.eq_dec (countEvents isDeadlineWait evs) 0%nat) as [|Hne];
        [assumption|].
      exfalso. apply deadline_wait_found in Hne as (pre & post' & start & d & Hsplit).
      destruct (Htimeout _ _ _ _ Hsplit) as (final & sub & Hpre & _).
      rewrite Hsplit, Hpre in Hevs. simpl in Hevs. injection Hevs as <- _.
      apply Hc'. reflexivity. }
    repeat apply conj; auto. rewrite Heq. exact Hnone.
Qed.

(** The process has succeeded when the deadline passes: the caller gets
    the process, and an error. *)
Lemma deadline_then_one_final_fetch_witness :
  fst (WaitForProcess 5 finishesLate (clientWith None) Background "p1"
         (1 * Second) world0)
  = Some (Some (processWith "SUCCESS"),
          Some (errorString "timeout waiting for process p1 (last status: SUCCESS)")).
Proof.
  destruct (deadline_then_one_final_fetch 5 finishesLate (clientWith None)
              Background "p1" (1 * Second) world0
              (Some (processWith "SUCCESS"),
               Some (errorString "timeout waiting for process p1 (last status: SUCCESS)"))
              (snd (WaitForProcess 5 finishesLate (clientWith None) Background "p1"
                      (1 * Second) world0))
              ltac:(vm_compute; reflexivity))
    as (evs & Ht & _ & _ & Htimeout & _).
  destruct (Htimeout
              [ EvGetProcess Background "p1" (inr (processWith "SUCCESS"));
                EvAttempt (Some (processJSON "SUCCESS"), None);
                EvSend requestP1 ]
              [ EvGetProcess (deadlineAt (1 * Second)) "p1" (inr (processWith "PENDING"));
                EvAttempt (Some (processJSON "PENDING"), None);
                EvSend requestP1;
                EvWait PollWait 0 (500 * Millisecond) TimerFired;
                EvGetProcess (deadlineAt (1 * Second)) "p1" (inr (processWith "PENDING"));
                EvAttempt (Some (processJSON "PENDING"), None);
                EvSend requestP1 ]
              (500 * Millisecond) (750 * Millisecond))
    as (final & sub & Hpre & _ & _ & Hr & _).
  - apply (app_inv_tail (trace world0)). rewrite <- Ht. vm_compute. reflexivity.
  - injection Hpre as <- _. vm_compute. reflexivity.
Defined.

(** C2 as stated fails twice.  The last look, made when the deadline
    passes during a wait, finds the process in the status SUCCESS, and
    the caller is given a timeout error all the same.  And when the
    deadline (550ms) passes during a look of the loop, here during the
    backoff wait that follows a 503, no look is made on the background
    context: the call ends with the error of the look. *)
Lemma deadline_then_one_final_fetch_counterexample :
  (let run := WaitForProcess 5 finishesLate (clientWith None) Background "p1"
                (1 * Second) world0 in
   head (trace (snd run))
   = Some (EvGetProcess Background "p1" (inr (processWith "SUCCESS"))) /\
   switchStatus "p1" (processWith "SUCCESS") = Some (Some (processWith "SUCCESS"), None) /\
   fst run <> Some (Some (processWith "SUCCESS"), None) /\
   fst run = Some (Some (processWith "SUCCESS"),
                   Some (errorString
                           "timeout waiting for process p1 (last status: SUCCESS)"))) /\
  (let run := WaitForProcess 5 turnsUnavailable (clientWith None) Background "p1"
                (550 * Millisecond) world0 in
   now (snd run) = 550 * Millisecond /\
   fetches (trace (snd run))
   = [ (deadlineAt (550 * Millisecond), inr (processWith "PENDING"));
       (deadlineAt (550 * Millisecond), inl DeadlineExceeded) ] /\
   countEvents isFreeFetch (trace (snd run)) = 0%nat /\
   fst run = Some (None,
                   Some (Errorf_w "failed to get process status: " DeadlineExceeded)) /\
   Error (Errorf_w "failed to get process status: " DeadlineExceeded)
   = "failed to get process status: context deadline exceeded").
Proof. vm_compute. repeat apply conj; try reflexivity. discriminate. Qed.

Lemma pollDelays_app (evs evs' : list Event) :
  pollDelays (evs ++ evs') = pollDelays evs' ++ pollDelays evs.
Proof.
  induction evs as [|[| | [] | ] evs IH]; simpl;
    rewrite ?app_nil_r, ?IH, ?app_assoc; reflexivity.
Qed.

Lemma fetches_app (evs evs' : list Event) :
  fetches (evs ++ evs') = fetches evs' ++ fetches evs.
Proof.
  induction evs as [|[] evs IH]; simpl;
    rewrite ?app_nil_r, ?IH, ?app_assoc; reflexivity.
Qed.

Lemma executor_no_polls (evs : list Event) :
  Forall (fun ev => executorEvent ev = true) evs ->
  pollDelays evs = [] /\ fetches evs = [].
Proof.
  induction 1 as [|ev evs Hev _ [IH1 IH2]]; [auto|].
  destruct ev as [| | [] | ]; simpl in *; try discriminate; auto.
Qed.







(** The polls of the scenario of the specification: a process that
    succeeds after 2.1s is polled at 500ms, 1250ms and 2375ms. *)
Example poll_offsets :
  let env := scenario (fun k _ =>
               if (k <? 3)%nat then respond 200 (processJSON "RUNNING")
               else respond 200 (processJSON "SUCCESS")) in
  let run := WaitForProcess 5 env (clientWith None) Background "p1"
               (30 * Second) world0 in
  fst run = Some (Some (processWith "SUCCESS"), None) /\
  pollDelays (trace (snd run))
  = [500 * Millisecond; 750 * Millisecond; 1125 * Millisecond] /\
  now (snd run) = 2375 * Millisecond.
Proof. vm_compute. repeat apply conj; reflexivity. Qed.

(* ===================================================================== *)
(** * Further properties of the executor *)

(** X1 (retry.go, doRequestWithRetry): with a negative [MaxRetries] the
    loop body never runs: no request is made, nothing is waited for, and
    the call returns no payload and no error. *)
Theorem negative_retries_make_no_request (env : Env) (c : Client) (ctx : Ctx)
    (method path : string) (body : option Payload) (w : World) :
  MaxRetries (retryConfig c) < 0 ->
  doRequestWithRetry env c ctx method path body w = ((None, None), w).
Proof.
  intros Hneg. unfold doRequestWithRetry, effectiveConfig.
  destruct (Z.eqb_spec (MaxRetries (retryConfig c)) 0) as [H0|_]; [lia|].
  unfold attemptRange.
  replace (Z.to_nat (MaxRetries (retryConfig c) + 1)) with 0%nat by lia.
  reflexivity.
Qed.

Lemma negative_retries_make_no_request_witness :
  MaxRetries (retryConfig (clientWith (Some (policy (-1))))) < 0 /\
  doRequestWithRetry env503 (clientWith (Some (policy (-1)))) Background
    "GET" "/x" None world0 = ((None, None), world0).
Proof.
  split; [reflexivity|].
  apply (negative_retries_make_no_request env503 (clientWith (Some (policy (-1))))
           Background "GET" "/x" None world0).
  reflexivity.
Defined.

(** X2 (retry.go, doRequestWithRetry): when [MaxRetries] is not negative
    and the first attempt succeeds, or fails with an error that
    [isRetryableError] does not take for retryable, the call is that one
    [doRequest] and nothing else: same result, no random draw, no wait,
    no second attempt. *)
Theorem decisive_first_attempt (env : Env) (c : Client) (ctx : Ctx)
    (method path : string) (body : option Payload) (w : World) :
  0 <= MaxRetries (retryConfig c) ->
  isRetryableError (snd (fst (doRequest env c ctx method path body w))) = false ->
  doRequestWithRetry env c ctx method path body w
  = doRequest env c ctx method path body w.
Proof.
  intros Hpos Hdec. unfold doRequestWithRetry.
  assert (Hm : 0 <= MaxRetries (effectiveConfig c)).
  { unfold effectiveConfig.
    destruct (Z.eqb_spec (MaxRetries (retryConfig c)) 0); [simpl; lia|lia]. }
  unfold attemptRange.
  destruct (Z.to_nat (MaxRetries (effectiveConfig c) + 1)) as [|n] eqn:Hn; [lia|].
  simpl. unfold bind at 1.
  destruct (doRequest env c ctx method path body w) as [[resp err] w1] eqn:Hd.
  simpl in Hdec.
  destruct err as [e|]; [|reflexivity].
  rewrite Hdec. simpl.
  apply doRequest_spec in Hd as (_ & _ & _ & _ & _ & _ & _ & _ & _ & Hnil).
  simpl in Hnil. rewrite Hnil by discriminate. reflexivity.
Qed.

Lemma decisive_first_attempt_witness :
  0 <= MaxRetries (retryConfig (clientWith None)) /\
  isRetryableError
    (snd (fst (doRequest envNotFound (clientWith None) Background
                 "GET" "/x" None world0))) = false /\
  doRequestWithRetry envNotFound (clientWith None) Background "GET" "/x" None world0
  = doRequest envNotFound (clientWith None) Background "GET" "/x" None world0.
Proof.
  assert (H : isRetryableError
    (snd (fst (doRequest envNotFound (clientWith None) Background
                 "GET" "/x" None world0))) = false).
  { unfold doRequest, bind, Do. simpl. rewrite clientDo_eq. reflexivity. }
  split; [simpl; lia|]. split; [exact H|].
  apply (decisive_first_attempt envNotFound (clientWith None) Background
           "GET" "/x" None world0); [simpl; lia | exact H].
Defined.

(** [Do] returns a response or an error. *)
Lemma clientDo_answers (env : Env) (n : nat) :
  forall (reqs : list Request) (req : Request) (w : World) r w',
  (10 - length reqs <= n)%nat ->
  clientDo env reqs req w = (r, w') ->
  fst r <> None \/ snd r <> None.
Proof.
  induction n as [n IH] using lt_wf_ind.
  intros reqs req w r w' Hn. rewrite clientDo_eq.
  destruct (send env req w) as [reply w1] eqn:Hs.
  destruct reply as [e|resp [loc|]].
  - intros [= <- _]. right. discriminate.
  - destruct (CheckRedirect (nextHop env (reqs ++ [req]) loc) (reqs ++ [req]))
      as [next [e|]] eqn:Hc.
    + intros [= <- _]. left. discriminate.
    + intros Hrec.
      pose proof (CheckRedirect_verdict (nextHop env (reqs ++ [req]) loc)
                    (reqs ++ [req])) as Hv.
      rewrite Hc in Hv. cbn [snd] in Hv.
      destruct (10 <=? length (reqs ++ [req]))%nat eqn:Hlt; [discriminate|].
      apply Nat.leb_gt in Hlt. rewrite length_app in Hlt. simpl in Hlt.
      apply (IH (10 - length (reqs ++ [req]))%nat) in Hrec;
        [exact Hrec | rewrite length_app; simpl; lia | lia].
  - intros [= <- _]. left. discriminate.
Qed.

Lemma doRequest_payloadOrError (env : Env) (c : Client) (ctx : Ctx)
    (method path : string) (body : option Payload) (w : World) r w' :
  doRequest env c ctx method path body w = (r, w') -> payloadOrError r.
Proof.
  unfold doRequest. intros H.
  apply bind_inv in H as (x & w1 & Hx & H).
  apply attempted_spec in H as (-> & _).
  assert (Hreq : forall req,
            (let* (resp, err) := Do env req in
             match err, resp with
             | Some err, _ => ret (None, Some (Errorf_w "request failed: " err))
             | None, None => ret (None, None)
             | None, Some resp =>
                 match Body resp with
                 | inr err => ret (None, Some (Errorf_w "failed to read response: " err))
                 | inl respBody =>
                     if 400 <=? StatusCode resp then
                       match unmarshalErrorResponse env respBody with
                       | Some errResp =>
                           if negb (String.eqb (Code (RespError errResp)) EmptyString) then
                             ret (None,
                                  Some (errorString
                                          (itoa (StatusCode resp) +:+ ": "
                                           +:+ Code (RespError errResp) +:+ " - "
                                           +:+ Message (RespError errResp))))
                           else
                             ret (None,
                                  Some (errorString
                                          (itoa (StatusCode resp) +:+ ": " +:+ respBody)))
                       | None =>
                           ret (None,
                                Some (errorString
                                        (itoa (StatusCode resp) +:+ ": " +:+ respBody)))
                       end
                     else ret (Some respBody, None)
                 end
             end) w = (x, w1) -> payloadOrError x).
  { intros req Hrun. apply bind_inv in Hrun as ([resp err] & w2 & Hdo & Hrun).
    unfold Do in Hdo. apply (clientDo_answers env 10) in Hdo; [|simpl; lia].
    simpl in Hdo. unfold ret in Hrun.
    destruct err as [err|].
    { injection Hrun as <- _. exact I. }
    destruct resp as [resp|]; [|destruct Hdo; contradiction].
    destruct (Body resp) as [respBody|err].
    2:{ injection Hrun as <- _. exact I. }
    destruct (400 <=? StatusCode resp).
    2:{ injection Hrun as <- _. exact I. }
    destruct (unmarshalErrorResponse env respBody) as [errResp|].
    2:{ injection Hrun as <- _. exact I. }
    destruct (negb (String.eqb (Code (RespError errResp)) EmptyString));
      injection Hrun as <- _; exact I. }
  destruct body as [[json|e]|].
  - destruct (newRequestError env method (baseURL c +:+ path)).
    + unfold ret in Hx. injection Hx as <- _. exact I.
    + eapply Hreq; eauto.
  - unfold ret in Hx. injection Hx as <- _. exact I.
  - destruct (newRequestError env method (baseURL c +:+ path)).
    + unfold ret in Hx. injection Hx as <- _. exact I.
    + eapply Hreq; eauto.
Qed.

(** X3 (client.go, doRequest, and retry.go, doRequestWithRetry): a
    call returns a payload or an error, never both and never neither.
    This holds for every [doRequest]; it holds for [doRequestWithRetry]
    whenever [MaxRetries] is not negative, so that a caller who finds no
    error has a payload to decode. *)
Theorem payload_or_error_and_not_both (env : Env) (c : Client) (ctx : Ctx)
    (method path : string) (body : option Payload) (w : World) :
  payloadOrError (fst (doRequest env c ctx method path body w)) /\
  (0 <= MaxRetries (retryConfig c) ->
   payloadOrError (fst (doRequestWithRetry env c ctx method path body w))).
Proof.
  split.
  - destruct (doRequest env c ctx method path body w) as [r w'] eqn:H.
    simpl. eapply doRequest_payloadOrError; eauto.
  - intros Hmax.
    destruct (doRequestWithRetry env c ctx method path body w) as [r w'] eqn:H.
    simpl.
    apply doRequestWithRetry_spec in H as (evs & _ & _ & _ & _ & _ & _ & Hend).
    destruct evs as [|[| x | site start d [|] |] evs]; try contradiction.
    + destruct Hend as [Hzero _].
      rewrite effectiveConfig_allowed in Hzero by exact Hmax.
      destruct (MaxRetries (retryConfig c) =? 0); lia.
    + destruct Hend as (-> & [w1 Hw1] & _).
      eapply doRequest_payloadOrError; eauto.
    + destruct Hend as (-> & _). exact I.
Qed.

Lemma payload_or_error_and_not_both_witness :
  payloadOrError
    (fst (doRequestWithRetry env503 (clientWith None) Background "GET" "/x" None world0)).
Proof.
  apply (payload_or_error_and_not_both env503 (clientWith None) Background
           "GET" "/x" None world0).
  simpl. lia.
Defined.

Lemma backoffDelays_app (a b : list Event) :
  backoffDelays (a ++ b) = backoffDelays b ++ backoffDelays a.
Proof.
  induction a as [|ev a IH]; simpl.
  - rewrite app_nil_r. reflexivity.
  - destruct ev as [| | [|] ? ? ? |]; rewrite ?IH, ?app_assoc; reflexivity.
Qed.

Lemma backoffDelays_sends (sends : list Event) :
  Forall (fun ev => isSend ev = true) sends -> backoffDelays sends = [].
Proof.
  induction 1 as [|ev sends Hev _ IH]; [reflexivity|].
  destruct ev; try discriminate. exact IH.
Qed.

Lemma plannedBackoffs_S (env : Env) (config : RetryConfig)
    (firstDraw : nat) (from : Z) (k : nat) :
  plannedBackoffs env config firstDraw from (S k)
  = calculateBackoff (mathPow env) (unrepresentable env) (randFloat64 env firstDraw) from config
    :: plannedBackoffs env config (S firstDraw) (from + 1) k.
Proof.
  unfold plannedBackoffs. simpl. f_equal.
  - f_equal; [f_equal; lia | lia].
  - rewrite <- seq_shift, map_map. apply map_ext. intros i.
    f_equal; [f_equal; lia | lia].
Qed.

Section RetrySchedule.
Variables (env : Env) (c : Client) (ctx : Ctx) (method path : string)
  (body : option Payload) (config : RetryConfig).

Lemma retryLoop_schedule (n : nat) :
  forall (a : Z) (lastErr : option error) (w : World) r w',
  (n <> 0%nat -> a + Z.of_nat n = MaxRetries config + 1) ->
  retryLoop env c ctx method path body config (countFrom a n) lastErr w = (r, w') ->
  exists (evs : list Event) (k : nat),
    trace w' = evs ++ trace w /\
    backoffDelays evs = plannedBackoffs env config (draws w) a k /\
    (k <= n - 1)%nat /\
    draws w' = (draws w + k)%nat /\ selects w' = (selects w + k)%nat /\
    (attempts w + k <= attempts w' <= attempts w + k + 1)%nat.
Proof.
  induction n as [|n IH]; intros a lastErr w r w' Ha H.
  - simpl in H. injection H as <- <-. exists [], 0%nat. simpl.
    repeat apply conj; try reflexivity; lia.
  - simpl in H. apply bind_inv in H as ([resp err] & w1 & Hd & H).
    apply doRequest_spec in Hd
      as (sends & Ht1 & Hsends & _ & _ & Ha1 & Hd1 & Hs1 & _ & _).
    assert (Hnone : backoffDelays (EvAttempt (resp, err) :: sends) = []).
    { simpl. apply backoffDelays_sends, Hsends. }
    destruct err as [e|].
    2:{ injection H as <- <-. exists (EvAttempt (resp, None) :: sends), 0%nat.
        rewrite Hnone. repeat apply conj; try reflexivity; try lia.
        exact Ht1. }
    destruct (negb (isRetryableError (Some e)) || (a =? MaxRetries config)) eqn:Hstop.
    { injection H as <- <-. exists (EvAttempt (resp, Some e) :: sends), 0%nat.
      rewrite Hnone. repeat apply conj; try reflexivity; try lia.
      exact Ht1. }
    apply orb_false_iff in Hstop as [_ Hne]. apply Z.eqb_neq in Hne.
    assert (Hn : n <> 0%nat) by (specialize (Ha ltac:(discriminate)); lia).
    apply bind_inv in H as (rnd & w2 & Hf & H).
    pose proof Hf as Hrnd. unfold Float64 in Hrnd. injection Hrnd as Hrnd _.
    apply Float64_spec in Hf as (Ht2 & _ & Ha2 & Hd2 & Hs2 & _).
    apply bind_inv in H as (woke & w3 & Hsel & H).
    apply select_spec in Hsel as (Ht3 & _ & Ha3 & Hd3 & Hs3 & _).
    assert (Hone : backoffDelays
                     (EvWait BackoffWait (now w2)
                        (calculateBackoff (mathPow env) (unrepresentable env) rnd a config) woke
                      :: EvAttempt (resp, Some e) :: sends)
                   = [calculateBackoff (mathPow env) (unrepresentable env) rnd a config]).
    { cbn [backoffDelays]. rewrite (backoffDelays_sends _ Hsends). reflexivity. }
    destruct woke.
    + apply (IH (a + 1) (Some e) w3 r w') in H; [|intros _; lia].
      destruct H as (evs & k & Ht & Hdel & Hk & Hdr & Hse & Hat).
      exists (evs ++ EvWait BackoffWait (now w2)
                       (calculateBackoff (mathPow env) (unrepresentable env) rnd a config) TimerFired
                     :: EvAttempt (resp, Some e) :: sends), (S k).
      repeat apply conj; try lia.
      * rewrite Ht, Ht3, Ht2, Ht1, <- app_assoc. reflexivity.
      * rewrite backoffDelays_app, Hone, plannedBackoffs_S. simpl.
        rewrite Hdel, Hd3, Hd2, Hd1, <- Hrnd, Hd1. reflexivity.
    + apply bind_inv in H as (t & w4 & Hc & H).
      unfold clock in Hc. injection Hc as <- <-. injection H as <- <-.
      exists (EvWait BackoffWait (now w2)
                (calculateBackoff (mathPow env) (unrepresentable env) rnd a config) CtxDone
              :: EvAttempt (resp, Some e) :: sends), 1%nat.
      repeat apply conj; try lia.
      * rewrite Ht3, Ht2, Ht1. reflexivity.
      * rewrite Hone, plannedBackoffs_S. simpl.
        rewrite <- Hrnd, Hd1. reflexivity.
Qed.

End RetrySchedule.

(** X4 (retry.go, doRequestWithRetry with calculateBackoff): the backoff
    waits of a call are, in order, the delays [calculateBackoff] gives
    for the attempts 0, 1, 2, ... under the effective configuration,
    each with the next value of [rand.Float64()]; there are at most
    [MaxRetries] of them, one random draw and one [select] per wait, and
    every wait follows an attempt of its own (the number of attempts is
    the number of waits or one more). *)
Theorem backoff_waits_follow_the_schedule (env : Env) (c : Client) (ctx : Ctx)
    (method path : string) (body : option Payload) (w : World) :
  exists (evs : list Event) (k : nat),
    let w' := snd (doRequestWithRetry env c ctx method path body w) in
    trace w' = evs ++ trace w /\
    backoffDelays evs = plannedBackoffs env (effectiveConfig c) (draws w) 0 k /\
    Z.of_nat k <= Z.max 0 (MaxRetries (effectiveConfig c)) /\
    draws w' = (draws w + k)%nat /\ selects w' = (selects w + k)%nat /\
    (attempts w + k <= attempts w' <= attempts w + k + 1)%nat.
Proof.
  destruct (doRequestWithRetry env c ctx method path body w) as [r w'] eqn:H.
  unfold doRequestWithRetry, attemptRange in H.
  apply retryLoop_schedule in H; [|lia].
  destruct H as (evs & k & Ht & Hdel & Hk & Hrest).
  exists evs, k. simpl. repeat apply conj; try apply Hrest; try assumption. lia.
Qed.

(** Against a server that is unavailable for good, the default
    configuration and a random source without jitter give waits of 100,
    200 and 400 milliseconds. *)
Example default_backoffs :
  backoffDelays
    (trace (snd (doRequestWithRetry env503 (clientWith None) Background
                   "GET" "/x" None world0)))
  = [100 * Millisecond; 200 * Millisecond; 400 * Millisecond].
Proof. vm_compute. reflexivity. Qed.

(* ===================================================================== *)
(** * Further properties of the backoff *)

(** X6 (retry.go, doRequestWithRetry with calculateBackoff): under a
    valid effective policy whose [MaxDelay] is at most [2^51]
    nanoseconds, with a random source that stays in [[0, 1]] and a
    [math.Pow] that returns no negative value and no NaN for the
    attempts of the policy, no backoff wait of a call is negative, and
    every one is shorter than [MaxDelay * (1 + JitterFactor)] plus one
    nanosecond, whatever the number of the attempt. *)
Theorem every_backoff_wait_is_bounded (env : Env) (c : Client) (ctx : Ctx)
    (method path : string) (body : option Payload) (w : World) (j : Q) :
  validPolicy (effectiveConfig c) ->
  MaxDelay (effectiveConfig c) <= 2 ^ 51 ->
  JitterFactor (effectiveConfig c) = Finite j ->
  (forall k : nat,
     exists r : Q, randFloat64 env k = Finite r /\ (0 <= r)%Q /\ (r <= 1)%Q) ->
  (forall a : Z,
     0 <= a < MaxRetries (effectiveConfig c) ->
     nonnegative (mathPow env (Multiplier (effectiveConfig c)) (floatOfInt a))) ->
  exists evs : list Event,
    trace (snd (doRequestWithRetry env c ctx method path body w)) = evs ++ trace w /\
    Forall (fun d =>
              0 <= d /\
              (inject_Z d < inject_Z (MaxDelay (effectiveConfig c)) * (1 + j) + 1)%Q)
           (backoffDelays evs).
Proof.
  intros Hvalid H51 Hj Hrand Hpow.
  destruct (doRequestWithRetry env c ctx method path body w) as [r w'] eqn:H.
  unfold doRequestWithRetry, attemptRange in H.
  apply retryLoop_schedule in H; [|lia].
  destruct H as (evs & k & Ht & Hdel & Hk & _).
  exists evs. split; [exact Ht|]. rewrite Hdel. unfold plannedBackoffs.
  apply Forall_map. apply Forall_forall. intros i Hi. simpl.
  apply list_elem_of_In, in_seq in Hi.
  destruct (Hrand (draws w + i)%nat) as (rv & Hrv & Hr0 & Hr1).
  destruct (calculateBackoff_bounds (mathPow env) (unrepresentable env)
              (randFloat64 env (draws w + i)) (0 + Z.of_nat i) (effectiveConfig c)
              j rv Hvalid H51 Hj Hrv Hr0 Hr1 ltac:(apply Hpow; lia))
    as (raw & _ & Hraw0 & HrawM & Hj0 & [Hlo Hhi] & HN0).
  split; [lia|].
  pose proof (Qceiling_lt (raw + raw * j)) as Hc.
  unfold Z.sub in Hc. rewrite inject_Z_plus in Hc.
  change (inject_Z (- (1))) with (- (1))%Q in Hc.
  rewrite Zle_Qle in Hhi.
  assert (Hprod : (0 <= (inject_Z (MaxDelay (effectiveConfig c)) - raw) * (1 + j))%Q)
    by (apply Qmult_le_0_compat; lra).
  lra.
Qed.

Lemma every_backoff_wait_is_bounded_witness :
  exists evs : list Event,
    trace (snd (doRequestWithRetry env503 (clientWith None) Background
                  "GET" "/x" None world0)) = evs ++ trace world0 /\
    Forall (fun d =>
              0 <= d /\
              (inject_Z d < inject_Z (MaxDelay (effectiveConfig (clientWith None)))
                            * (1 + (3602879701896397 # 36028797018963968)) + 1)%Q)
           (backoffDelays evs).
Proof.
  apply (every_backoff_wait_is_bounded env503 (clientWith None) Background
           "GET" "/x" None world0).
  - repeat apply conj; try (vm_compute; congruence).
    + exists 2%Q. split; vm_compute; reflexivity.
    + exists (3602879701896397 # 36028797018963968)%Q.
      repeat apply conj; vm_compute; congruence.
  - vm_compute. discriminate.
  - vm_compute. reflexivity.
  - intros k. exists (1 # 2)%Q. repeat apply conj; vm_compute; congruence.
  - intros a Ha.
    assert (Hcases : a = 0 \/ a = 1 \/ a = 2)
      by (change (MaxRetries (effectiveConfig (clientWith None))) with 3 in Ha; lia).
    destruct Hcases as [->|[->| ->]]; vm_compute; discriminate.
Defined.

(* ===================================================================== *)
(** * Further properties of the poller *)

Lemma switchStatus_outcome (processID : string) (ctx : Ctx) (process : Process) out :
  switchStatus processID process = Some out -> waitOutcome processID ctx out.
Proof.
  unfold switchStatus.
  destruct (String.eqb_spec (Status process) "SUCCESS") as [Hs|_].
  { intros [= <-]. simpl. auto. }
  destruct (String.eqb_spec (Status process) "FINISHED") as [Hs|_].
  { intros [= <-]. simpl. auto. }
  simpl.
  destruct (String.eqb_spec (Status process) "FAILED") as [Hs|_].
  { intros [= <-]. simpl. left. auto. }
  destruct (String.eqb_spec (Status process) "ERROR") as [Hs|_].
  { intros [= <-]. simpl. left. auto. }
  destruct (String.eqb_spec (Status process) "CANCELLED") as [Hs|_].
  { intros [= <-]. simpl. left. auto. }
  discriminate.
Qed.

Lemma pollLoop_outcome (env : Env) (c : Client) (ctx : Ctx) (processID : string)
    (fuel : nat) :
  forall (cur : Z) (w : World) r w',
  pollLoop fuel env c ctx processID cur w = (Some r, w') ->
  waitOutcome processID ctx r.
Proof.
  induction fuel as [|fuel' IH]; intros cur w r w'; [discriminate|].
  cbn [pollLoop]. intros H.
  apply bind_inv in H as (woke & w1 & Hsel & H).
  apply select_spec in Hsel as (_ & _ & _ & _ & _ & _ & Hdone & _).
  destruct woke.
  - apply bind_inv in H as (res & w2 & _ & H).
    destruct res as [err|process].
    { unfold ret in H. injection H as <- _. simpl. eauto. }
    destruct (switchStatus processID process) as [out|] eqn:Hsw.
    { unfold ret in H. injection H as <- _.
      eapply switchStatus_outcome; eauto. }
    eapply IH; eauto.
  - destruct (Hdone eq_refl) as (t & Hdt & Hmax & _).
    apply bind_inv in H as (final & w2 & Hget & H).
    apply GetProcess_spec in Hget as (_ & _ & _ & Hn2).
    destruct final as [err|finalProcess].
    + apply bind_inv in H as (t0 & w3 & Hclk & H).
      unfold clock in Hclk. injection Hclk as <- <-.
      unfold ret in H. injection H as <- _.
      rewrite (ctx_Err_done ctx t (now w2) Hdt ltac:(lia)). simpl. auto.
    + unfold ret in H. injection H as <- _. simpl. auto.
Qed.

(** X7 (client.go, WaitForProcess): the call always returns, and what it
    returns has one of five shapes.  An error of [nil] comes only with a
    process whose status is SUCCESS or FINISHED; a process comes with an
    error when its status is FAILED, ERROR or CANCELLED, or when the
    deadline passed and the last look succeeded; no process comes with
    the wrapped error of a failed look or of the timeout.  It never
    returns neither a process nor an error. *)
Theorem wait_returns_one_of_five_outcomes (env : Env) (c : Client) (ctx : Ctx)
    (processID : string) (timeout : Z) (w : World) :
  exists fuel0 : nat, forall fuel : nat, (fuel0 <= fuel)%nat ->
    exists r w',
      WaitForProcess fuel env c ctx processID timeout w = (Some r, w') /\
      waitOutcome processID (WithTimeout ctx timeout (now w)) r.
Proof.
  destruct (WaitForProcess_terminates env c ctx processID timeout w) as [fuel0 Hterm].
  exists fuel0. intros fuel Hfuel.
  destruct (Hterm fuel Hfuel) as (r & w' & H).
  exists r, w'. split; [exact H|].
  unfold WaitForProcess in H.
  apply bind_inv in H as (t & w0 & Hclk & H).
  unfold clock in Hclk. injection Hclk as <- <-.
  apply bind_inv in H as (res & w1 & _ & H).
  destruct res as [err|process].
  - eapply pollLoop_outcome; eauto.
  - destruct (switchStatus processID process) as [out|] eqn:Hsw.
    + unfold ret in H. injection H as <- _. eapply switchStatus_outcome; eauto.
    + eapply pollLoop_outcome; eauto.
Qed.

Section PollCount.
Variables (env : Env) (c : Client) (ctx : Ctx) (processID : string) (t : Z).
Hypothesis Hdt : doneAt ctx = Some t.

Lemma pollLoop_count (fuel : nat) :
  forall (cur : Z) (w : World) r w',
  minInterval <= cur <= maxInterval ->
  pollLoop fuel env c ctx processID cur w = (Some r, w') ->
  exists evs : list Event,
    trace w' = evs ++ trace w /\
    length (fetches evs) = length (pollDelays evs) /\
    Z.of_nat (length (pollDelays evs)) * minInterval
    <= Z.max 0 (t - now w) + minInterval.
Proof.
  assert (Hpos : 0 < minInterval) by (unfold minInterval, Millisecond; lia).
  induction fuel as [|fuel' IH]; intros cur w r w' Hcur; [discriminate|].
  cbn [pollLoop]. intros H.
  apply bind_inv in H as (woke & w1 & Hsel & H).
  apply select_spec in Hsel as (Ht1 & _ & _ & _ & _ & Hn1 & _ & Hfired).
  assert (Hround : forall ctx' res sub,
            Forall (fun ev => executorEvent ev = true) sub ->
            fetches (EvGetProcess ctx' processID res :: sub
                     ++ [EvWait PollWait (now w) cur woke]) = [(ctx', res)] /\
            pollDelays (EvGetProcess ctx' processID res :: sub
                        ++ [EvWait PollWait (now w) cur woke]) = [cur]).
  { intros ctx' res sub Hsub.
    destruct (executor_no_polls sub Hsub) as [Hp Hf].
    cbn [fetches pollDelays]. rewrite fetches_app, pollDelays_app, Hp, Hf.
    simpl. auto. }
  destruct woke.
  - destruct (Hfired eq_refl) as [Hnow Hbefore].
    specialize (Hbefore t Hdt).
    apply bind_inv in H as (res & w2 & Hget & H).
    apply GetProcess_spec in Hget as (sub & Ht2 & Hsub & Hn2).
    destruct (Hround ctx res sub Hsub) as [Hf Hp].
    assert (Hstop : forall out, (Some out, w2) = (Some r, w') ->
              exists evs : list Event,
                trace w' = evs ++ trace w /\
                length (fetches evs) = length (pollDelays evs) /\
                Z.of_nat (length (pollDelays evs)) * minInterval
                <= Z.max 0 (t - now w) + minInterval).
    { intros out [= <- <-].
      exists (EvGetProcess ctx processID res :: sub
              ++ [EvWait PollWait (now w) cur TimerFired]).
      rewrite Hf, Hp. repeat apply conj.
      - rewrite Ht2, Ht1. trace_eq.
      - reflexivity.
      - simpl length. lia. }
    destruct res as [err|process]; [apply (Hstop _ H)|].
    destruct (switchStatus processID process) as [out|] eqn:Hsw;
      [apply (Hstop _ H)|].
    apply IH in H as (evs & Ht & Hlen & Hbound).
    2:{ apply nextInterval_bounds. exact Hcur. }
    exists (evs ++ EvGetProcess ctx processID (inr process) :: sub
            ++ [EvWait PollWait (now w) cur TimerFired]).
    rewrite fetches_app, pollDelays_app, Hf, Hp, !length_app. simpl length.
    repeat apply conj.
    + rewrite Ht, Ht2, Ht1. trace_eq.
    + lia.
    + lia.
  - apply bind_inv in H as (final & w2 & Hget & H).
    apply GetProcess_spec in Hget as (sub & Ht2 & Hsub & Hn2).
    destruct (Hround Background final sub Hsub) as [Hf Hp].
    assert (Hw : w' = w2).
    { destruct final as [err|finalProcess].
      - apply bind_inv in H as (t0 & w3 & Hclk & H).
        unfold clock in Hclk. injection Hclk as <- <-.
        unfold ret in H. injection H as _ <-. reflexivity.
      - unfold ret in H. injection H as _ <-. reflexivity. }
    subst w'.
    exists (EvGetProcess Background processID final :: sub
            ++ [EvWait PollWait (now w) cur CtxDone]).
    rewrite Hf, Hp. repeat apply conj.
    + rewrite Ht2, Ht1. trace_eq.
    + reflexivity.
    + simpl length. lia.
Qed.

End PollCount.

(** X8 (client.go, WaitForProcess): the polling is bounded by the
    timeout.  A call that is given [timeout] returns after at most
    [timeout / 500ms + 1] waits of the poll loop, and it has looked at
    the process exactly once more than it has waited: once at the start
    and once after each wait. *)
Theorem polls_are_bounded_by_timeout (env : Env) (c : Client) (ctx : Ctx)
    (processID : string) (timeout : Z) (w : World) :
  exists fuel0 : nat, forall fuel : nat, (fuel0 <= fuel)%nat ->
    exists r w' evs,
      WaitForProcess fuel env c ctx processID timeout w = (Some r, w') /\
      trace w' = evs ++ trace w /\
      length (fetches evs) = S (length (pollDelays evs)) /\
      Z.of_nat (length (pollDelays evs)) <= Z.max 0 timeout / minInterval + 1.
Proof.
  destruct (WaitForProcess_terminates env c ctx processID timeout w) as [fuel0 Hterm].
  exists fuel0. intros fuel Hfuel.
  destruct (Hterm fuel Hfuel) as (r & w' & H).
  exists r, w'. 
  assert (Hpos : 0 < minInterval) by (unfold minInterval, Millisecond; lia).
  pose proof H as Hrun.
  unfold WaitForProcess in H.
  apply bind_inv in H as (t0 & w0 & Hclk & H).
  unfold clock in Hclk. injection Hclk as <- <-.
  apply bind_inv in H as (res & w1 & Hget & H).
  apply GetProcess_spec in Hget as (sub & Ht1 & Hsub & Hn1).
  destruct (executor_no_polls sub Hsub) as [Hp Hf].
  destruct (WithTimeout_done ctx timeout (now w)) as (t & Hdt & Ht).
  assert (Hloop : pollLoop fuel env c (WithTimeout ctx timeout (now w)) processID
                    minInterval w1 = (Some r, w') ->
          exists evs, trace w' = evs ++ trace w /\
            length (fetches evs) = S (length (pollDelays evs)) /\
            Z.of_nat (length (pollDelays evs)) <= Z.max 0 timeout / minInterval + 1).
  { intros Hl.
    apply (pollLoop_count env c _ processID t Hdt) in Hl
      as (evs & Hte & Hlen & Hbound).
    2:{ unfold minInterval, maxInterval, Second, Millisecond. lia. }
    exists (evs ++ EvGetProcess (WithTimeout ctx timeout (now w)) processID res :: sub).
    rewrite fetches_app, pollDelays_app. cbn [fetches pollDelays].
    rewrite Hp, Hf, !length_app. simpl length.
    repeat apply conj.
    - rewrite Hte, Ht1. trace_eq.
    - lia.
    - assert (Hle : (Z.of_nat (length (pollDelays evs)) - 1) * minInterval
                    <= Z.max 0 timeout) by lia.
      assert (Z.of_nat (length (pollDelays evs)) - 1 <= Z.max 0 timeout / minInterval)
        by (apply Z.div_le_lower_bound; lia).
      lia. }
  destruct res as [err|process].
  - destruct (Hloop H) as (evs & He). exists evs. split; [exact Hrun | exact He].
  - destruct (switchStatus processID process) as [out|] eqn:Hsw.
    + unfold ret in H. injection H as <- <-.
      exists (EvGetProcess (WithTimeout ctx timeout (now w)) processID (inr process)
              :: sub).
      split; [exact Hrun|]. cbn [fetches pollDelays]. rewrite Hp, Hf. simpl length.
      repeat apply conj.
      * rewrite Ht1. reflexivity.
      * reflexivity.
      * pose proof (Z.div_pos (Z.max 0 timeout) minInterval). lia.
    + destruct (Hloop H) as (evs & He). exists evs. split; [exact Hrun | exact He].
Qed.

(* ===================================================================== *)
(** * Properties of the other operations of the client *)

Lemma decodeWith_error {T : Type} (unmarshal : string -> error + T)
    (prefix : string) (x : option string * option error) :
  errorOf (decodeWith unmarshal prefix x) = snd x \/
  (snd x = None /\
   exists inner, errorOf (decodeWith unmarshal prefix x) = Some (Errorf_w prefix inner)).
Proof.
  unfold decodeWith. destruct (snd x) as [e|] eqn:Hx; [left; reflexivity|].
  destruct (unmarshal _) as [e|v]; [right; eauto | left; reflexivity].
Qed.

(** X9 (client.go: DeleteProject, ImportProjectServices, CreateProjectEnv,
    StartService, StopService, DeleteService, EnableSubdomainAccess,
    DisableSubdomainAccess): the operations that change something are
    single shots.  Each is one call of [doRequest]: one attempt, at most
    ten requests on the wire (the redirects), no random draw and no
    wait, and the error of that attempt is returned as it is, also when
    it is one the retry engine would take for retryable; the only other
    error is that of a payload that cannot be decoded. *)
Theorem mutations_are_single_shots (env : Env) (codec : Codec) (c : Client)
    (ctx : Ctx) (m : Mutation) (w : World) :
  exists (x : option string * option error) (sends : list Event),
    let (err, w') := perform env codec c ctx m w in
    trace w' = EvAttempt x :: sends ++ trace w /\
    Forall (fun ev => isSend ev = true) sends /\ (length sends <= 10)%nat /\
    attempts w' = S (attempts w) /\ draws w' = draws w /\ selects w' = selects w /\
    (err = snd x \/
     (snd x = None /\
      exists inner,
        err = Some (Errorf_w "failed to unmarshal process response: " inner))).
Proof.
  assert (Hdecoded : forall method path body,
    exists (x : option string * option error) (sends : list Event),
      let (err, w') :=
        (let* result := doRequest env c ctx method path body in
         ret (errorOf (decodeWith (unmarshalProcess env)
                         "failed to unmarshal process response: " result))) w in
      trace w' = EvAttempt x :: sends ++ trace w /\
      Forall (fun ev => isSend ev = true) sends /\ (length sends <= 10)%nat /\
      attempts w' = S (attempts w) /\ draws w' = draws w /\ selects w' = selects w /\
      (err = snd x \/
       (snd x = None /\
        exists inner,
          err = Some (Errorf_w "failed to unmarshal process response: " inner)))).
  { intros method path body. unfold bind.
    destruct (doRequest env c ctx method path body w) as [x w1] eqn:Hd.
    apply doRequest_spec in Hd as (sends & Ht & Hs & Hl & _ & Ha & Hdr & Hse & _).
    exists x, sends. unfold ret.
    repeat apply conj; try assumption. apply decodeWith_error. }
  assert (Hplain : forall method path body,
    exists (x : option string * option error) (sends : list Event),
      let (err, w') :=
        (let* (_, err) := doRequest env c ctx method path body in ret err) w in
      trace w' = EvAttempt x :: sends ++ trace w /\
      Forall (fun ev => isSend ev = true) sends /\ (length sends <= 10)%nat /\
      attempts w' = S (attempts w) /\ draws w' = draws w /\ selects w' = selects w /\
      (err = snd x \/
       (snd x = None /\
        exists inner,
          err = Some (Errorf_w "failed to unmarshal process response: " inner)))).
  { intros method path body. unfold bind.
    destruct (doRequest env c ctx method path body w) as [[resp err] w1] eqn:Hd.
    apply doRequest_spec in Hd as (sends & Ht & Hs & Hl & _ & Ha & Hdr & Hse & _).
    exists (resp, err), sends. unfold ret.
    repeat apply conj; try assumption. left. reflexivity. }
  destruct m; cbn [perform];
    unfold DeleteProject, ImportProjectServices, CreateProjectEnv, StartService,
      StopService, DeleteService, EnableSubdomainAccess, DisableSubdomainAccess.
  all: try apply Hplain.
  all: match goal with
       | |- context [doRequest ?e ?cl ?cx ?method ?path ?body] =>
           destruct (Hdecoded method path body) as (x & sends & H);
           exists x, sends; revert H; unfold bind, ret;
           destruct (doRequest e cl cx method path body w) as [x' w1];
           exact (fun H => H)
       end.
Qed.

(** A start of a service against a server that is unavailable for good is
    tried once, where a look at a process is tried four times. *)
Example start_is_tried_once_where_a_look_is_tried_four_times :
  attempts (snd (StartService env503 (clientWith None) Background "svc1" world0)) = 1%nat /\
  fst (StartService env503 (clientWith None) Background "svc1" world0)
  = inl (errorString "503: service unavailable") /\
  attempts (snd (GetProcess env503 (clientWith None) Background "p1" world0)) = 4%nat.
Proof.
  repeat apply conj.
  - unfold StartService, doRequest, bind, Do. simpl. rewrite clientDo_eq. reflexivity.
  - unfold StartService, doRequest, bind, Do. simpl. rewrite clientDo_eq. reflexivity.
  - unfold GetProcess, bind.
    pose proof (permanent_failure_attempts env503 (clientWith None) Background
                  "GET" "/api/rest/public/process/p1" None world0
                  (env503_permanent _ _ _ _) eq_refl) as H.
    destruct (doRequestWithRetry _ _ _ _ _ _ _) as [[resp err] w1].
    simpl in H. simpl. exact H.
Qed.

(** X10 (client.go, CreateProject): creating a project is not a single
    shot.  The [POST] goes through the retry engine, with a tag list
    that is never [nil]: against a dependency that keeps failing in a
    way the classifier takes for retryable, on a context that is never
    done, it is attempted as often as the effective configuration
    allows (four times by default), and the call fails. *)
Theorem create_project_is_retried (env : Env) (codec : Codec) (c : Client)
    (ctx : Ctx) (req : CreateProjectRequest) (w : World) :
  permanentlyRetryable env c ctx "POST" "/api/rest/public/project"
    (Some (marshalCreateProjectRequest codec (withTagList req))) ->
  doneAt ctx = None ->
  attempts (snd (CreateProject env codec c ctx req w))
  = (attempts w + allowedAttempts (effectiveConfig c))%nat /\
  (0 <= MaxRetries (retryConfig c) ->
   exists err, fst (CreateProject env codec c ctx req w) = inl err).
Proof.
  intros Hperm Hnever.
  assert (Hreq : match TagList req with
                 | None =>
                     {| Create_Name := Create_Name req; RegionID := RegionID req;
                        Create_ClientID := Create_ClientID req;
                        Description := Description req; TagList := Some [] |}
                 | Some _ => req
                 end = withTagList req).
  { unfold withTagList. destruct req as [n r cl d [tags|]]; reflexivity. }
  unfold CreateProject. rewrite Hreq. unfold bind.
  pose proof (permanent_failure_attempts env c ctx "POST" "/api/rest/public/project"
                (Some (marshalCreateProjectRequest codec (withTagList req))) w
                Hperm Hnever) as Hcount.
  destruct (doRequestWithRetry env c ctx "POST" "/api/rest/public/project"
              (Some (marshalCreateProjectRequest codec (withTagList req))) w)
    as [x w'] eqn:Hrun.
  simpl in Hcount. split; [exact Hcount|].
  intros Hmax. simpl.
  apply doRequestWithRetry_spec in Hrun as (evs & _ & _ & _ & _ & _ & _ & Hend).
  destruct evs as [|[| y | site start d [|] |] evs]; try contradiction.
  - destruct Hend as [Hzero _]. rewrite effectiveConfig_allowed in Hzero by exact Hmax.
    destruct (MaxRetries (retryConfig c) =? 0); lia.
  - destruct Hend as (-> & [w1 Hw1] & _).
    destruct (Hperm w1) as (e & He & _). rewrite Hw1 in He. simpl in He.
    unfold decodeWith. rewrite He. eauto.
  - destruct Hend as (_ & t & Hdt & _). congruence.
Qed.

Lemma create_project_is_retried_witness :
  attempts (snd (CreateProject env503 scenarioCodec (clientWith None) Background
                   demoProject world0)) = 4%nat.
Proof.
  apply (create_project_is_retried env503 scenarioCodec (clientWith None)
           Background demoProject world0).
  - intros w. exists (errorString "503: service unavailable").
    split; [|reflexivity].
    unfold doRequest, bind, Do. simpl. rewrite clientDo_eq. reflexivity.
  - reflexivity.
Defined.

Lemma GetClientID_attempts (env : Env) (codec : Codec) (c : Client) (ctx : Ctx)
    (w : World) r w1 :
  GetClientID env codec c ctx w = (r, w1) ->
  (attempts w <= attempts w1 <= attempts w + allowedAttempts (effectiveConfig c))%nat.
Proof.
  unfold GetClientID, GetCurrentUser. intros H.
  apply bind_inv in H as (u & w2 & Hu & H).
  apply bind_inv in Hu as (x & w3 & Hx & Hu).
  apply doRequestWithRetry_spec in Hx as (_ & _ & _ & _ & _ & _ & Hle & _).
  unfold ret in Hu. injection Hu as _ <-.
  assert (w1 = w3) as ->; [|exact Hle].
  destruct u as [err|user]; [injection H as _ <-; reflexivity|].
  destruct (ClientUserList user); injection H as _ <-; reflexivity.
Qed.

Lemma ImportProjectServices_attempts (env : Env) (codec : Codec) (c : Client)
    (ctx : Ctx) (projectID clientID yamlData : string) (w : World) r w' :
  ImportProjectServices env codec c ctx projectID clientID yamlData w = (r, w') ->
  attempts w' = S (attempts w).
Proof.
  unfold ImportProjectServices. intros H.
  apply bind_inv in H as ([resp err] & w1 & Hd & H).
  apply doRequest_spec in Hd as (_ & _ & _ & _ & _ & Ha & _).
  unfold ret in H. injection H as _ <-. exact Ha.
Qed.

(** X11 (client.go, ImportProject with GetClientID and
    ImportProjectServices): an import is sent at most once, with the
    client ID of the request or, when the request names none, with the
    one that a lookup returns.  When the request names its client, the
    call is the call of [ImportProjectServices] with that client ID and
    nothing else: one attempt, no lookup.  When it does not, the call
    starts with the lookup [GetClientID], which takes at most as many
    attempts as the retry configuration allows; if the lookup fails the
    call ends there, with the error wrapped, and no import is attempted;
    otherwise what follows is the call of [ImportProjectServices] with
    the client ID that the lookup returned: one attempt. *)
Theorem import_is_attempted_at_most_once (env : Env) (codec : Codec) (c : Client)
    (ctx : Ctx) (req : ImportRequest) (w : World) :
  (Import_ClientID req <> EmptyString ->
   ImportProject env codec c ctx req w
   = ImportProjectServices env codec c ctx (Import_ProjectID req)
       (Import_ClientID req) (YAML req) w /\
   attempts (snd (ImportProject env codec c ctx req w)) = S (attempts w)) /\
  (Import_ClientID req = EmptyString ->
   let (looked, w1) := GetClientID env codec c ctx w in
   (attempts w <= attempts w1 <= attempts w + allowedAttempts (effectiveConfig c))%nat /\
   match looked with
   | inl err =>
       ImportProject env codec c ctx req w
       = (Some (Errorf_w "failed to get client ID: " err), w1)
   | inr clientID =>
       ImportProject env codec c ctx req w
       = ImportProjectServices env codec c ctx (Import_ProjectID req)
           clientID (YAML req) w1 /\
       attempts (snd (ImportProject env codec c ctx req w)) = S (attempts w1)
   end).
Proof.
  split.
  - intros Hgiven.
    assert (Heq : ImportProject env codec c ctx req w
                  = ImportProjectServices env codec c ctx (Import_ProjectID req)
                      (Import_ClientID req) (YAML req) w).
    { unfold ImportProject.
      destruct (String.eqb_spec (Import_ClientID req) EmptyString);
        [contradiction | reflexivity]. }
    split; [exact Heq|]. rewrite Heq.
    eapply ImportProjectServices_attempts. apply surjective_pairing.
  - intros Hempty.
    destruct (GetClientID env codec c ctx w) as [looked w1] eqn:Hget.
    split; [eapply GetClientID_attempts; exact Hget|].
    assert (Heq : ImportProject env codec c ctx req w
                  = match looked with
                    | inl err => (Some (Errorf_w "failed to get client ID: " err), w1)
                    | inr clientID =>
                        ImportProjectServices env codec c ctx (Import_ProjectID req)
                          clientID (YAML req) w1
                    end).
    { unfold ImportProject. rewrite Hempty. cbn [String.eqb].
      unfold bind. rewrite Hget. destruct looked; reflexivity. }
    destruct looked as [err|clientID]; [exact Heq|].
    split; [exact Heq|]. rewrite Heq.
    eapply ImportProjectServices_attempts. apply surjective_pairing.
Qed.

Lemma import_is_attempted_at_most_once_witness :
  ImportProject envOK scenarioCodec (clientWith None) Background demoImport world0
  = ImportProjectServices envOK scenarioCodec (clientWith None) Background
      (Import_ProjectID demoImport) "client1" (YAML demoImport)
      (snd (GetClientID envOK scenarioCodec (clientWith None) Background world0)) /\
  attempts (snd (ImportProject envOK scenarioCodec (clientWith None) Background
                   demoImport world0)) = 2%nat.
Proof.
  destruct (import_is_attempted_at_most_once envOK scenarioCodec (clientWith None)
              Background demoImport world0) as [_ H].
  specialize (H eq_refl).
  destruct (GetClientID envOK scenarioCodec (clientWith None) Background world0)
    as [looked w1] eqn:Hget.
  assert (Hl : looked = inr "client1" /\ attempts w1 = 1%nat).
  { assert (Hrun : (looked, w1)
                   = GetClientID envOK scenarioCodec (clientWith None) Background world0)
      by (symmetry; exact Hget).
    vm_compute in Hrun. injection Hrun as -> ->. split; reflexivity. }
  destruct Hl as [-> Hw1]. destruct H as [_ [Heq Hatt]].
  split; [exact Heq | rewrite Hatt, Hw1; reflexivity].
Defined.

(** An import that does not name its client takes two attempts, the
    lookup and the import; when the lookup is refused it takes one, and
    the error names both steps. *)
Example import_after_lookup :
  attempts (snd (ImportProject envOK scenarioCodec (clientWith None) Background
                   demoImport world0)) = 2%nat /\
  fst (ImportProject envOK scenarioCodec (clientWith None) Background
         demoImport world0) = None /\
  attempts (snd (ImportProject envUnauthorized scenarioCodec (clientWith None)
                   Background demoImport world0)) = 1%nat /\
  option_map Error
    (fst (ImportProject envUnauthorized scenarioCodec (clientWith None)
            Background demoImport world0))
  = Some "failed to get client ID: failed to get user info: 401: unauthorized".
Proof. vm_compute. repeat split. Qed.

(** A [Do] on a request without credential: every request it puts on
    the wire is without credential, redirects included. *)
Lemma Do_anonymous (env : Env) (req : Request) (w : World) r w' :
  anonymous req ->
  Do env req w = (r, w') ->
  exists hops : list Request,
    trace w' = map EvSend (rev (req :: hops)) ++ trace w /\
    (S (length hops) <= 10)%nat /\
    Forall anonymous (req :: hops) /\
    attempts w' = attempts w.
Proof.
  intros Hanon H. unfold Do in H.
  apply (clientDo_spec env 10) in H; [|simpl; lia].
  destruct H as (hops & Ht & _ & Ha & _ & _ & _ & Hlen & Hauth).
  exists hops. repeat apply conj.
  - exact Ht.
  - simpl in Hlen. apply Hlen. lia.
  - constructor; [exact Hanon|].
    specialize (Hauth req eq_refl).
    eapply Forall_impl; [exact Hauth|]. intros hop Hhop.
    unfold anonymous. rewrite Hhop. exact Hanon.
  - exact Ha.
Qed.

Lemma endsWithReturn_app (a b : list Event) :
  endsWithReturn a -> endsWithReturn b -> endsWithReturn (a ++ b).
Proof. destruct a as [|[] a]; simpl; auto. Qed.

(** What a retried call adds to the trace. *)
Lemma doRequestWithRetry_returns (env : Env) (c : Client) (ctx : Ctx)
    (method path : string) (body : option Payload) (w : World) r w' :
  doRequestWithRetry env c ctx method path body w = (r, w') ->
  exists evs : list Event,
    trace w' = evs ++ trace w /\
    Forall (fun ev => executorEvent ev = true) evs /\
    endsWithReturn evs.
Proof.
  intros H.
  apply doRequestWithRetry_spec in H as (evs & Ht & Hex & _ & _ & _ & _ & Hend).
  exists evs. repeat apply conj; try assumption.
  destruct evs as [|[] evs]; simpl; auto.
Qed.

(** X12 (client.go, GetServiceLogs): the request to the log proxy is
    built from the access token, the service ID and the limit alone, and
    no request of the exchange with the proxy carries a credential.
    What a call adds to the trace is the calls to the API (for the
    service, and for the log access), whose newest event is the return
    of an attempt or a wait, never a request, and after them at most ten
    requests: those of the exchange with the proxy.  None of these has
    an Authorization header that is not empty, redirects included.
    Without a request to the proxy no lines are returned.  With one, the
    service was found and the API answered the request for the log
    access of the service's project with a text that decodes to a
    token; the first request to the proxy is the [GET] of the proxy URL
    made of that token, the service ID and the limit, without any
    header, and the requests to the proxy are those of the one [Do] on
    it. *)
Theorem log_proxy_gets_the_token_and_no_credential (env : Env) (codec : Codec)
    (c : Client) (ctx : Ctx) (serviceID container : string) (limit : Z)
    (since : string) (w : World) :
  exists (proxyReqs : list Request) (apiEvs : list Event),
    let (r, w') :=
      GetServiceLogs env codec c ctx serviceID container limit since w in
    trace w' = map EvSend (rev proxyReqs) ++ apiEvs ++ trace w /\
    Forall (fun ev => executorEvent ev = true) apiEvs /\
    endsWithReturn apiEvs /\
    (length proxyReqs <= 10)%nat /\
    Forall anonymous proxyReqs /\
    match proxyReqs with
    | [] => fst r = None
    | first :: _ =>
        exists (service : ServiceDetails) (resp : option string)
               (tokenResp : LogAccess) (w1 w2 : World)
               (answer : option Response * option error),
          GetService env codec c ctx serviceID w = (inr service, w1) /\
          doRequestWithRetry env c ctx "GET"
            ("/api/rest/public/project/" +:+ Service_ProjectID service +:+ "/log")
            None w1 = ((resp, None), w2) /\
          trace w2 = apiEvs ++ trace w /\
          unmarshalLogAccess codec (default EmptyString resp) = inr tokenResp /\
          first = {| Method := "GET";
                     URL := proxyURL (AccessToken tokenResp) serviceID limit;
                     ReqHeader := ∅ |} /\
          Do env first w2 = (answer, w')
    end.
Proof.
  assert (Hnone : forall (apiEvs : list Event) (w' : World)
                         (e : option error),
            trace w' = apiEvs ++ trace w ->
            Forall (fun ev => executorEvent ev = true) apiEvs ->
            endsWithReturn apiEvs ->
            trace w' = map EvSend (rev []) ++ apiEvs ++ trace w /\
            Forall (fun ev => executorEvent ev = true) apiEvs /\
            endsWithReturn apiEvs /\
            (length (@nil Request) <= 10)%nat /\
            Forall anonymous [] /\
            fst (@None (list string), e) = None).
  { intros apiEvs w' e Ht Hex Hend. repeat apply conj; try assumption.
    - simpl. lia.
    - constructor.
    - reflexivity. }
  unfold GetServiceLogs. unfold bind at 1.
  destruct (GetService env codec c ctx serviceID w) as [rs w1] eqn:HGS.
  assert (Hapi : exists evs1 : list Event,
            trace w1 = evs1 ++ trace w /\
            Forall (fun ev => executorEvent ev = true) evs1 /\
            endsWithReturn evs1).
  { pose proof HGS as H. unfold GetService in H.
    apply bind_inv in H as (x & w0 & H1 & Hret).
    unfold ret in Hret. injection Hret as _ <-.
    eapply doRequestWithRetry_returns. exact H1. }
  destruct Hapi as (evs1 & Ht1 & Hex1 & Hend1).
  destruct rs as [err|service].
  { exists [], evs1. unfold ret. apply Hnone; assumption. }
  destruct (String.eqb (Service_Status service) "READY_TO_DEPLOY"
            || String.eqb (Service_Status service) "NEW").
  { exists [], evs1. unfold ret. apply Hnone; assumption. }
  unfold bind at 1.
  destruct (doRequestWithRetry env c ctx "GET"
              ("/api/rest/public/project/" +:+ Service_ProjectID service +:+ "/log")
              None w1) as [[resp err] w2] eqn:H2.
  pose proof H2 as H2'.
  apply doRequestWithRetry_returns in H2' as (evs2 & Ht2 & Hex2 & Hend2).
  assert (Ht : trace w2 = (evs2 ++ evs1) ++ trace w)
    by (rewrite Ht2, Ht1, app_assoc; reflexivity).
  assert (Hex : Forall (fun ev => executorEvent ev = true) (evs2 ++ evs1))
    by (apply Forall_app; auto).
  assert (Hend : endsWithReturn (evs2 ++ evs1))
    by (apply endsWithReturn_app; assumption).
  destruct err as [err|].
  { exists [], (evs2 ++ evs1). unfold ret. apply Hnone; assumption. }
  destruct (unmarshalLogAccess codec (default EmptyString resp))
    as [err|tokenResp] eqn:Htoken.
  { exists [], (evs2 ++ evs1). unfold ret. apply Hnone; assumption. }
  destruct (newRequestError env "GET"
              (proxyURL (AccessToken tokenResp) serviceID limit)) as [err|].
  { exists [], (evs2 ++ evs1). unfold ret. apply Hnone; assumption. }
  unfold bind.
  set (first := {| Method := "GET";
                   URL := proxyURL (AccessToken tokenResp) serviceID limit;
                   ReqHeader := ∅ |}).
  destruct (Do env first w2) as [[proxyResp err] w3] eqn:H3.
  pose proof H3 as H3'.
  apply Do_anonymous in H3' as (hops & Ht3 & Hlen & Hanon & _);
    [|reflexivity].
  exists (first :: hops), (evs2 ++ evs1).
  assert (Hall : trace w3 = map EvSend (rev (first :: hops))
                            ++ (evs2 ++ evs1) ++ trace w /\
                 Forall (fun ev => executorEvent ev = true) (evs2 ++ evs1) /\
                 endsWithReturn (evs2 ++ evs1) /\
                 (length (first :: hops) <= 10)%nat /\
                 Forall anonymous (first :: hops) /\
                 exists (service0 : ServiceDetails) (resp0 : option string)
                        (tokenResp0 : LogAccess) (w1' w2' : World)
                        (answer : option Response * option error),
                   (@inr error ServiceDetails service, w1) = (inr service0, w1') /\
                   doRequestWithRetry env c ctx "GET"
                     ("/api/rest/public/project/" +:+ Service_ProjectID service0
                      +:+ "/log") None w1' = ((resp0, None), w2') /\
                   trace w2' = (evs2 ++ evs1) ++ trace w /\
                   unmarshalLogAccess codec (default EmptyString resp0)
                   = inr tokenResp0 /\
                   first = {| Method := "GET";
                              URL := proxyURL (AccessToken tokenResp0) serviceID limit;
                              ReqHeader := ∅ |} /\
                   Do env first w2' = (answer, w3)).
  { repeat apply conj; try assumption.
    - rewrite Ht3, Ht. reflexivity.
    - exists service, resp, tokenResp, w1, w2, (proxyResp, err).
      repeat apply conj; auto. }
  destruct err as [err|]; [exact Hall|].
  destruct proxyResp as [proxyResp|]; [|exact Hall].
  destruct (Body proxyResp) as [proxyBody|err]; [|exact Hall].
  destruct (negb (StatusCode proxyResp =? 200)); [exact Hall|].
  destruct (unmarshalProxyLog codec proxyBody); exact Hall.
Qed.

(** The logs of a running service: two requests to the API, with the
    key, and one to the proxy, without. *)
Example logs_of_a_running_service :
  let run := GetServiceLogs envOK scenarioCodec (clientWith None) Background
               "svc1" EmptyString 10 EmptyString world0 in
  fst run = (Some ["2024-01-01 00:00:00 [app] web: started"], None) /\
  map (fun req => (URL req, Header_Get (ReqHeader req) "Authorization"))
    (sentRequests (trace (snd run)))
  = [ ("https://api.example/api/rest/public/service-stack/svc1", "Bearer secret");
      ("https://api.example/api/rest/public/project/proj1/log", "Bearer secret");
      ("https://proxy.app-prg1.zerops.io/api/rest/log?accessToken=tok&serviceStackId=svc1&limit=10",
       EmptyString) ].
Proof. vm_compute. split; reflexivity. Qed.

(* ===================================================================== *)
(** * Properties of the tools *)

Lemma prefix_refl (s : string) : String.prefix s s = true.
Proof.
  induction s as [|a s IH]; [reflexivity|]. simpl.
  destruct (Ascii.ascii_dec a a); [exact IH | contradiction].
Qed.

Lemma prefix_length (p s : string) :
  String.prefix p s = true -> (String.length p <= String.length s)%nat.
Proof.
  revert p. induction s as [|b s IH]; intros [|a p]; simpl; try lia; try discriminate.
  destruct (Ascii.ascii_dec a b); [|discriminate].
  intros H. apply IH in H. lia.
Qed.

Lemma prefix_same_length (p s : string) :
  String.prefix p s = true -> String.length p = String.length s -> p = s.
Proof.
  revert p. induction s as [|b s IH]; intros [|a p]; simpl; try discriminate; auto.
  destruct (Ascii.ascii_dec a b) as [->|]; [|discriminate].
  intros H [= Hl]. f_equal. auto.
Qed.

Lemma containsAtFrom_shift (a b : ascii) (s substr : string) (todo : nat) :
  forall i : nat,
  tools.containsAtFrom (String a s) (String b substr) 0 (S i) todo
  = tools.containsAtFrom s substr 0 i todo.
Proof.
  induction todo as [|todo IH]; intros i; [reflexivity|].
  cbn [tools.containsAtFrom]. rewrite IH. reflexivity.
Qed.

Lemma containsAtFrom_prefix (substr : string) :
  forall s : string,
  (String.length substr <= String.length s)%nat ->
  tools.containsAtFrom s substr 0 0 (String.length substr) = String.prefix substr s.
Proof.
  induction substr as [|b substr IH]; intros [|a s] Hlen; simpl in Hlen;
    try reflexivity; try lia.
  cbn [String.length tools.containsAtFrom]. rewrite containsAtFrom_shift.
  rewrite IH by lia. unfold tools.byteAt. simpl.
  destruct (Ascii.eqb_spec a b) as [->|Hne]; simpl.
  - destruct (Ascii.ascii_dec b b); [reflexivity | contradiction].
  - destruct (Ascii.ascii_dec b a) as [->|]; [contradiction | reflexivity].
Qed.

(** What [contains] of validators.go computes. *)
Lemma contains_prefix (s substr : string) :
  tools.contains s substr
  = negb (String.eqb substr EmptyString) && String.prefix substr s.
Proof.
  unfold tools.contains, tools.containsAt.
  destruct (String.eqb_spec substr EmptyString) as [->|Hne0].
  { reflexivity. }
  cbn [negb]. rewrite andb_true_l.
  destruct (Nat.leb_spec (String.length substr) (String.length s)) as [Hle|Hgt].
  2:{ cbn [andb]. destruct (String.prefix substr s) eqn:Hp; [|reflexivity].
      apply prefix_length in Hp. lia. }
  assert (Hpos : (0 <? String.length substr)%nat = true).
  { apply Nat.ltb_lt. destruct substr; [contradiction | simpl; lia]. }
  rewrite Hpos. cbn [andb].
  destruct (String.eqb_spec s substr) as [->|Hne].
  { rewrite prefix_refl. reflexivity. }
  cbn [orb].
  destruct (Nat.ltb_spec (String.length substr) (String.length s)) as [Hlt|Hge].
  - cbn [andb]. rewrite Nat.add_0_l.
    destruct (Nat.ltb_spec (String.length s) (String.length substr)); [lia|].
    apply containsAtFrom_prefix. exact Hle.
  - cbn [andb]. destruct (String.prefix substr s) eqn:Hp; [|reflexivity].
    exfalso. apply Hne. symmetry. apply prefix_same_length; [exact Hp | lia].
Qed.

(** X13 (validators.go, contains with containsAt and isNotFoundError):
    [contains] is not [strings.Contains].  It looks at the start of the
    text only: it holds exactly when [substr] is not empty and [s] begins
    with it.  So [isNotFoundError] recognises the errors whose text
    begins with "404" or with "not found", and no others: an error that
    wraps such a text behind a prefix of its own is not recognised. *)
Theorem contains_is_a_prefix_test :
  (forall s substr : string,
     tools.contains s substr = true
     <-> substr <> EmptyString /\ String.prefix substr s = true) /\
  (forall e : error,
     tools.isNotFoundError (Some e)
     = String.prefix "404" (Error e) || String.prefix "not found" (Error e)) /\
  (forall (prefix : string) (e : error),
     String.prefix "404" prefix = false ->
     String.prefix "not found" prefix = false ->
     (9 <= String.length prefix)%nat ->
     tools.isNotFoundError (Some (Errorf_w prefix e)) = false).
Proof.
  repeat apply conj.
  - intros s substr. rewrite contains_prefix, andb_true_iff, negb_true_iff.
    destruct (String.eqb_spec substr EmptyString); intuition congruence.
  - intros e. unfold tools.isNotFoundError. rewrite !contains_prefix. reflexivity.
  - intros prefix e H404 Hnf H9. unfold tools.isNotFoundError.
    rewrite !contains_prefix. simpl.
    assert (Hcut : forall p a b : string,
              (String.length p <= String.length a)%nat ->
              String.prefix p a = false -> String.prefix p (a +:+ b) = false).
    { clear. intros p a. revert p.
      induction a as [|x a IH]; intros [|y p] b Hl Hp; simpl in *;
        try discriminate; try lia.
      destruct (Ascii.ascii_dec y x); [|reflexivity].
      apply IH; [lia | exact Hp]. }
    rewrite (Hcut "404" prefix (Error e) ltac:(simpl; lia) H404).
    rewrite (Hcut "not found" prefix (Error e) H9 Hnf). reflexivity.
Qed.

Lemma contains_is_a_prefix_test_witness :
  tools.isNotFoundError
    (Some (Errorf_w "failed to get service info: " (errorString "404: gone")))
  = false /\
  tools.isNotFoundError (Some (errorString "404: gone")) = true.
Proof.
  destruct contains_is_a_prefix_test as (_ & Heq & Hwrapped).
  split.
  - apply (Hwrapped "failed to get service info: " (errorString "404: gone"));
      try reflexivity; simpl; lia.
  - rewrite Heq. reflexivity.
Defined.

(** An answer with a status of 400 or more makes [doRequest] fail with a
    text that begins with the status. *)
Lemma doRequest_status_error (env : Env) (c : Client) (ctx : Ctx)
    (method path : string) (body : option Payload) (w : World) (status : Z) :
  (forall e, body <> Some (MarshalFails e)) ->
  newRequestError env method (baseURL c +:+ path) = None ->
  alwaysAnswers env status ->
  400 <= status ->
  exists rest : string,
    fst (doRequest env c ctx method path body w)
    = (None, Some (errorString (itoa status +:+ ": " +:+ rest))).
Proof.
  intros Hbody Hnew Halways Hstatus.
  unfold doRequest, bind, Do.
  destruct body as [[json|e]|]; [| exfalso; eapply Hbody; reflexivity |].
  all: rewrite Hnew, clientDo_eq; unfold send.
  all: match goal with
       | |- context [roundTrip ?e ?k ?req] =>
           destruct (Halways k req) as (text & took & Hrt); rewrite Hrt
       end.
  all: cbn [Body StatusCode]; destruct (Z.leb_spec 400 status); [|lia].
  all: destruct (unmarshalErrorResponse env text) as [errResp|];
         [|exists text; reflexivity].
  all: destruct (negb (String.eqb (Code (RespError errResp)) EmptyString));
         [|exists text; reflexivity].
  all: exists (Code (RespError errResp) +:+ " - " +:+ Message (RespError errResp));
         reflexivity.
Qed.

(** ... and so does a retried call, on a context that is never done. *)
Lemma steady_status_error (env : Env) (c : Client) (ctx : Ctx)
    (method path : string) (w : World) (status : Z) :
  0 <= MaxRetries (retryConfig c) ->
  doneAt ctx = None ->
  newRequestError env method (baseURL c +:+ path) = None ->
  alwaysAnswers env status ->
  400 <= status ->
  exists rest : string,
    fst (doRequestWithRetry env c ctx method path None w)
    = (None, Some (errorString (itoa status +:+ ": " +:+ rest))).
Proof.
  intros Hmax Hnever Hnew Halways Hstatus.
  destruct (doRequestWithRetry env c ctx method path None w) as [r w'] eqn:H.
  apply doRequestWithRetry_spec in H as (evs & _ & _ & _ & _ & _ & _ & Hend).
  destruct evs as [|[| x | site start d [|] |] evs]; try contradiction.
  - destruct Hend as [Hzero _]. rewrite effectiveConfig_allowed in Hzero by exact Hmax.
    destruct (MaxRetries (retryConfig c) =? 0); lia.
  - destruct Hend as (-> & [w1 Hw1] & _).
    destruct (doRequest_status_error env c ctx method path None w1 status
                ltac:(discriminate) Hnew Halways Hstatus) as [rest Hrest].
    rewrite Hw1 in Hrest. exists rest. exact Hrest.
  - destruct Hend as (_ & t & Hdt & _). congruence.
Qed.

(** X14 (validators.go, ValidateProjectAccess and ValidateServiceAccess,
    over GetProject and GetService): against an API that answers 404,
    on a context that is never done and with a [MaxRetries] that is not
    negative, the project is reported as PROJECT_NOT_FOUND and the
    service as SERVICE_NOT_FOUND, whatever the body of the answer and
    however often it was retried: the text of the client's error begins
    with the status, which is where [isNotFoundError] looks. *)
Theorem missing_resource_is_reported_as_not_found (env : Env) (codec : Codec)
    (c : Client) (ctx : Ctx) (projectID serviceID : string) (w : World) :
  0 <= MaxRetries (retryConfig c) ->
  doneAt ctx = None ->
  (forall method url, newRequestError env method url = None) ->
  alwaysAnswers env 404 ->
  fst (tools.ValidateProjectAccess env codec c ctx projectID w)
  = (None,
     Some (tools.ErrorResponse "PROJECT_NOT_FOUND"
             ("Project '" +:+ projectID +:+ "' not found")
             "Check the project ID or use 'project_list' to see available projects"))
  /\
  fst (tools.ValidateServiceAccess env codec c ctx projectID serviceID w)
  = (None,
     Some (tools.ErrorResponse "SERVICE_NOT_FOUND"
             ("Service '" +:+ serviceID +:+ "' not found in project")
             "Check the service ID or use 'service_list' to see available services")).
Proof.
  intros Hmax Hnever Hnew Halways.
  assert (Hnf : forall rest,
            tools.isNotFoundError
              (Some (errorString (itoa 404 +:+ ": " +:+ rest))) = true).
  { intros rest. unfold tools.isNotFoundError. rewrite !contains_prefix.
    simpl. destruct rest; reflexivity. }
  split.
  - unfold tools.ValidateProjectAccess, GetProject, bind.
    destruct (steady_status_error env c ctx "GET"
                ("/api/rest/public/project/" +:+ projectID) w 404
                Hmax Hnever (Hnew _ _) Halways ltac:(lia)) as [rest Hrest].
    destruct (doRequestWithRetry env c ctx "GET"
                ("/api/rest/public/project/" +:+ projectID) None w) as [x w1].
    simpl in Hrest. subst x. unfold ret, decodeWith. cbn [snd fst].
    rewrite Hnf. reflexivity.
  - unfold tools.ValidateServiceAccess, GetService, bind.
    destruct (steady_status_error env c ctx "GET"
                ("/api/rest/public/service-stack/" +:+ serviceID) w 404
                Hmax Hnever (Hnew _ _) Halways ltac:(lia)) as [rest Hrest].
    destruct (doRequestWithRetry env c ctx "GET"
                ("/api/rest/public/service-stack/" +:+ serviceID) None w) as [x w1].
    simpl in Hrest. subst x. unfold ret, decodeWith. cbn [snd fst].
    rewrite Hnf. reflexivity.
Qed.

Lemma missing_resource_is_reported_as_not_found_witness :
  fst (tools.ValidateProjectAccess envNotFound scenarioCodec (clientWith None)
         Background "proj1" world0)
  = (None,
     Some (tools.ErrorResponse "PROJECT_NOT_FOUND"
             "Project 'proj1' not found"
             "Check the project ID or use 'project_list' to see available projects")).
Proof.
  apply (missing_resource_is_reported_as_not_found envNotFound scenarioCodec
           (clientWith None) Background "proj1" "svc1" world0).
  - simpl. lia.
  - reflexivity.
  - reflexivity.
  - intros k req. exists "unknown resource", 0%N. reflexivity.
Defined.

(** X15 (validators.go, GetClientID of the tools, over GetCurrentUser and
    HandleAPIError): against an API that answers 401, on a context that
    is never done and with a [MaxRetries] that is not negative, the tool
    gets no client ID and the result AUTH_FAILED, whatever the body of
    the answer. *)
Theorem unauthorized_is_reported_as_auth_failed (env : Env) (codec : Codec)
    (c : Client) (ctx : Ctx) (w : World) :
  0 <= MaxRetries (retryConfig c) ->
  doneAt ctx = None ->
  (forall method url, newRequestError env method url = None) ->
  alwaysAnswers env 401 ->
  fst (tools.GetClientID env codec c ctx w)
  = (EmptyString,
     Some (tools.ErrorResponse "AUTH_FAILED"
             "Authentication failed - invalid API key"
             "Set ZEROPS_API_KEY environment variable with a valid key")).
Proof.
  intros Hmax Hnever Hnew Halways.
  unfold tools.GetClientID, GetCurrentUser, bind.
  destruct (steady_status_error env c ctx "GET" "/api/rest/public/user/info" w 401
              Hmax Hnever (Hnew _ _) Halways ltac:(lia)) as [rest Hrest].
  destruct (doRequestWithRetry env c ctx "GET" "/api/rest/public/user/info" None w)
    as [x w1].
  simpl in Hrest. subst x. unfold ret, decodeWith. cbn [snd fst].
  unfold tools.HandleAPIError. cbn [Error].
  replace (Contains (itoa 401 +:+ ": " +:+ rest) "401") with true; [reflexivity|].
  symmetry. apply (Contains_app_l "401" (": " +:+ rest) "401"). reflexivity.
Qed.

Lemma unauthorized_is_reported_as_auth_failed_witness :
  fst (tools.GetClientID envUnauthorized scenarioCodec (clientWith None)
         Background world0)
  = (EmptyString,
     Some (tools.ErrorResponse "AUTH_FAILED"
             "Authentication failed - invalid API key"
             "Set ZEROPS_API_KEY environment variable with a valid key")).
Proof.
  apply (unauthorized_is_reported_as_auth_failed envUnauthorized scenarioCodec
           (clientWith None) Background world0).
  - simpl. lia.
  - reflexivity.
  - reflexivity.
  - intros k req. exists "unauthorized", 0%N. reflexivity.
Defined.

(** X16 (common.go, HandleAPIError, on the errors of WaitForProcess in
    client.go): the errors of the poller carry the process ID, and
    [HandleAPIError] searches the whole text.  A timeout is reported as
    TIMEOUT when its text contains none of the ten texts that are looked
    for first; but for a process whose ID contains "401", every timeout
    and every failed status is reported as AUTH_FAILED. *)
Theorem process_id_can_decide_the_error_code (processID : string) (ctx : Ctx) :
  (forall (final : error + Process) (err : error),
     snd (timeoutResult processID ctx final) = Some err ->
     Forall (fun p => Contains (Error err) p = false) earlierPatterns ->
     tools.HandleAPIError err
     = tools.ErrorResponse "TIMEOUT" "Request timed out"
         "The operation took too long. Try again or check if the service is responding")
  /\
  (Contains processID "401" = true ->
   (forall (final : error + Process) (err : error),
      snd (timeoutResult processID ctx final) = Some err ->
      tools.HandleAPIError err
      = tools.ErrorResponse "AUTH_FAILED"
          "Authentication failed - invalid API key"
          "Set ZEROPS_API_KEY environment variable with a valid key") /\
   (forall (process : Process) (out : option Process) (err : error),
      switchStatus processID process = Some (out, Some err) ->
      tools.HandleAPIError err
      = tools.ErrorResponse "AUTH_FAILED"
          "Authentication failed - invalid API key"
          "Set ZEROPS_API_KEY environment variable with a valid key")).
Proof.
  split.
  - intros final err Herr Hfree.
    assert (Htimeout : Contains (Error err) "timeout" = true).
    { destruct final as [e|finalProcess]; simpl in Herr; injection Herr as <-;
        cbn [Error Errorf_w];
        apply (Contains_app_l "timeout" _ "timeout"); reflexivity. }
    unfold earlierPatterns in Hfree.
    repeat match goal with
           | H : Forall _ (_ :: _) |- _ =>
               let H1 := fresh "Hp" in
               apply Forall_cons_1 in H as [H1 H]
           end.
    unfold tools.HandleAPIError.
    rewrite Hp, Hp0, Hp1, Hp2, Hp3, Hp4, Hp5, Hp6, Hp7, Hp8, Htimeout.
    reflexivity.
  - intros Hid.
    assert (Hauth : forall err : error,
              Contains (Error err) "401" = true ->
              tools.HandleAPIError err
              = tools.ErrorResponse "AUTH_FAILED"
                  "Authentication failed - invalid API key"
                  "Set ZEROPS_API_KEY environment variable with a valid key").
    { intros err H. unfold tools.HandleAPIError. rewrite H. reflexivity. }
    split.
    + intros final err Herr. apply Hauth.
      destruct final as [e|finalProcess]; simpl in Herr; injection Herr as <-;
        cbn [Error Errorf_w].
      * apply Contains_app_l. apply Contains_app_r. apply Contains_app_l. exact Hid.
      * apply Contains_app_r. apply Contains_app_l. exact Hid.
    + intros process out err Hsw. apply Hauth.
      unfold switchStatus in Hsw.
      destruct (String.eqb (Status process) "SUCCESS"
                || String.eqb (Status process) "FINISHED"); [discriminate|].
      destruct (String.eqb (Status process) "FAILED"
                || String.eqb (Status process) "ERROR"
                || String.eqb (Status process) "CANCELLED"); [|discriminate].
      injection Hsw as _ <-. cbn [Error].
      apply Contains_app_r. apply Contains_app_l. exact Hid.
Qed.

Lemma process_id_can_decide_the_error_code_witness :
  tools.HandleAPIError
    (errorString "timeout waiting for process p1 (last status: RUNNING)")
  = tools.ErrorResponse "TIMEOUT" "Request timed out"
      "The operation took too long. Try again or check if the service is responding"
  /\
  tools.HandleAPIError
    (errorString "timeout waiting for process xk401m (last status: RUNNING)")
  = tools.ErrorResponse "AUTH_FAILED"
      "Authentication failed - invalid API key"
      "Set ZEROPS_API_KEY environment variable with a valid key".
Proof.
  split.
  - destruct (process_id_can_decide_the_error_code "p1" Background) as [H _].
    apply (H (inr (processWith "RUNNING"))); [reflexivity|].
    repeat constructor.
  - destruct (process_id_can_decide_the_error_code "xk401m" Background) as [_ H].
    destruct (H eq_refl) as [Ht _].
    apply (Ht (inr (processWith "RUNNING"))). reflexivity.
Defined.

Lemma checkCharacters_loop (name : string) :
  tools.checkCharacters name = None <-> tools.onlyLowerOrDigit name = true.
Proof.
  induction name as [|ch name IH]; simpl; [tauto|].
  destruct (tools.isLowerOrDigit ch); simpl; [exact IH|].
  split; discriminate.
Qed.

(** X17 (validators.go, ValidateServiceName, and config.go,
    isValidServiceName): the two validators of a service name agree on
    the characters, lower-case letters and digits, and on nothing else.
    [ValidateServiceName] accepts exactly the names of 3 to 30 bytes made
    of them.  A name it accepts is accepted by [isValidServiceName]
    unless it starts with a digit; a name [isValidServiceName] accepts is
    accepted by it unless the name is shorter than 3 or longer than 30
    bytes. *)
Theorem service_name_validators_differ (name : string) :
  (tools.ValidateServiceName name = None
   <-> (3 <= String.length name <= 30)%nat /\ tools.onlyLowerOrDigit name = true) /\
  (tools.ValidateServiceName name = None ->
   tools.isValidServiceName name = negb (startsWithDigit name)) /\
  (tools.isValidServiceName name = true ->
   (tools.ValidateServiceName name = None
    <-> (3 <= String.length name <= 30)%nat)).
Proof.
  assert (Hfirst : tools.ValidateServiceName name = None
                   <-> (3 <= String.length name <= 30)%nat
                       /\ tools.onlyLowerOrDigit name = true).
  { unfold tools.ValidateServiceName.
    destruct (Nat.ltb_spec (String.length name) 3) as [Hshort|Hlong]; simpl.
    { split; [discriminate | lia]. }
    destruct (Nat.ltb_spec 30 (String.length name)) as [Hover|Hfits].
    { split; [discriminate | lia]. }
    rewrite checkCharacters_loop. split; [intros H; split; [lia | exact H] | tauto]. }
  assert (Hsecond : tools.isValidServiceName name = true ->
                    tools.onlyLowerOrDigit name = true).
  { unfold tools.isValidServiceName. destruct name as [|first rest]; [discriminate|].
    destruct ((48 <=? nat_of_ascii first) && (nat_of_ascii first <=? 57))%nat;
      [discriminate | auto]. }
  split; [exact Hfirst|]. split.
  - intros H. apply Hfirst in H as [Hlen Hchars].
    unfold tools.isValidServiceName, startsWithDigit.
    destruct name as [|first rest]; [simpl in Hlen; lia|].
    destruct ((48 <=? nat_of_ascii first) && (nat_of_ascii first <=? 57))%nat;
      [reflexivity | exact Hchars].
  - intros Hvalid. split.
    + intros H. apply Hfirst in H. tauto.
    + intros Hlen. apply Hfirst. split; [exact Hlen | apply Hsecond; assumption].
Qed.

Lemma service_name_validators_differ_witness :
  tools.ValidateServiceName "9lives" = None /\
  tools.isValidServiceName "9lives" = false /\
  tools.isValidServiceName "db" = true /\
  tools.ValidateServiceName "db" <> None.
Proof.
  destruct (service_name_validators_differ "9lives") as (_ & Hdigit & _).
  destruct (service_name_validators_differ "db") as (_ & _ & Hshort).
  repeat apply conj.
  - reflexivity.
  - apply (Hdigit eq_refl).
  - reflexivity.
  - intros H. apply (Hshort eq_refl) in H. simpl in H. lia.
Defined.

(** X18 (common.go, PreprocessYAML): the directive is added once.  The
    result always contains [#yamlPreprocessor=on]; it is the content
    itself, or the content behind the directive and a line feed; and
    processing a result again changes nothing. *)
Theorem PreprocessYAML_adds_the_directive_once (yamlContent : string) :
  Contains (tools.PreprocessYAML yamlContent) "#yamlPreprocessor=on" = true /\
  (tools.PreprocessYAML yamlContent = yamlContent \/
   tools.PreprocessYAML yamlContent
   = "#yamlPreprocessor=on" +:+ tools.LF +:+ yamlContent) /\
  tools.PreprocessYAML (tools.PreprocessYAML yamlContent)
  = tools.PreprocessYAML yamlContent.
Proof.
  assert (Hhas : Contains (tools.PreprocessYAML yamlContent) "#yamlPreprocessor=on"
                 = true).
  { unfold tools.PreprocessYAML.
    destruct (Contains yamlContent "#yamlPreprocessor=on") eqn:H; [exact H|].
    apply (Contains_app_l "#yamlPreprocessor=on" _ "#yamlPreprocessor=on").
    reflexivity. }
  repeat apply conj.
  - exact Hhas.
  - unfold tools.PreprocessYAML.
    destruct (Contains yamlContent "#yamlPreprocessor=on"); auto.
  - unfold tools.PreprocessYAML at 1. rewrite Hhas. reflexivity.
Qed.

(* ===================================================================== *)
(** * Properties of the masks *)

Lemma string_length_app (a b : string) :
  String.length (a +:+ b) = (String.length a + String.length b)%nat.
Proof. induction a as [|c a IH]; simpl; [reflexivity | rewrite IH; reflexivity]. Qed.

Lemma string_get_app (a b : string) (i : nat) :
  String.get i (a +:+ b)
  = if (i <? String.length a)%nat then String.get i a
    else String.get (i - String.length a) b.
Proof.
  revert i. induction a as [|c a IH]; intros i; simpl.
  - rewrite Nat.sub_0_r. reflexivity.
  - destruct i as [|i]; [reflexivity|]. rewrite IH. reflexivity.
Qed.

Lemma string_get_beyond (s : string) (i : nat) :
  (String.length s <= i)%nat -> String.get i s = None.
Proof.
  revert i. induction s as [|c s IH]; intros i Hi; [destruct i; reflexivity|].
  destruct i as [|i]; simpl in *; [lia | apply IH; lia].
Qed.

Lemma Repeat_star_length (n : nat) : String.length (utils.Repeat "*" n) = n.
Proof.
  induction n as [|n IH]; [reflexivity|].
  change (utils.Repeat "*" (S n)) with (String "*"%char (utils.Repeat "*" n)).
  simpl. rewrite IH. reflexivity.
Qed.

Lemma Repeat_star_get (n i : nat) :
  (i < n)%nat -> String.get i (utils.Repeat "*" n) = Some "*"%char.
Proof.
  revert i. induction n as [|n IH]; intros i Hi; [lia|].
  change (utils.Repeat "*" (S n)) with (String "*"%char (utils.Repeat "*" n)).
  destruct i as [|i]; simpl; [reflexivity | apply IH; lia].
Qed.

Lemma substring_length (s : string) :
  forall n m : nat,
  (n + m <= String.length s)%nat -> String.length (String.substring n m s) = m.
Proof.
  induction s as [|c s IH]; intros n m H; simpl in H.
  - assert (n = 0 /\ m = 0)%nat as [-> ->] by lia. reflexivity.
  - destruct n as [|n]; simpl.
    + destruct m as [|m]; simpl; [reflexivity|]. rewrite IH by lia. reflexivity.
    + apply IH. lia.
Qed.

(** The bytes of a masked key. *)
Lemma MaskAPIKey_get (apiKey : string) (i : nat) :
  String.get i (utils.MaskAPIKey apiKey)
  = if (i <? String.length apiKey)%nat then
      if (8 <? String.length apiKey)%nat
         && ((i <? 4)%nat || (String.length apiKey - 4 <=? i)%nat)
      then String.get i apiKey else Some "*"%char
    else None.
Proof.
  unfold utils.MaskAPIKey.
  set (n := String.length apiKey).
  destruct (Nat.leb_spec n 8) as [Hshort|Hlong].
  - destruct (Nat.ltb_spec 8 n); [lia|]. cbn [andb].
    destruct (Nat.ltb_spec i n).
    + apply Repeat_star_get. assumption.
    + apply string_get_beyond. rewrite Repeat_star_length. assumption.
  - destruct (Nat.ltb_spec 8 n); [|lia]. cbn [andb].
    rewrite !string_get_app, Repeat_star_length.
    rewrite (substring_length apiKey 0 4) by (fold n; lia).
    destruct (Nat.ltb_spec i 4) as [Hi|Hi].
    { destruct (Nat.ltb_spec i n); [|lia]. cbn [orb].
      rewrite String.substring_correct1 by assumption. rewrite Nat.add_0_r. reflexivity. }
    cbn [orb].
    destruct (Nat.ltb_spec (i - 4) (n - 8)) as [Hm|Hm].
    { destruct (Nat.ltb_spec i n); [|lia].
      destruct (Nat.leb_spec (n - 4) i); [lia|].
      apply Repeat_star_get. assumption. }
    destruct (Nat.leb_spec (n - 4) i); [|lia].
    destruct (Nat.ltb_spec i n) as [Hin|Hout].
    + rewrite String.substring_correct1 by lia. f_equal. lia.
    + apply string_get_beyond.
      rewrite (substring_length apiKey (n - 4) 4) by (fold n; lia). lia.
Qed.

(** X19 (mask.go, MaskAPIKey): a masked key has the length of the key;
    each of its bytes is a star, except that a key of more than 8 bytes
    keeps its first four and its last four bytes; so a key of 8 bytes
    or less shows nothing but its length, and a longer one never more
    than eight of its bytes.  Masking a masked key changes nothing. *)
Theorem MaskAPIKey_shows_at_most_eight_bytes (apiKey : string) :
  String.length (utils.MaskAPIKey apiKey) = String.length apiKey /\
  (forall i : nat, (i < String.length apiKey)%nat ->
     String.get i (utils.MaskAPIKey apiKey)
     = if (8 <? String.length apiKey)%nat
          && ((i <? 4)%nat || (String.length apiKey - 4 <=? i)%nat)
       then String.get i apiKey else Some "*"%char) /\
  utils.MaskAPIKey (utils.MaskAPIKey apiKey) = utils.MaskAPIKey apiKey.
Proof.
  assert (Hlen : String.length (utils.MaskAPIKey apiKey) = String.length apiKey).
  { unfold utils.MaskAPIKey.
    destruct (Nat.leb_spec (String.length apiKey) 8).
    - apply Repeat_star_length.
    - rewrite !string_length_app, Repeat_star_length, !substring_length by lia. lia. }
  repeat apply conj.
  - exact Hlen.
  - intros i Hi. rewrite MaskAPIKey_get.
    destruct (Nat.ltb_spec i (String.length apiKey)); [reflexivity | lia].
  - apply String.get_correct. intros i.
    rewrite (MaskAPIKey_get (utils.MaskAPIKey apiKey)), Hlen.
    rewrite MaskAPIKey_get.
    destruct (i <? String.length apiKey)%nat; [|reflexivity].
    destruct ((8 <? String.length apiKey)%nat
              && ((i <? 4)%nat || (String.length apiKey - 4 <=? i)%nat));
      reflexivity.
Qed.

Lemma prefix_split (p s : string) :
  String.prefix p s = true -> exists b, s = p +:+ b.
Proof.
  revert p. induction s as [|c s IH]; intros [|d p] H; simpl in H;
    try discriminate; try (eexists; reflexivity).
  destruct (Ascii.ascii_dec d c) as [->|]; [|discriminate].
  destruct (IH p H) as [b ->]. exists b. reflexivity.
Qed.

Lemma Contains_split (s p : string) :
  Contains s p = true -> exists a b, s = a +:+ p +:+ b.
Proof.
  induction s as [|c s IH]; cbn [Contains]; intros H.
  - rewrite orb_false_r in H. apply prefix_split in H as [b Hb].
    exists EmptyString, b. exact Hb.
  - apply orb_true_iff in H as [H|H].
    + apply prefix_split in H as [b Hb]. exists EmptyString, b. exact Hb.
    + destruct (IH H) as (a & b & ->). exists (String c a), b. reflexivity.
Qed.

Lemma Contains_trans (s q p : string) :
  Contains s q = true -> Contains q p = true -> Contains s p = true.
Proof.
  intros Hs Hq. apply Contains_split in Hs as (a & b & ->).
  apply Contains_app_r. apply Contains_app_l. exact Hq.
Qed.

Lemma isASCII_lowerString (s : string) :
  utils.isASCII s = true -> utils.isASCII (lowerString s) = true.
Proof.
  induction s as [|c s IH]; simpl; [reflexivity|].
  intros H. apply andb_true_iff in H as [Hc Hs].
  rewrite (IH Hs), andb_true_r. unfold toLower.
  apply Nat.ltb_lt in Hc. apply Nat.ltb_lt.
  destruct ((65 <=? nat_of_ascii c) && (nat_of_ascii c <=? 90))%nat eqn:Hup;
    [|exact Hc].
  apply andb_true_iff in Hup as [_ Hup]. apply Nat.leb_le in Hup.
  rewrite nat_ascii_embedding by lia. lia.
Qed.

Lemma lowerString_idem (s : string) : lowerString (lowerString s) = lowerString s.
Proof.
  induction s as [|c s IH]; simpl; [reflexivity|]. rewrite IH. f_equal.
  unfold toLower.
  destruct ((65 <=? nat_of_ascii c) && (nat_of_ascii c <=? 90))%nat eqn:Hup.
  - apply andb_true_iff in Hup as [Hlo Hhi].
    apply Nat.leb_le in Hlo. apply Nat.leb_le in Hhi.
    rewrite nat_ascii_embedding by lia.
    destruct (Nat.leb_spec (nat_of_ascii c + 32) 90); [lia|].
    rewrite andb_false_r. reflexivity.
  - rewrite Hup. reflexivity.
Qed.

(** X20 (mask.go, IsSensitiveField): on a field name of ASCII bytes the
    test is a search, without regard to case, for one of eight words:
    password, secret, token, apikey, api_key, private_key, privatekey and
    auth; the other five entries of [sensitiveFields] contain one of
    these and add nothing.  The name and its lower-case form get the
    same verdict, and a name that contains a sensitive name is
    sensitive. *)
Theorem IsSensitiveField_searches_eight_words (unicodeLower : string -> string)
    (fieldName : string) :
  utils.isASCII fieldName = true ->
  utils.IsSensitiveField unicodeLower fieldName
  = containsAny (lowerString fieldName) sensitiveWords /\
  utils.IsSensitiveField unicodeLower (lowerString fieldName)
  = utils.IsSensitiveField unicodeLower fieldName /\
  (forall before after : string,
     utils.isASCII (before +:+ fieldName +:+ after) = true ->
     utils.IsSensitiveField unicodeLower fieldName = true ->
     utils.IsSensitiveField unicodeLower (before +:+ fieldName +:+ after) = true).
Proof.
  assert (Hmain : forall name, utils.isASCII name = true ->
            utils.IsSensitiveField unicodeLower name
            = containsAny (lowerString name) sensitiveWords).
  { intros name Hascii. unfold utils.IsSensitiveField, utils.ToLower.
    rewrite Hascii. set (s := lowerString name).
    unfold utils.anySensitive, utils.sensitiveFields, sensitiveWords, containsAny.
    repeat match goal with
           | |- context [utils.ToLower ?u ?lit] =>
               let v := eval vm_compute in (lowerString lit) in
               change (utils.ToLower u lit) with v
           end.
    destruct (Contains s "password") eqn:H1; [reflexivity|].
    destruct (Contains s "secret") eqn:H2; [reflexivity|].
    destruct (Contains s "token") eqn:H3; [reflexivity|].
    destruct (Contains s "apikey") eqn:H4; [reflexivity|].
    destruct (Contains s "api_key") eqn:H5; [reflexivity|].
    destruct (Contains s "private_key") eqn:H6; [reflexivity|].
    destruct (Contains s "privatekey") eqn:H7; [reflexivity|].
    assert (Hno : forall q, Contains q "token" = true -> Contains s q = false).
    { intros q Hq. destruct (Contains s q) eqn:Hs; [|reflexivity].
      rewrite (Contains_trans s q "token" Hs Hq) in H3. discriminate. }
    rewrite (Hno "access_token" eq_refl), (Hno "accesstoken" eq_refl),
      (Hno "refresh_token" eq_refl), (Hno "refreshtoken" eq_refl).
    destruct (Contains s "auth") eqn:H8; [reflexivity|].
    destruct (Contains s "authorization") eqn:H9; [|reflexivity].
    rewrite (Contains_trans s "authorization" "auth" H9 eq_refl) in H8.
    discriminate. }
  intros Hascii.
  repeat apply conj.
  - apply Hmain, Hascii.
  - rewrite !Hmain by (try apply isASCII_lowerString; assumption).
    rewrite lowerString_idem. reflexivity.
  - intros before after Hall Hsens.
    rewrite Hmain in Hsens by assumption. rewrite Hmain by assumption.
    apply containsAny_true in Hsens as (p & Hp & Hc).
    apply (containsAny_In _ _ p Hp).
    assert (Happ : forall a b, lowerString (a +:+ b) = lowerString a +:+ lowerString b).
    { clear. induction a as [|c a IH]; intros b; simpl; [reflexivity|].
      rewrite IH. reflexivity. }
    rewrite !Happ. apply Contains_app_r. apply Contains_app_l. exact Hc.
Qed.

Lemma IsSensitiveField_searches_eight_words_witness :
  utils.isASCII "X-Author-Name" = true /\
  utils.IsSensitiveField (fun s => s) "X-Author-Name" = true.
Proof.
  split; [reflexivity|].
  destruct (IsSensitiveField_searches_eight_words (fun s => s) "X-Author-Name"
              eq_refl) as (Heq & _ & _).
  rewrite Heq. reflexivity.
Defined.
